(** * The service-component runtime of elastic-agent

    A shallow embedding of [pkg/component/runtime/service.go]: the
    supervisor that drives a component installed as an operating-system
    service through install / start / check-in / stop / uninstall.

    The Go receiver [*serviceRuntime] becomes an explicit state, the calls
    the loop makes to its collaborators (timer, connection info server,
    service commands, communicator, watch channel) become a log of events,
    and what those collaborators answer is read from an oracle. *)

From Stdlib Require Import ZArith String List Bool Lia DecimalString.
Import ListNotations.

Local Open Scope Z_scope.

Infix "+++" := String.append (right associativity, at level 60).

(** ** Go base types *)

(** [int] and [time.Duration] are 64-bit signed integers. *)
Definition minInt64 : Z := - 2 ^ 63.
Definition maxInt64 : Z := 2 ^ 63 - 1.

(** Two's complement wrap-around of a 64-bit signed integer. *)
Definition wrap64 (z : Z) : Z := (z + 2 ^ 63) mod 2 ^ 64 - 2 ^ 63.

(** The [%d] verb of [fmt.Sprintf]. *)
Definition itoa (z : Z) : string := NilZero.string_of_int (Z.to_int z).

(** [time.Duration]: nanoseconds. *)
Definition Duration := Z.
Definition Second : Duration := 1000000000.

(** [time.Time]: an instant, counted in nanoseconds from the zero instant
    (January 1, year 1, 00:00:00 UTC), which is the zero value of the type. *)
Definition Time := Z.
Definition zeroTime : Time := 0.
Definition IsZero (t : Time) : bool := t =? 0.

(** [t.Sub(u)]: the difference, saturated to the range of [Duration]. *)
Definition Sub (t u : Time) : Duration :=
  if t - u <? minInt64 then minInt64
  else if t - u >? maxInt64 then maxInt64
  else t - u.

(** ** Errors *)

(** The two sentinels of the file, [errors.New] and [fmt.Errorf] with one
    [%w] operand. *)
Inductive error : Type :=
| ErrOperationSpecUndefined
| ErrInvalidServiceSpec
| errorsNew (text : string)
| wrapError (msg : string) (inner : error).

Definition Error (e : error) : string :=
  match e with
  | ErrOperationSpecUndefined => "operation spec undefined"
  | ErrInvalidServiceSpec => "invalid service spec"
  | errorsNew text => text
  | wrapError msg _ => msg
  end.

(** [errors.Is(e, target)] for a sentinel [target]. *)
Fixpoint IsUndefinedSpec (e : error) : bool :=
  match e with
  | ErrOperationSpecUndefined => true
  | wrapError _ inner => IsUndefinedSpec inner
  | _ => false
  end.

(** [fmt.Errorf(prefix + "%w", err)]. *)
Definition Errorf_w (prefix : string) (err : error) : error :=
  wrapError (prefix +++ Error err) err.

(** ** client.UnitState and actionMode *)

Inductive UnitState : Type :=
| UnitStateStarting
| UnitStateHealthy
| UnitStateDegraded
| UnitStateFailed
| UnitStateStopping
| UnitStateStopped.

Definition UnitState_eqb (a b : UnitState) : bool :=
  match a, b with
  | UnitStateStarting, UnitStateStarting
  | UnitStateHealthy, UnitStateHealthy
  | UnitStateDegraded, UnitStateDegraded
  | UnitStateFailed, UnitStateFailed
  | UnitStateStopping, UnitStateStopping
  | UnitStateStopped, UnitStateStopped => true
  | _, _ => false
  end.

Inductive actionMode : Type :=
| actionTeardown
| actionStop
| actionStart.

(** ** package component: the descriptor of the managed service

    Only the fields [service.go] reads.  A Go pointer is an [option]. *)

Record ServiceOperationsCommandSpec : Type := {
  Args : list string;
  Timeout : Duration
}.

Record ServiceOperationsSpec : Type := {
  Check : option ServiceOperationsCommandSpec;
  Install : option ServiceOperationsCommandSpec;
  Uninstall : option ServiceOperationsCommandSpec
}.

Record ServiceTimeoutSpec : Type := {
  Checkin : Duration
}.

Record ServiceSpec : Type := {
  CPort : Z;
  Operations : ServiceOperationsSpec;
  Timeouts : ServiceTimeoutSpec
}.

Record InputSpecT : Type := {
  Name : string;
  Service : option ServiceSpec
}.

Record InputRuntimeSpec : Type := {
  BinaryName : string;
  BinaryPath : string;
  Spec : InputSpecT
}.

Record ShipperRuntimeSpec : Type := {
  ShipperType : string
}.

Record Component : Type := {
  ShipperSpec : option ShipperRuntimeSpec;
  InputSpec : option InputRuntimeSpec
}.

(** Dereferences.  In Go a nil dereference panics; here it reads the zero
    value.  [newServiceRuntime] refuses a component whose [InputSpec] or
    [Service] pointer is nil and [comp] is never assigned afterwards
    ([newServiceRuntime_valid], [Run_iteration_comp]), so the zero values
    are read by no supervisor that was constructed; the properties of the
    loop are stated for supervisors with [validComponent]. *)
Definition nilServiceSpec : ServiceSpec :=
  {| CPort := 0;
     Operations := {| Check := None; Install := None; Uninstall := None |};
     Timeouts := {| Checkin := 0 |} |}.

Definition nilInputRuntimeSpec : InputRuntimeSpec :=
  {| BinaryName := ""; BinaryPath := "";
     Spec := {| Name := ""; Service := None |} |}.

Definition derefInputSpec (c : Component) : InputRuntimeSpec :=
  match InputSpec c with
  | Some i => i
  | None => nilInputRuntimeSpec
  end.

Definition derefService (c : Component) : ServiceSpec :=
  match Service (Spec (derefInputSpec c)) with
  | Some svc => svc
  | None => nilServiceSpec
  end.

(** The three checks of [newServiceRuntime]. *)
Definition validComponent (c : Component) : bool :=
  match ShipperSpec c, InputSpec c with
  | None, Some i =>
      match Service (Spec i) with
      | Some _ => true
      | None => false
      end
  | _, _ => false
  end.

(** ** ComponentState

    [state.go] is not among the sources: the snapshot and its helpers follow
    section 4.1 of the specification.  The per-unit observed and expected
    maps are kept abstract (type [U]); the reconcile operations, which the
    specification describes only by what they return, are the fields of
    [StateOps]. *)

Record ComponentState (U : Type) : Type := {
  State : UnitState;
  Message : string;
  ExpectedState : UnitState;
  Units : U
}.

Arguments State {U} _.
Arguments Message {U} _.
Arguments ExpectedState {U} _.
Arguments Units {U} _.

(** Modelled from the spec: the operations of [ComponentState] that
    [service.go] calls and whose bodies are in [state.go], together with the
    constant [stateUnknownMessage].  Each mutator returns the new snapshot
    and its [changed] flag. *)
Class StateOps (U CheckinObs CheckinExp : Type) : Type := {
  newComponentState : Component -> ComponentState U;
  clearUnits : UnitState -> string -> U -> U * bool;
  syncExpected : Component -> ComponentState U -> ComponentState U * bool;
  syncUnits : Component -> ComponentState U -> ComponentState U * bool;
  syncCheckin : CheckinObs -> ComponentState U -> ComponentState U * bool;
  unsettled : ComponentState U -> bool;
  cleanupStopped : ComponentState U -> ComponentState U * bool;
  toCheckinExpected : ComponentState U -> CheckinExp;
  stateUnknownMessage : string
}.

(** Modelled from the spec: section 3, invariant 3, as a law on the
    abstract operations: the reconcile operations do not write [State]. *)
Class StateOpsFrame {U CheckinObs CheckinExp : Type}
      (ops : StateOps U CheckinObs CheckinExp) : Prop := {
  syncExpected_State :
    forall c cs, State (fst (syncExpected c cs)) = State cs;
  syncUnits_State :
    forall c cs, State (fst (syncUnits c cs)) = State cs;
  syncCheckin_State :
    forall k cs, State (fst (syncCheckin k cs)) = State cs;
  cleanupStopped_State :
    forall cs, State (fst (cleanupStopped cs)) = State cs
}.

(** Modelled from the spec: the constant [maxCheckinMisses], declared
    outside [service.go] (recommended value, and the one of scenario S4). *)
Definition maxCheckinMisses : Z := 3.

Section ComponentStateMethods.

Context {U : Type}.

(** Modelled from the spec: [compState(state, msg) -> changed] of
    [ComponentState] sets [State] and [Message] only if either differs and
    returns whether it did.  ([compState] below is the method of
    [serviceRuntime] of the same name.) *)
Definition state_compState (st : UnitState) (msg : string)
    (cs : ComponentState U) : ComponentState U * bool :=
  if negb (UnitState_eqb (State cs) st) || negb (String.eqb (Message cs) msg)
  then ({| State := st; Message := msg;
           ExpectedState := ExpectedState cs; Units := Units cs |}, true)
  else (cs, false).

(** Modelled from the spec: [forceExpectedState(state)] sets
    [ExpectedState] unconditionally. *)
Definition forceExpectedState (st : UnitState)
    (cs : ComponentState U) : ComponentState U :=
  {| State := State cs; Message := Message cs;
     ExpectedState := st; Units := Units cs |}.

(** Modelled from the spec: [Copy()], the snapshot that is broadcast.  A
    value is immutable here, so the copy is the value. *)
Definition Copy (cs : ComponentState U) : ComponentState U := cs.

Context {CheckinObs CheckinExp : Type} {ops : StateOps U CheckinObs CheckinExp}.

(** Modelled from the spec: [forceState(state, msg) -> changed] is
    [compState] that additionally clears the transient per-unit progress. *)
Definition forceState (st : UnitState) (msg : string)
    (cs : ComponentState U) : ComponentState U * bool :=
  let '(cs1, changed) := state_compState st msg cs in
  let '(u, cleared) := clearUnits st msg (Units cs1) in
  ({| State := State cs1; Message := Message cs1;
      ExpectedState := ExpectedState cs1; Units := u |},
   changed || cleared).

End ComponentStateMethods.

(** ** The supervisor: state, events, oracle *)

Definition defaultCheckServiceStatusInterval : Duration := 30 * Second.

(** The connection info server is known by the port it listens on. *)
Record connInfoServer : Type := {
  port : Z
}.

(** What [select] chose in one iteration of the loop of [Run]. *)
Inductive source (CheckinObs : Type) : Type :=
| ctxDone
| recvAction
| recvComp
| recvCheckin (checkin : CheckinObs)
| timerFired.

Arguments ctxDone {CheckinObs}.
Arguments recvAction {CheckinObs}.
Arguments recvComp {CheckinObs}.
Arguments recvCheckin {CheckinObs} _.
Arguments timerFired {CheckinObs}.

(** What the collaborators answer during one iteration: the clock, the
    listener of [newConnInfoServer] ([None] is success),
    [executeServiceCommandImpl], the [select] of [awaitCheckin] ([true] when
    a check-in is observed before the timer and the context) and
    [ctx.Err()]. *)
Record oracle : Type := {
  now : Time;
  newConnInfoServer : Z -> option error;
  executeServiceCommandImpl :
    string -> ServiceOperationsCommandSpec -> bool -> option error;
  checkinObservedWithin : Duration -> bool;
  ctxErr : error
}.

Section Supervisor.

Context {U CheckinObs CheckinExp : Type} {ops : StateOps U CheckinObs CheckinExp}.

(** The calls the supervisor makes, in the order it makes them. *)
Inductive event : Type :=
| EvNewTimer (d : Duration)
| EvTimerStop
| EvTimerReset (d : Duration)
| EvNewConnInfoServer (cport : Z) (res : option error)
| EvCisStop (cport : Z)
| EvExecute (binaryPath : string) (spec : ServiceOperationsCommandSpec)
            (shouldRetry : bool) (res : option error)
| EvAwaitCheckin (timeout : Duration) (res : bool)
| EvCheckinExpected (expected : CheckinExp) (observed : option CheckinObs)
| EvCompState (st : UnitState) (msg : string) (changed : bool)
| EvForceState (st : UnitState) (msg : string) (changed : bool)
| EvForceExpectedState (st : UnitState)
| EvObserved (snapshot : ComponentState U).

(** [serviceRuntime]: [ch] is unbuffered, a send on it is [EvObserved];
    [actionCh] and [compCh] have capacity 1, the buffer is an [option];
    the logger and [statusCh] carry nothing the loop decides on. *)
Record serviceRuntime : Type := {
  comp : Component;
  actionCh : option actionMode;
  compCh : option Component;
  state : ComponentState U
}.

(** The variables of the frame of [Run]. *)
Record locals : Type := {
  cis : option connInfoServer;
  lastCheckin : Time;
  missedCheckins : Z;
  checkinTimer : option Duration
}.

Definition withState (s : serviceRuntime) (cs : ComponentState U)
    : serviceRuntime :=
  {| comp := comp s; actionCh := actionCh s; compCh := compCh s;
     state := cs |}.

Definition withActionCh (a : option actionMode) (s : serviceRuntime)
    : serviceRuntime :=
  {| comp := comp s; actionCh := a; compCh := compCh s; state := state s |}.

Definition withCompCh (c : option Component) (s : serviceRuntime)
    : serviceRuntime :=
  {| comp := comp s; actionCh := actionCh s; compCh := c; state := state s |}.

(** *** A state and log monad for the methods of [*serviceRuntime] *)

Definition M (A : Type) : Type :=
  serviceRuntime -> A * serviceRuntime * list event.

Definition ret {A : Type} (a : A) : M A := fun s => (a, s, []).

Definition bind {A B : Type} (m : M A) (f : A -> M B) : M B :=
  fun s =>
    let '(a, s1, l1) := m s in
    let '(b, s2, l2) := f a s1 in
    (b, s2, l1 ++ l2).

Definition gets {A : Type} (f : serviceRuntime -> A) : M A :=
  fun s => (f s, s, []).

Definition emit (e : event) : M unit := fun s => (tt, s, [e]).

(** Apply a mutator of [ComponentState] to [s.state]. *)
Definition onState {A : Type}
    (f : ComponentState U -> ComponentState U * A) (ev : A -> list event)
    : M A :=
  fun s => let '(cs, a) := f (state s) in (a, withState s cs, ev a).

Notation "x <- m ;; k" := (bind m (fun x => k))
  (at level 61, m at next level, right associativity).
Notation "m ;;; k" := (bind m (fun _ => k))
  (at level 61, right associativity).

Definition when (b : bool) (m : M unit) : M unit :=
  if b then m else ret tt.

(** *** Accessors *)

Definition name (s : serviceRuntime) : string :=
  Name (Spec (derefInputSpec (comp s))).

Definition checkinPeriod (s : serviceRuntime) : Duration :=
  let checkinPeriod := Checkin (Timeouts (derefService (comp s))) in
  if checkinPeriod =? 0 then defaultCheckServiceStatusInterval
  else checkinPeriod.

Definition isRunning (s : serviceRuntime) : bool :=
  negb (UnitState_eqb (State (state s)) UnitStateStopping) &&
  negb (UnitState_eqb (State (state s)) UnitStateStopped).

(** *** newServiceRuntime *)

Definition newServiceRuntime (c : Component) : error + serviceRuntime :=
  match ShipperSpec c with
  | Some _ =>
      inl (errorsNew
             "service runtime not supported for a shipper specification")
  | None =>
      match InputSpec c with
      | None =>
          inl (errorsNew
                 "service runtime requires an input specification to be defined")
      | Some i =>
          match Service (Spec i) with
          | None => inl (errorsNew "must have service defined in specification")
          | Some _ =>
              let s := {| comp := c; actionCh := None; compCh := None;
                          state := newComponentState c |} in
              inr (withState s
                     (fst (state_compState UnitStateStopped
                             ("Stopped: " +++ name s +++ " service")
                             (state s))))
          end
      end
  end.

(** *** State changes and observations *)

Definition sendObserved : M unit :=
  fun s => (tt, s, [EvObserved (Copy (state s))]).

Definition forceCompState (st : UnitState) (msg : string) : M unit :=
  changed <- onState (forceState st msg)
                     (fun c => [EvForceState st msg c]) ;;
  when changed sendObserved.

Definition compState (st : UnitState) (missedCheckins : Z) : M unit :=
  name <- gets name ;;
  let msg :=
    if UnitState_eqb st UnitStateHealthy then
      "Healthy: communicating with " +++ name +++ " service"
    else if UnitState_eqb st UnitStateDegraded then
      if missedCheckins =? 1 then
        "Degraded: " +++ name +++ " service missed 1 check-in"
      else
        "Degraded: " +++ name +++ " missed " +++ itoa missedCheckins
          +++ " check-ins"
    else stateUnknownMessage in
  changed <- onState (state_compState st msg)
                     (fun c => [EvCompState st msg c]) ;;
  when changed sendObserved.

(** *** Service operations *)

Section Iteration.

Variable w : oracle.

Definition execute (binaryPath : string)
    (spec : ServiceOperationsCommandSpec) (shouldRetry : bool)
    : M (option error) :=
  fun s =>
    let res := executeServiceCommandImpl w binaryPath spec shouldRetry in
    (res, s, [EvExecute binaryPath spec shouldRetry res]).

Definition check : M (option error) :=
  c <- gets comp ;;
  match Check (Operations (derefService c)) with
  | None => ret (Some ErrOperationSpecUndefined)
  | Some spec => execute (BinaryPath (derefInputSpec c)) spec false
  end.

Definition install : M (option error) :=
  c <- gets comp ;;
  match Install (Operations (derefService c)) with
  | None => ret (Some ErrOperationSpecUndefined)
  | Some spec => execute (BinaryPath (derefInputSpec c)) spec true
  end.

Definition uninstallService (c : Component) : M (option error) :=
  match Uninstall (Operations (derefService c)) with
  | None => ret (Some ErrOperationSpecUndefined)
  | Some spec => execute (BinaryPath (derefInputSpec c)) spec true
  end.

Definition uninstall : M (option error) :=
  c <- gets comp ;;
  uninstallService c.

(** *** start, stop *)

Definition start : M (option error) :=
  name <- gets name ;;
  forceCompState UnitStateStarting
    ("Starting: " +++ name +++ " service runtime") ;;;
  err <- check ;;
  match err with
  | Some _ =>
      err <- install ;;
      match err with
      | Some e =>
          ret (Some (Errorf_w ("failed install " +++ name +++ " service: ") e))
      | None => ret None
      end
  | None => ret None
  end.

Definition awaitCheckin (timeout : Duration) : M bool :=
  fun s =>
    let res := checkinObservedWithin w timeout in
    (res, s, [EvAwaitCheckin timeout res]).

Definition stop (lastCheckin : Time) (teardown : bool) : M unit :=
  name <- gets name ;;
  let checkedIn := negb (IsZero lastCheckin) in
  when teardown
    (running <- gets isRunning ;;
     when running
       (checkedIn <-
          (if negb checkedIn then
             timeout <- gets checkinPeriod ;;
             awaitCheckin timeout
           else ret checkedIn) ;;
        when checkedIn
          (onState (fun cs => (forceExpectedState UnitStateStopping cs, tt))
                   (fun _ => [EvForceExpectedState UnitStateStopping]) ;;;
           expected <- gets (fun s => toCheckinExpected (state s)) ;;
           emit (EvCheckinExpected expected None))) ;;;
     err <- uninstall ;;
     ret tt) ;;;
  forceCompState UnitStateStopped
    ("Stopped: " +++ name +++ " service runtime").

(** *** Updates, check-ins, the watchdog *)

Definition processNewComp (newComp : Component) : M unit :=
  sendExpected <- onState (syncExpected newComp) (fun _ => []) ;;
  changed <- onState (syncUnits newComp) (fun _ => []) ;;
  unsettled <- gets (fun s => unsettled (state s)) ;;
  when (sendExpected || unsettled)
    (expected <- gets (fun s => toCheckinExpected (state s)) ;;
     emit (EvCheckinExpected expected None)) ;;;
  when changed sendObserved.

(** The direct assignment to [s.state.State] and [s.state.Message]. *)
Definition assignState (st : UnitState) (msg : string) : M unit :=
  fun s =>
    (tt,
     withState s {| State := st; Message := msg;
                    ExpectedState := ExpectedState (state s);
                    Units := Units (state s) |},
     []).

(** Returns the new value of [*lastCheckin]. *)
Definition processCheckin (checkin : CheckinObs) (lastCheckin : Time)
    : M Time :=
  name <- gets name ;;
  starting <-
    gets (fun s => UnitState_eqb (State (state s)) UnitStateStarting) ;;
  changed <-
    (if starting then
       assignState UnitStateHealthy
         ("Healthy: communicating with " +++ name +++ " service") ;;;
       ret true
     else ret false) ;;
  running <- gets isRunning ;;
  if negb running then ret lastCheckin
  else
    let sendExpected := IsZero lastCheckin in
    let lastCheckin := now w in
    synced <- onState (syncCheckin checkin) (fun _ => []) ;;
    let changed := if synced then true else changed in
    unsettled <- gets (fun s => unsettled (state s)) ;;
    let sendExpected := if unsettled then true else sendExpected in
    when sendExpected
      (expected <- gets (fun s => toCheckinExpected (state s)) ;;
       emit (EvCheckinExpected expected (Some checkin))) ;;;
    when changed sendObserved ;;;
    cleaned <- onState cleanupStopped (fun _ => []) ;;
    when cleaned sendObserved ;;;
    ret lastCheckin.

(** Returns the new value of [*missedCheckins]. *)
Definition checkStatus (checkinPeriod : Duration) (lastCheckin : Time)
    (missedCheckins : Z) : M Z :=
  running <- gets isRunning ;;
  if running then
    let now := now w in
    let missedCheckins :=
      if IsZero lastCheckin then wrap64 (missedCheckins + 1)
      else if Sub now lastCheckin >? checkinPeriod then
        wrap64 (missedCheckins + 1)
      else if Sub now lastCheckin <=? checkinPeriod then 0
      else missedCheckins in
    (if missedCheckins =? 0 then
       compState UnitStateHealthy missedCheckins
     else if (missedCheckins >? 0) && (missedCheckins <? maxCheckinMisses)
     then compState UnitStateDegraded missedCheckins
     else if missedCheckins >=? maxCheckinMisses then
       name <- gets name ;;
       forceCompState UnitStateFailed
         ("Failed: " +++ name +++ " service missed "
            +++ itoa maxCheckinMisses +++ " check-ins")
     else ret tt) ;;;
    ret missedCheckins
  else ret missedCheckins.

(** *** Run *)

Definition setCis (c : option connInfoServer) (l : locals) : locals :=
  {| cis := c; lastCheckin := lastCheckin l;
     missedCheckins := missedCheckins l; checkinTimer := checkinTimer l |}.

Definition setLastCheckin (t : Time) (l : locals) : locals :=
  {| cis := cis l; lastCheckin := t;
     missedCheckins := missedCheckins l; checkinTimer := checkinTimer l |}.

Definition setMissedCheckins (n : Z) (l : locals) : locals :=
  {| cis := cis l; lastCheckin := lastCheckin l;
     missedCheckins := n; checkinTimer := checkinTimer l |}.

Definition setCheckinTimer (t : option Duration) (l : locals) : locals :=
  {| cis := cis l; lastCheckin := lastCheckin l;
     missedCheckins := missedCheckins l; checkinTimer := t |}.

(** [checkinTimer.Stop()] and [checkinTimer.Reset(d)]. *)
Definition timerStop (l : locals) : locals * list event :=
  (setCheckinTimer None l, [EvTimerStop]).

Definition timerReset (d : Duration) (l : locals) : locals * list event :=
  (setCheckinTimer (Some d) l, [EvTimerReset d]).

(** The closure [cisStop]. *)
Definition cisStop (l : locals) : locals * list event :=
  match cis l with
  | Some c => (setCis None l, [EvCisStop (port c)])
  | None => (l, [])
  end.

(** The statements of [Run] before the loop. *)
Definition Run_enter (s : serviceRuntime) : locals * list event :=
  ({| cis := None; lastCheckin := zeroTime; missedCheckins := 0;
      checkinTimer := None |},
   [EvNewTimer (checkinPeriod s); EvTimerStop]).

(** [case actionStart]; the error is the [err] of the loop body when the
    [switch] is left.  [newConnInfoServer] that fails returns no server. *)
Definition caseActionStart (s : serviceRuntime) (l : locals)
    : serviceRuntime * locals * list event * option error :=
  let l := setLastCheckin zeroTime l in
  let l := setMissedCheckins 0 l in
  let '(l, e1) := timerStop l in
  let '(l, e2) := cisStop l in
  let '(l, e3, err) :=
    match cis l with
    | None =>
        let cport := CPort (derefService (comp s)) in
        let res := newConnInfoServer w cport in
        match res with
        | Some e =>
            (l, [EvNewConnInfoServer cport res],
             Some (Errorf_w ("failed to start connection info service "
                               +++ name s +++ ": ") e))
        | None =>
            (setCis (Some {| port := cport |}) l,
             [EvNewConnInfoServer cport res], None)
        end
    | Some _ => (l, [], None)
    end in
  match err with
  | Some _ => (s, l, e1 ++ e2 ++ e3, err)
  | None =>
      let '(err, s, e4) := start s in
      match err with
      | Some _ =>
          let '(l, e5) := cisStop l in
          (s, l, e1 ++ e2 ++ e3 ++ e4 ++ e5, err)
      | None =>
          let '(l, e6) := timerReset (checkinPeriod s) l in
          (s, l, e1 ++ e2 ++ e3 ++ e4 ++ e6, None)
      end
  end.

(** [case actionStop, actionTeardown]. *)
Definition caseActionStop (as_ : actionMode) (s : serviceRuntime) (l : locals)
    : serviceRuntime * locals * list event * option error :=
  let '(l, e1) := timerStop l in
  let '(l, e2) := cisStop l in
  let teardown := match as_ with actionTeardown => true | _ => false end in
  let '(_, s, e3) := stop (lastCheckin l) teardown s in
  (s, l, e1 ++ e2 ++ e3, None).

(** [case as := <-s.actionCh], with the test of [err] that follows the
    [switch]. *)
Definition caseAction (as_ : actionMode) (s : serviceRuntime) (l : locals)
    : serviceRuntime * locals * list event :=
  let '(s, l, e1, err) :=
    match as_ with
    | actionStart => caseActionStart s l
    | actionStop | actionTeardown => caseActionStop as_ s l
    end in
  match err with
  | Some e =>
      let '(_, s, e2) := forceCompState UnitStateFailed (Error e) s in
      (s, l, e1 ++ e2)
  | None => (s, l, e1)
  end.

(** One iteration of the loop of [Run] when [select] takes [src].  [None]
    when [src] is not ready: nothing buffered in the channel, or the timer
    not armed (a tick that a stopped timer left in its channel is not a
    step of this function: see [Run_tick]).  The last component is the
    value [Run] returns, if it does; the deferred [cisStop()] and
    [checkinTimer.Stop()] run then. *)
Definition Run_iteration (src : source CheckinObs) (s : serviceRuntime)
    (l : locals)
    : option (serviceRuntime * locals * list event * option error) :=
  match src with
  | ctxDone =>
      let '(l, e1) := cisStop l in
      let '(l, e2) := timerStop l in
      Some (s, l, e1 ++ e2, Some (ctxErr w))
  | recvAction =>
      match actionCh s with
      | None => None
      | Some as_ =>
          let s := withActionCh None s in
          let '(s, l, e) := caseAction as_ s l in
          Some (s, l, e, None)
      end
  | recvComp =>
      match compCh s with
      | None => None
      | Some newComp =>
          let s := withCompCh None s in
          let '(_, s, e) := processNewComp newComp s in
          Some (s, l, e, None)
      end
  | recvCheckin checkin =>
      let '(t, s, e) := processCheckin checkin (lastCheckin l) s in
      Some (s, setLastCheckin t l, e, None)
  | timerFired =>
      match checkinTimer l with
      | None => None
      | Some _ =>
          let '(n, s, e1) :=
            checkStatus (checkinPeriod s) (lastCheckin l)
                        (missedCheckins l) s in
          let l := setMissedCheckins n l in
          let '(l, e2) := timerReset (checkinPeriod s) l in
          Some (s, l, e1 ++ e2, None)
      end
  end.

End Iteration.

(** *** The control surface

    A channel of capacity 1 is its buffer.  [recvOrDefault] is
    [select { case <-ch: default: }]; [chanSend] is [ch <- v], which blocks
    ([None]) while the buffer is full. *)

Definition recvOrDefault {A : Type} (ch : option A) : option A :=
  match ch with
  | Some _ => None
  | None => None
  end.

Definition chanSend {A : Type} (ch : option A) (v : A) : option (option A) :=
  match ch with
  | None => Some (Some v)
  | Some _ => None
  end.

Definition enqueueAction (as_ : actionMode) (s : serviceRuntime)
    : option (option error * serviceRuntime) :=
  match chanSend (recvOrDefault (actionCh s)) as_ with
  | Some ch => Some (None, withActionCh ch s)
  | None => None
  end.

(** [Start], [Stop] and [Teardown] have one body, up to the value sent.
    The result is [None] when the call blocks, and otherwise the returned
    error with the supervisor after the call.  These are the calls as one
    caller runs them, the [select] directly followed by the send; the
    statements taken one at a time are [stepAction] and [stepUpdate]
    below. *)
Definition Start (s : serviceRuntime) : option (option error * serviceRuntime) :=
  enqueueAction actionStart s.

Definition Stop (s : serviceRuntime) : option (option error * serviceRuntime) :=
  enqueueAction actionStop s.

Definition Teardown (s : serviceRuntime)
    : option (option error * serviceRuntime) :=
  enqueueAction actionTeardown s.

Definition Update (c : Component) (s : serviceRuntime)
    : option (option error * serviceRuntime) :=
  match chanSend (recvOrDefault (compCh s)) c with
  | Some ch => Some (None, withCompCh ch s)
  | None => None
  end.

(** *** Calls that overlap

    The functions above are calls whose two statements run with nothing
    in between.  No lock makes them one step: another goroutine can run
    between the [select] and the send.  A caller is at its [select], at
    its send, or has returned, and moves one statement at a time; [None]
    is a caller that cannot move: it has returned, or its send finds the
    buffer full and blocks until the loop receives. *)
Inductive pc : Type :=
| atSelect
| atSend
| atReturn.

Definition stepChan {A : Type} (v : A) (p : pc) (ch : option A)
    : option (pc * option A) :=
  match p with
  | atSelect => Some (atSend, recvOrDefault ch)
  | atSend =>
      match chanSend ch v with
      | Some ch => Some (atReturn, ch)
      | None => None
      end
  | atReturn => None
  end.

(** A statement of [Start], [Stop] or [Teardown], by the action it
    sends, and a statement of [Update]. *)
Definition stepAction (as_ : actionMode) (p : pc) (s : serviceRuntime)
    : option (pc * serviceRuntime) :=
  match stepChan as_ p (actionCh s) with
  | Some (p, ch) => Some (p, withActionCh ch s)
  | None => None
  end.

Definition stepUpdate (c : Component) (p : pc) (s : serviceRuntime)
    : option (pc * serviceRuntime) :=
  match stepChan c p (compCh s) with
  | Some (p, ch) => Some (p, withCompCh ch s)
  | None => None
  end.

End Supervisor.

(** ** A concrete supervisor: the endpoint service

    The component is the [endpoint] input of the specification file shipped
    with the sources (linux, [cport] 6788, no check-in timeout declared); the
    instance of [StateOps] is a component that tracks no unit. *)

#[export] Instance noUnits : StateOps unit unit UnitState := {|
  newComponentState := fun _ =>
    {| State := UnitStateStarting; Message := "Starting";
       ExpectedState := UnitStateHealthy; Units := tt |};
  clearUnits := fun _ _ u => (u, false);
  syncExpected := fun _ cs => (cs, false);
  syncUnits := fun _ cs => (cs, false);
  syncCheckin := fun _ cs => (cs, false);
  unsettled := fun _ => false;
  cleanupStopped := fun cs => (cs, false);
  toCheckinExpected := fun cs => ExpectedState cs;
  stateUnknownMessage := "Unknown"
|}.

Definition endpointOperations : ServiceOperationsSpec :=
  {| Check := Some {| Args := ["verify"; "--log"; "stderr"]%string;
                      Timeout := 30 * Second |};
     Install := Some {| Args := ["install"; "--log"; "stderr"; "--upgrade";
                                 "--resources";
                                 "endpoint-security-resources.zip"]%string;
                        Timeout := 600 * Second |};
     Uninstall := Some {| Args := ["uninstall"; "--log"; "stderr"]%string;
                          Timeout := 600 * Second |} |}.

Definition endpointService : ServiceSpec :=
  {| CPort := 6788;
     Operations := endpointOperations;
     Timeouts := {| Checkin := 0 |} |}.

Definition endpoint : Component :=
  {| ShipperSpec := None;
     InputSpec := Some {| BinaryName := "endpoint-security";
                          BinaryPath := "/opt/Elastic/Endpoint/endpoint-security";
                          Spec := {| Name := "endpoint";
                                     Service := Some endpointService |} |} |}.

(** The endpoint supervisor in a given state, with empty channels. *)
Definition endpointIn (st : UnitState) (msg : string) : @serviceRuntime unit :=
  {| comp := endpoint; actionCh := None; compCh := None;
     state := {| State := st; Message := msg;
                 ExpectedState := UnitStateHealthy; Units := tt |} |}.

(** An oracle where every collaborator succeeds, and one where every
    service command fails. *)
Definition calm (t : Time) : oracle :=
  {| now := t;
     newConnInfoServer := fun _ => None;
     executeServiceCommandImpl := fun _ _ _ => None;
     checkinObservedWithin := fun _ => false;
     ctxErr := errorsNew "context canceled" |}.

Definition failing (t : Time) : oracle :=
  {| now := t;
     newConnInfoServer := fun _ => None;
     executeServiceCommandImpl := fun _ _ _ => Some (errorsNew "exit status 1");
     checkinObservedWithin := fun _ => false;
     ctxErr := errorsNew "context canceled" |}.

(** The frame of [Run] once the endpoint was started and nothing checked in. *)
Definition startedLocals : locals :=
  {| cis := Some {| port := 6788 |}; lastCheckin := zeroTime;
     missedCheckins := 0; checkinTimer := Some defaultCheckServiceStatusInterval |}.

(** [k] watchdog ticks in a row, the oracle of tick [i] being [ws i]. *)
Fixpoint ticks {U CheckinObs CheckinExp : Type}
    {ops : StateOps U CheckinObs CheckinExp}
    (ws : nat -> oracle) (k : nat) (s : serviceRuntime) (l : locals)
    : option (serviceRuntime * locals) :=
  match k with
  | O => Some (s, l)
  | S k' =>
      match ticks ws k' s l with
      | Some (s1, l1) =>
          match Run_iteration (ops := ops) (ws k') timerFired s1 l1 with
          | Some (s2, l2, _, _) => Some (s2, l2)
          | None => None
          end
      | None => None
      end
  end.

(** The snapshots sent on the watch channel, in the order of the log. *)
Fixpoint observations {U CheckinObs CheckinExp : Type}
    (log : list (@event U CheckinObs CheckinExp)) : list (ComponentState U) :=
  match log with
  | [] => []
  | EvObserved snapshot :: log' => snapshot :: observations log'
  | _ :: log' => observations log'
  end.

(** What a call of [forceCompState st msg] in snapshot [cs] logs: the call
    of [forceState] and, when it reports a change, the observation. *)
Definition forced {U CheckinObs CheckinExp : Type}
    {ops : StateOps U CheckinObs CheckinExp}
    (st : UnitState) (msg : string) (cs : ComponentState U)
    : list (@event U CheckinObs CheckinExp) :=
  EvForceState st msg (snd (forceState st msg cs))
    :: (if snd (forceState st msg cs)
        then [EvObserved (fst (forceState st msg cs))] else []).

(** The same for the call of [compState] of [ComponentState]. *)
Definition comped {U CheckinObs CheckinExp : Type}
    (st : UnitState) (msg : string) (cs : ComponentState U)
    : list (@event U CheckinObs CheckinExp) :=
  EvCompState st msg (snd (state_compState st msg cs))
    :: (if snd (state_compState st msg cs)
        then [EvObserved (fst (state_compState st msg cs))] else []).

(** The snapshot [processCheckin] merges the check-in into: the one of
    [s], made [Healthy] by the direct assignment when it is [Starting]. *)
Definition afterFirstCheckin {U : Type} (s : @serviceRuntime U)
    : ComponentState U :=
  if UnitState_eqb (State (state s)) UnitStateStarting
  then {| State := UnitStateHealthy;
          Message := "Healthy: communicating with " +++ name s +++ " service";
          ExpectedState := ExpectedState (state s);
          Units := Units (state s) |}
  else state s.

(** What [executeServiceCommandImpl] answers for an operation of the
    component, and the call it is asked with. *)
Definition executed {U CheckinObs CheckinExp : Type}
    (w : oracle) (c : Component) (spec : ServiceOperationsCommandSpec)
    (shouldRetry : bool) : @event U CheckinObs CheckinExp :=
  EvExecute (BinaryPath (derefInputSpec c)) spec shouldRetry
    (executeServiceCommandImpl w (BinaryPath (derefInputSpec c)) spec
       shouldRetry).

(** Several iterations in a row, each with its oracle and the source that
    [select] takes; the logs are concatenated.  Stops when [Run] returns. *)
Fixpoint Run_steps {U CheckinObs CheckinExp : Type}
    {ops : StateOps U CheckinObs CheckinExp}
    (steps : list (oracle * source CheckinObs))
    (s : serviceRuntime) (l : locals)
    : option (serviceRuntime * locals * list (@event U CheckinObs CheckinExp)) :=
  match steps with
  | [] => Some (s, l, [])
  | (w, src) :: steps' =>
      match Run_iteration w src s l with
      | Some (s1, l1, e1, None) =>
          match Run_steps steps' s1 l1 with
          | Some (s2, l2, e2) => Some (s2, l2, e1 ++ e2)
          | None => None
          end
      | Some (s1, l1, e1, Some _) => Some (s1, l1, e1)
      | None => None
      end
  end.

(** The events of a log that are calls of a mutator of [State], and the
    ones that are observations. *)
Definition isMutatorCall {U CheckinObs CheckinExp : Type}
    (e : @event U CheckinObs CheckinExp) : bool :=
  match e with
  | EvCompState _ _ _ | EvForceState _ _ _ => true
  | _ => false
  end.

Definition isMutatorChange {U CheckinObs CheckinExp : Type}
    (e : @event U CheckinObs CheckinExp) : bool :=
  match e with
  | EvCompState _ _ changed | EvForceState _ _ changed => changed
  | _ => false
  end.

Definition isObserved {U CheckinObs CheckinExp : Type}
    (e : @event U CheckinObs CheckinExp) : bool :=
  match e with
  | EvObserved _ => true
  | _ => false
  end.

Definition isExecuteRetry {U CheckinObs CheckinExp : Type}
    (e : @event U CheckinObs CheckinExp) : bool :=
  match e with
  | EvExecute _ _ shouldRetry _ => shouldRetry
  | _ => false
  end.

(** In a log, a call of a mutator of [State] is directly followed by an
    observation exactly when it reported a change. *)
Fixpoint observedIffChanged {U CheckinObs CheckinExp : Type}
    (log : list (@event U CheckinObs CheckinExp)) : bool :=
  match log with
  | [] => true
  | e :: log' =>
      (if isMutatorCall e
       then Bool.eqb (isMutatorChange e)
                     (match log' with
                      | e' :: _ => isObserved e'
                      | [] => false
                      end)
       else true)
      && observedIffChanged log'
  end.

(** ** The start sequence, in the words of the specification

    Section 4.2 of the specification, item [Start], written as the outcome
    of one iteration: the supervisor, the frame of [Run], the log and the
    value [Run] returns.  It is compared with the loop in
    [Run_iteration_actionStart]. *)
Definition actionStart_spec {U CheckinObs CheckinExp : Type}
    {ops : StateOps U CheckinObs CheckinExp}
    (w : oracle) (s : serviceRuntime) (l : locals)
    : serviceRuntime * locals * list (@event U CheckinObs CheckinExp)
      * option error :=
  let cport := CPort (derefService (comp s)) in
  let path := BinaryPath (derefInputSpec (comp s)) in
  let specs := Operations (derefService (comp s)) in
  let period := checkinPeriod s in
  let starting := "Starting: " +++ name s +++ " service runtime" in
  let s0 := withActionCh None s in
  let s1 :=
    withState s0 (fst (forceState UnitStateStarting starting (state s))) in
  (* reset, stop the watchdog and the prior server, start a new server *)
  let reset :=
    EvTimerStop
      :: match cis l with Some c => [EvCisStop (port c)] | None => [] end
      ++ [EvNewConnInfoServer cport (newConnInfoServer w cport)] in
  (* check, single shot *)
  let checkErr :=
    match Check specs with
    | None => Some ErrOperationSpecUndefined
    | Some spec => executeServiceCommandImpl w path spec false
    end in
  let checkEv :=
    match Check specs with
    | None => []
    | Some spec =>
        [EvExecute path spec false (executeServiceCommandImpl w path spec false)]
    end in
  (* install, retried *)
  let installErr :=
    match Install specs with
    | None => Some ErrOperationSpecUndefined
    | Some spec => executeServiceCommandImpl w path spec true
    end in
  let installEv :=
    match Install specs with
    | None => []
    | Some spec =>
        [EvExecute path spec true (executeServiceCommandImpl w path spec true)]
    end in
  let stopped :=
    {| cis := None; lastCheckin := zeroTime; missedCheckins := 0;
       checkinTimer := None |} in
  let armed :=
    {| cis := Some {| port := cport |}; lastCheckin := zeroTime;
       missedCheckins := 0; checkinTimer := Some period |} in
  match newConnInfoServer w cport with
  | Some e =>
      (* the server cannot start: record Failed *)
      let msg := "failed to start connection info service " +++ name s
                   +++ ": " +++ Error e in
      (withState s0 (fst (forceState UnitStateFailed msg (state s))),
       stopped,
       reset ++ forced UnitStateFailed msg (state s), None)
  | None =>
      match checkErr with
      | None =>
          (* installed already: start the watchdog *)
          (s1, armed,
           reset ++ forced UnitStateStarting starting (state s) ++ checkEv
             ++ [EvTimerReset period], None)
      | Some _ =>
          match installErr with
          | None =>
              (s1, armed,
               reset ++ forced UnitStateStarting starting (state s)
                 ++ checkEv ++ installEv ++ [EvTimerReset period], None)
          | Some e =>
              (* install failed: stop the server, record Failed *)
              let msg := "failed install " +++ name s +++ " service: "
                           +++ Error e in
              (withState s1 (fst (forceState UnitStateFailed msg (state s1))),
               stopped,
               reset ++ forced UnitStateStarting starting (state s)
                 ++ checkEv ++ installEv ++ [EvCisStop cport]
                 ++ forced UnitStateFailed msg (state s1), None)
          end
      end
  end.

(** ** Who writes [State]

    What one iteration does to [State], and how its log pairs the calls of
    the mutators with observations: [State] differs after the iteration
    only if a mutator reported a change, or if a check-in found [Starting]
    and the direct assignment made it [Healthy] (no mutator is called, and
    the change is observed). *)
Definition stepWritesState {U CheckinObs CheckinExp : Type}
    (src : source CheckinObs) (s s' : @serviceRuntime U)
    (log : list (@event U CheckinObs CheckinExp)) : Prop :=
  (State (state s') <> State (state s) ->
   existsb isMutatorChange log = true \/
   ((exists checkin, src = recvCheckin checkin) /\
    State (state s) = UnitStateStarting /\
    State (state s') = UnitStateHealthy /\
    existsb isMutatorCall log = false /\
    existsb isObserved log = true)) /\
  observedIffChanged log = true.

(** ** Fixtures: the endpoint supervisor at some points of its life *)

(** As constructed, and after a successful start. *)
Definition endpointStopped : @serviceRuntime unit :=
  endpointIn UnitStateStopped "Stopped: endpoint service".

Definition endpointStarting : @serviceRuntime unit :=
  endpointIn UnitStateStarting "Starting: endpoint service runtime".

Definition endpointHealthy : @serviceRuntime unit :=
  endpointIn UnitStateHealthy "Healthy: communicating with endpoint service".

(** The frame of [Run] when the loop is entered. *)
Definition idleLocals : locals :=
  {| cis := None; lastCheckin := zeroTime; missedCheckins := 0;
     checkinTimer := None |}.

(** What a watcher sees of a run: state and message of each snapshot. *)
Definition watched {U CheckinObs CheckinExp : Type}
    (r : option (@serviceRuntime U * locals
                 * list (@event U CheckinObs CheckinExp)))
    : list (UnitState * string) :=
  match r with
  | Some (_, _, log) => map (fun cs => (State cs, Message cs)) (observations log)
  | None => []
  end.

(** The frame of a started endpoint that checked in at instant [t] and
    missed [n] check-ins since. *)
Definition checkedInLocals (t : Time) (n : Z) : locals :=
  {| cis := Some {| port := 6788 |}; lastCheckin := t;
     missedCheckins := n;
     checkinTimer := Some defaultCheckServiceStatusInterval |}.

(** The endpoint with no install operation declared, and its supervisor. *)
Definition endpointNoInstall : Component :=
  {| ShipperSpec := None;
     InputSpec :=
       Some {| BinaryName := "endpoint-security";
               BinaryPath := "/opt/Elastic/Endpoint/endpoint-security";
               Spec := {| Name := "endpoint";
                          Service :=
                            Some {| CPort := 6788;
                                    Operations :=
                                      {| Check := Check endpointOperations;
                                         Install := None;
                                         Uninstall :=
                                           Uninstall endpointOperations |};
                                    Timeouts := {| Checkin := 0 |} |} |} |} |}.

Definition endpointNoInstallStopped : @serviceRuntime unit :=
  {| comp := endpointNoInstall; actionCh := None; compCh := None;
     state := {| State := UnitStateStopped;
                 Message := "Stopped: endpoint service";
                 ExpectedState := UnitStateHealthy; Units := tt |} |}.

(** ** More readings of a log *)

Definition isAwaitCheckin {U CheckinObs CheckinExp : Type}
    (e : @event U CheckinObs CheckinExp) : bool :=
  match e with
  | EvAwaitCheckin _ _ => true
  | _ => false
  end.

Definition isCheckinExpected {U CheckinObs CheckinExp : Type}
    (e : @event U CheckinObs CheckinExp) : bool :=
  match e with
  | EvCheckinExpected _ _ => true
  | _ => false
  end.

Definition isExecute {U CheckinObs CheckinExp : Type}
    (e : @event U CheckinObs CheckinExp) : bool :=
  match e with
  | EvExecute _ _ _ _ => true
  | _ => false
  end.

(** ** The states a supervisor can be in *)

(** The body of [case <-checkinTimer.C]: [checkStatus] and then the timer
    re-armed.  [Run_iteration] takes the case while the timer is armed.
    [checkinTimer.Stop()] does not drain the channel: with a toolchain
    where the channel of a timer is buffered (Go before 1.23) a tick that
    fired before the timer was stopped is still received afterwards, and
    the loop runs this body on a timer that is not armed. *)
Definition Run_tick {U CheckinObs CheckinExp : Type}
    {ops : StateOps U CheckinObs CheckinExp}
    (w : oracle) (s : serviceRuntime) (l : locals)
    : serviceRuntime * locals * list (@event U CheckinObs CheckinExp) :=
  let '(n, s, e1) :=
    checkStatus w (checkinPeriod s) (lastCheckin l) (missedCheckins l) s in
  let l := setMissedCheckins n l in
  let '(l, e2) := timerReset (checkinPeriod s) l in
  (s, l, e1 ++ e2).

(** [Run] is entered on the supervisor constructed for a component [c];
    then the loop iterates, a tick left in the channel of the timer
    included, and in between the callers of the control surface run
    their statements, overlapping or not.  An iteration that makes [Run]
    return ends the run. *)
Inductive reachable {U CheckinObs CheckinExp : Type}
    {ops : StateOps U CheckinObs CheckinExp} (c : Component)
    : @serviceRuntime U -> locals -> Prop :=
| reach_Run (s : serviceRuntime) :
    newServiceRuntime c = inr s ->
    reachable c s (fst (@Run_enter U CheckinObs CheckinExp s))
| reach_action (s s' : serviceRuntime) (l : locals) (as_ : actionMode)
    (p p' : pc) :
    reachable c s l ->
    stepAction as_ p s = Some (p', s') ->
    reachable c s' l
| reach_update (s s' : serviceRuntime) (l : locals) (newComp : Component)
    (p p' : pc) :
    reachable c s l ->
    stepUpdate newComp p s = Some (p', s') ->
    reachable c s' l
| reach_iteration (w : oracle) (src : source CheckinObs)
    (s s' : serviceRuntime) (l l' : locals)
    (log : list (@event U CheckinObs CheckinExp)) :
    reachable c s l ->
    Run_iteration w src s l = Some (s', l', log, None) ->
    reachable c s' l'
| reach_tick (w : oracle) (s s' : serviceRuntime) (l l' : locals)
    (log : list (@event U CheckinObs CheckinExp)) :
    reachable c s l ->
    Run_tick w s l = (s', l', log) ->
    reachable c s' l'.

(** A connection info server is up only on the configured port, on a
    supervisor that counts as running and whose timer is armed; an armed
    timer is armed with [checkinPeriod()]. *)
Definition watchdogInvariant {U : Type} (s : @serviceRuntime U) (l : locals)
    : Prop :=
  (forall srv,
     cis l = Some srv ->
     port srv = CPort (derefService (comp s)) /\ isRunning s = true /\
     checkinTimer l = Some (checkinPeriod s)) /\
  (forall d, checkinTimer l = Some d -> d = checkinPeriod s).

(** * dev-tools/mage/gotest.go

    How the build tooling invokes [go test].  The functions of the Go
    standard library are written on bytes, which is what they do for the
    ASCII separators used here; what the process environment, the file
    system and the commands answer is read from [world], and the commands
    that are run are logged. *)

Module Mage.

Import Ascii.

(** ** package strings, package filepath *)

Definition inCutset (cutset : string) (c : ascii) : bool :=
  existsb (Ascii.eqb c) (list_ascii_of_string cutset).

Fixpoint TrimLeft (cutset s : string) : string :=
  match s with
  | EmptyString => EmptyString
  | String c s' => if inCutset cutset c then TrimLeft cutset s' else s
  end.

Fixpoint TrimRight (cutset s : string) : string :=
  match s with
  | EmptyString => EmptyString
  | String c s' =>
      match TrimRight cutset s' with
      | EmptyString =>
          if inCutset cutset c then EmptyString else String c EmptyString
      | r => String c r
      end
  end.

(** A string made of bytes of the cutset only. *)
Definition blank (cutset s : string) : bool :=
  forallb (inCutset cutset) (list_ascii_of_string s).

(** [strings.Trim(s, cutset)]. *)
Definition Trim (s cutset : string) : string :=
  TrimRight cutset (TrimLeft cutset s).

(** [strings.Split(s, sep)] for a separator of one byte. *)
Fixpoint Split (s : string) (sep : ascii) : list string :=
  match s with
  | EmptyString => [EmptyString]
  | String c s' =>
      if Ascii.eqb c sep then EmptyString :: Split s' sep
      else match Split s' sep with
           | h :: t => String c h :: t
           | [] => [String c EmptyString]
           end
  end.

(** [strings.Join(elems, sep)]. *)
Definition Join (elems : list string) (sep : string) : string :=
  String.concat sep elems.

(** [strings.Replace(s, old, new, -1)] for [old] and [new] of one byte. *)
Fixpoint Replace (s : string) (old new : ascii) : string :=
  match s with
  | EmptyString => EmptyString
  | String c s' =>
      String (if Ascii.eqb c old then new else c) (Replace s' old new)
  end.

(** [strings.HasSuffix] and [strings.TrimSuffix]. *)
Fixpoint HasSuffix (s suffix : string) : bool :=
  String.eqb s suffix ||
  match s with
  | EmptyString => false
  | String _ s' => HasSuffix s' suffix
  end.

Fixpoint TrimSuffix (s suffix : string) : string :=
  if String.eqb s suffix then EmptyString
  else match s with
       | EmptyString => EmptyString
       | String c s' =>
           if HasSuffix s' suffix then String c (TrimSuffix s' suffix) else s
       end.

(** [filepath.Ext(path)]: the suffix from the last dot of the last element
    of the path, empty when that element has no dot. *)
Fixpoint Ext (path : string) : string :=
  match path with
  | EmptyString => EmptyString
  | String c path' =>
      match Ext path' with
      | EmptyString =>
          if Ascii.eqb c "."%char
             && negb (existsb (Ascii.eqb "/"%char) (list_ascii_of_string path'))
          then path else EmptyString
      | e => e
      end
  end.

(** ** The arguments of a test run *)

Record GoTestArgs : Type := {
  LogName : string;
  RunExpr : string;
  Race : bool;
  Tags : list string;
  ExtraFlags : list string;
  Packages : list string;
  Env : list (string * string);
  OutputFile : string;
  JUnitReportFile : string;
  CoverageProfileFile : string;
  Output : bool
}.

Record TestBinaryArgs : Type := {
  Name : string;
  InputFiles : list string
}.

(** How [goTest.Run()] ends: the tests pass, the command exits with a
    non-zero status ([*exec.ExitError]), or it cannot be run. *)
Inductive runOutcome : Type :=
| runPassed
| runExitError (e : error)
| runNotExecuted (e : error).

(** An entry of a directory, as [GoTestIntegrationForModule] reads it. *)
Record FileInfo : Type := {
  fileName : string;
  IsDir : bool
}.

(** The process environment, the settings of the package declared outside
    [gotest.go] ([RaceDetector], [TestCoverage], [BeatName]), the helpers
    of the package whose source is elsewhere ([createDir], which returns
    the file it is given a parent directory for), the functions of the
    standard library that are not written out, and what the file system
    and the commands answer. *)
Record world : Type := {
  Getenv : string -> string;
  Verbose : bool;
  RaceDetector : bool;
  TestCoverage : bool;
  BeatName : string;
  ToLower : string -> string;
  Clean : string -> string;
  createDir : string -> string;
  osCreate : string -> option error;
  goTestRun : list string -> runOutcome;
  shRun : string -> list string -> option error;
  ReadFile : string -> option error;
  coberturaRun : option error;
  ReadDir : string -> error + list FileInfo;
  NewIntegrationRunners : string -> option error;
  runnersTest : string -> option error
}.

(** What a function of the file does to the outside: [mg.Deps], the
    creation of a parent directory, [os.Create], [makeCommand], the run of
    a command ([cmd.Run], [sh.RunCmd], [sh.RunV]), [ioutil.ReadFile],
    [NewIntegrationRunners] and [runners.Test] for a module. *)
Inductive action : Type :=
| Deps
| CreateDir (file : string)
| Create (file : string)
| MakeCommand (env : list (string * string)) (cmd : string)
              (args : list string)
| Run (cmd : string) (args : list string)
| Read (file : string)
| Runners (module : string)
| RunnersTest (module : string).

(** [errors.Wrap(err, msg)] of [github.com/pkg/errors]. *)
Definition Wrap (err : error) (msg : string) : error :=
  wrapError (msg +++ ": " +++ Error err) err.

Section Targets.

Variable w : world.

(** ** testTagsFromEnv, makeGoTestArgs and the default arguments *)

Definition testTagsFromEnv : list string :=
  Split (Trim (Getenv w "TEST_TAGS") ", ") ","%char.

Definition makeGoTestArgs (name : string) : GoTestArgs :=
  let fileName :=
    "build/TEST-go-" +++ Replace (ToLower w name) " "%char "_"%char in
  {| LogName := name;
     RunExpr := "";
     Race := RaceDetector w;
     Tags := testTagsFromEnv;
     ExtraFlags := [];
     Packages := ["./..."%string];
     Env := [];
     OutputFile := fileName +++ ".out";
     JUnitReportFile := fileName +++ ".xml";
     CoverageProfileFile :=
       if TestCoverage w then fileName +++ ".cov" else "";
     Output := false |}.

Definition makeGoTestArgsForModule (name module : string) : GoTestArgs :=
  let fileName :=
    "build/TEST-go-" +++ Replace (ToLower w name) " "%char "_"%char
      +++ "-" +++ Replace (ToLower w module) " "%char "_"%char in
  {| LogName := name +++ "-" +++ module;
     RunExpr := "";
     Race := RaceDetector w;
     Tags := testTagsFromEnv;
     ExtraFlags := [];
     Packages := ["./module/" +++ module +++ "/..."];
     Env := [];
     OutputFile := fileName +++ ".out";
     JUnitReportFile := fileName +++ ".xml";
     CoverageProfileFile :=
       if TestCoverage w then fileName +++ ".cov" else "";
     Output := false |}.

Definition withTags (tags : list string) (a : GoTestArgs) : GoTestArgs :=
  {| LogName := LogName a; RunExpr := RunExpr a; Race := Race a;
     Tags := tags; ExtraFlags := ExtraFlags a; Packages := Packages a;
     Env := Env a; OutputFile := OutputFile a;
     JUnitReportFile := JUnitReportFile a;
     CoverageProfileFile := CoverageProfileFile a; Output := Output a |}.

Definition DefaultGoTestUnitArgs : GoTestArgs := makeGoTestArgs "Unit".

Definition DefaultGoTestIntegrationArgs : GoTestArgs :=
  let args := makeGoTestArgs "Integration" in
  withTags (Tags args ++ ["integration"%string]) args.

Definition GoTestIntegrationArgsForModule (module : string) : GoTestArgs :=
  let args := makeGoTestArgsForModule "Integration" module in
  withTags (Tags args ++ ["integration"%string]) args.

Definition DefaultTestBinaryArgs : TestBinaryArgs :=
  {| Name := BeatName w; InputFiles := [] |}.

(** ** GoTest *)

(** The flags of [gotestsum]. *)
Definition gotestsumArgs (params : GoTestArgs) : list string :=
  ["--no-color"%string]
  ++ (if Verbose w then ["-f"; "standard-verbose"]%string
      else ["-f"; "standard-quiet"]%string)
  ++ (if negb (String.eqb (JUnitReportFile params) "")
      then ["--junitfile"%string; JUnitReportFile params] else [])
  ++ (if negb (String.eqb (OutputFile params) "")
      then ["--jsonfile"%string; OutputFile params +++ ".json"] else []).

(** [params.CoverageProfileFile] once [GoTest] has reassigned it. *)
Definition coverageProfile (params : GoTestArgs) : string :=
  if negb (String.eqb (CoverageProfileFile params) "")
  then createDir w (Clean w (CoverageProfileFile params))
  else CoverageProfileFile params.

(** The flags of [go test] that [GoTest] derives from [params], in the
    order it appends them: race detector, build tags, coverage, [-run]. *)
Definition raceFlag (params : GoTestArgs) : list string :=
  if String.eqb (Getenv w "DEV_ARCH") "amd64"
  then (if Race params then ["-race"%string] else [])
  else [].

Definition tagsFlag (params : GoTestArgs) : list string :=
  if (0 <? length (Tags params))%nat
  then (let joined := Join (Tags params) " " in
        if negb (String.eqb joined "") then ["-tags"%string; joined] else [])
  else [].

Definition coverFlags (params : GoTestArgs) : list string :=
  if negb (String.eqb (CoverageProfileFile params) "")
  then ["-covermode=atomic"%string;
        "-coverprofile=" +++ coverageProfile params]
  else [].

Definition runFlag (params : GoTestArgs) : list string :=
  if negb (String.eqb (RunExpr params) "")
  then ["-run"%string; RunExpr params] else [].

Definition testFlags (params : GoTestArgs) : list string :=
  raceFlag params ++ tagsFlag params ++ coverFlags params ++ runFlag params.

Definition testArgs (params : GoTestArgs) : list string :=
  testFlags params ++ ExtraFlags params ++ Packages params.

(** The command line handed to [makeCommand]. *)
Definition goTestCommandLine (params : GoTestArgs) : list string :=
  gotestsumArgs params ++ ("--"%string :: testArgs params).

(** The coverage reports, written once the tests passed. *)
Definition coverageReports (cov : string) : option error * list action :=
  let htmlCoverReport := TrimSuffix cov (Ext cov) +++ ".html" in
  let htmlArgs :=
    ["tool"; "cover"; "-html=" +++ cov; "-o"; htmlCoverReport]%string in
  match shRun w "go" htmlArgs with
  | Some err =>
      (Some (Wrap err "failed to write HTML code coverage report"),
       [Run "go" htmlArgs])
  | None =>
      let installArgs :=
        ["install"; "github.com/boumenot/gocover-cobertura@latest"]%string in
      match shRun w "go" installArgs with
      | Some err =>
          (Some (Wrap err "failed to install gocover-cobertura"),
           [Run "go" htmlArgs; Run "go" installArgs])
      | None =>
          let codecovReport := TrimSuffix cov (Ext cov) +++ "-cov.xml" in
          match ReadFile w cov with
          | Some err =>
              (Some (Wrap err "failed to read code coverage report"),
               [Run "go" htmlArgs; Run "go" installArgs; Read cov])
          | None =>
              match osCreate w codecovReport with
              | Some err =>
                  (Some err,
                   [Run "go" htmlArgs; Run "go" installArgs; Read cov;
                    Create codecovReport])
              | None =>
                  match coberturaRun w with
                  | Some err =>
                      (Some (Wrap err
                               "failed to write XML code coverage report"),
                       [Run "go" htmlArgs; Run "go" installArgs;
                        Read cov; Create codecovReport;
                        Run "gocover-cobertura" []])
                  | None =>
                      (None,
                       [Run "go" htmlArgs; Run "go" installArgs;
                        Read cov; Create codecovReport;
                        Run "gocover-cobertura" []])
                  end
              end
          end
      end
  end.

Definition GoTest (params : GoTestArgs) : option error * list action :=
  let junit := negb (String.eqb (JUnitReportFile params) "") in
  let out := negb (String.eqb (OutputFile params) "") in
  let cov := negb (String.eqb (CoverageProfileFile params) "") in
  let args := goTestCommandLine params in
  let prepared :=
    [Deps]
    ++ (if junit then [CreateDir (JUnitReportFile params)] else [])
    ++ (if out then [CreateDir (OutputFile params)] else [])
    ++ (if cov then [CreateDir (Clean w (CoverageProfileFile params))] else [])
    ++ [MakeCommand (Env params) "gotestsum" args] in
  let '(created, opened) :=
    if out then
      (osCreate w (createDir w (OutputFile params)),
       [CreateDir (OutputFile params);
        Create (createDir w (OutputFile params))])
    else (None, []) in
  match created with
  | Some err =>
      (Some (Wrap err "failed to create go test output file"),
       prepared ++ opened)
  | None =>
      let ran := prepared ++ opened ++ [Run "gotestsum" args] in
      match goTestRun w args with
      | runNotExecuted err => (Some (Wrap err "failed to execute go"), ran)
      | runExitError goTestErr =>
          (Some (Wrap goTestErr "go test returned a non-zero value"), ran)
      | runPassed =>
          if negb (String.eqb (coverageProfile params) "") then
            let '(err, reports) := coverageReports (coverageProfile params) in
            (err, ran ++ reports)
          else (None, ran)
      end
  end.

(** ** GoTestIntegrationForModule *)

(** The loop over the entries of [./module]: the modules that failed so
    far, whether the module asked for was found, and the error of a
    set-up, which ends the loop.  [NewIntegrationRunners] and
    [runners.Test] are asked by the name of the module;
    [EnvOr("MODULE", "")] is the value of the variable. *)
Fixpoint integrationLoop (module : string) (entries : list FileInfo)
    (foundModule : bool) (failedModules : list string)
    : (error + bool * list string) * list action :=
  match entries with
  | [] => (inr (foundModule, failedModules), [])
  | fi :: entries' =>
      if negb (IsDir fi) then
        integrationLoop module entries' foundModule failedModules
      else if negb (String.eqb module "")
              && negb (String.eqb module (fileName fi)) then
        integrationLoop module entries' foundModule failedModules
      else
        match NewIntegrationRunners w (fileName fi) with
        | Some err =>
            (inl (Wrap err ("test setup failed for module " +++ fileName fi)),
             [Runners (fileName fi)])
        | None =>
            let failedModules :=
              match runnersTest w (fileName fi) with
              | Some _ => failedModules ++ [fileName fi]
              | None => failedModules
              end in
            let '(r, log) :=
              integrationLoop module entries' true failedModules in
            (r, Runners (fileName fi) :: RunnersTest (fileName fi) :: log)
        end
  end.

(** The entries the loop does not skip: the directories, all of them or
    the one named by MODULE; their tests, as the loop logs them; and the
    ones among them whose tests fail. *)
Definition selected (module : string) (entries : list FileInfo)
    : list FileInfo :=
  filter (fun fi =>
            IsDir fi
            && (String.eqb module "" || String.eqb module (fileName fi)))
         entries.

Definition tested (entries : list FileInfo) : list action :=
  flat_map (fun fi => [Runners (fileName fi); RunnersTest (fileName fi)])
           entries.

Definition failedAmong (entries : list FileInfo) : list string :=
  map fileName
      (filter (fun fi =>
                 match runnersTest w (fileName fi) with
                 | Some _ => true
                 | None => false
                 end)
              entries).

Definition GoTestIntegrationForModule : option error * list action :=
  let module := Getenv w "MODULE" in
  match ReadDir w "./module" with
  | inl err => (Some err, [])
  | inr modulesFileInfo =>
      match integrationLoop module modulesFileInfo false [] with
      | (inl err, log) => (Some err, log)
      | (inr (foundModule, failedModules), log) =>
          if negb (String.eqb module "") && negb foundModule then
            (Some (errorsNew ("no module " +++ module)), log)
          else if (0 <? length failedModules)%nat then
            (Some (errorsNew ("failed modules: " +++ Join failedModules ", ")),
             log)
          else (None, log)
      end
  end.

(** ** BuildSystemTestGoBinary *)

Definition BuildSystemTestGoBinary (binArgs : TestBinaryArgs)
    : option error * list action :=
  let args :=
    ["test"; "-c"; "-o"; Name binArgs +++ ".test"]%string
    ++ (if TestCoverage w then ["-coverpkg"; "./..."]%string else [])
    ++ (if (0 <? length (InputFiles binArgs))%nat
        then InputFiles binArgs else []) in
  (shRun w "go" args, [Run "go" args]).

Definition BuildSystemTestBinary : option error * list action :=
  BuildSystemTestGoBinary DefaultTestBinaryArgs.

End Targets.

(** A world for examples: a checkout with two modules and a stray file
    under [./module], where every command succeeds and the tests of the
    module [mysql] fail; TEST_TAGS and MODULE are as given. *)
Definition lowerAscii (c : ascii) : ascii :=
  let n := nat_of_ascii c in
  if (65 <=? n)%nat && (n <=? 90)%nat then ascii_of_nat (n + 32) else c.

Definition checkout (tags module : string) : world :=
  {| Getenv := fun k =>
       if String.eqb k "TEST_TAGS" then tags
       else if String.eqb k "MODULE" then module
       else if String.eqb k "DEV_ARCH" then "amd64"%string
       else EmptyString;
     Verbose := false;
     RaceDetector := true;
     TestCoverage := true;
     BeatName := "elastic-agent";
     ToLower := fun s =>
       string_of_list_ascii (map lowerAscii (list_ascii_of_string s));
     Clean := fun p => p;
     createDir := fun p => p;
     osCreate := fun _ => None;
     goTestRun := fun _ => runPassed;
     shRun := fun _ _ => None;
     ReadFile := fun _ => None;
     coberturaRun := None;
     ReadDir := fun d =>
       if String.eqb d "./module"
       then inr [{| fileName := "README.md"; IsDir := false |};
                 {| fileName := "apache"; IsDir := true |};
                 {| fileName := "mysql"; IsDir := true |}]
       else inl (errorsNew "no such file or directory");
     NewIntegrationRunners := fun _ => None;
     runnersTest := fun m =>
       if String.eqb m "mysql" then Some (errorsNew "exit status 1")
       else None |}.

End Mage.

(** * The download step of the upgrade

    A shallow embedding of
    [internal/pkg/agent/application/upgrade/step_download.go].  The
    downloaders and verifiers of the packages [localremote], [snapshot],
    [http], [fs] and [composed], the version parser, the file system and
    [backoff.RetryNotify] are collaborators: their answers are read from a
    [world], the values they build are of two types [D] and [V] of which
    nothing is known, and the calls made to them are logged.  Logging and
    the APM span are left out; [agentArtifact], a variable of the package
    that is the same at every call, is left out of the arguments. *)
Module Upgrade.

Import Ascii.

Definition defaultUpgradeFallbackPGP : string :=
  "https://artifacts.elastic.co/GPG-KEY-elastic-agent".

(** [artifact.Config]: the fields the file reads or writes. *)
Record Config : Type := {
  SourceURI : string;
  DropPath : string;
  TargetDirectory : string;
  InstallPath : string;
  Timeout : Duration;
  RetrySleepInitDuration : Duration
}.

Definition withDropPath (v : string) (c : Config) : Config :=
  {| SourceURI := SourceURI c; DropPath := v;
     TargetDirectory := TargetDirectory c; InstallPath := InstallPath c;
     Timeout := Timeout c;
     RetrySleepInitDuration := RetrySleepInitDuration c |}.

Definition withSourceURI (v : string) (c : Config) : Config :=
  {| SourceURI := v; DropPath := DropPath c;
     TargetDirectory := TargetDirectory c; InstallPath := InstallPath c;
     Timeout := Timeout c;
     RetrySleepInitDuration := RetrySleepInitDuration c |}.

(** [agtversion.ParsedSemVer]: what its methods [IsSnapshot] and
    [VersionWithPrerelease] return. *)
Record ParsedSemVer : Type := {
  IsSnapshot : bool;
  VersionWithPrerelease : string
}.

(** [strings.HasPrefix] and [strings.TrimPrefix]. *)
Definition HasPrefix (s prefix : string) : bool := String.prefix prefix s.

Definition TrimPrefix (s prefix : string) : string :=
  if HasPrefix s prefix
  then substring (String.length prefix)
                 (String.length s - String.length prefix) s
  else s.

(** [uint] on a 64-bit platform. *)
Definition wrapUint (z : Z) : Z := z mod 2 ^ 64.

(** The constructors of downloaders and verifiers. *)
Inductive ctor : Type :=
| localremote_NewDownloader
| snapshot_NewDownloader
| http_NewDownloader
| fs_NewDownloader
| composed_NewDownloader
| localremote_NewVerifier
| fs_NewVerifier
| snapshot_NewVerifier
| http_NewVerifier
| composed_NewVerifier.

Section Artifacts.

Context {D V : Type}.

(** The calls to the collaborators, in the order they are made. *)
Inductive action : Type :=
| Parsed (version : string)
| Mkdir (path : string)
| New (c : ctor)
| Downloaded (downloader : D) (version : string)
| Verified (verifier : V) (version : string) (pgpBytes : list string).

(** The variables of [downloadWithRetries] that its closure [opFn]
    writes, and the calls made so far. *)
Record attemptState : Type := {
  path : string;
  attempt : Z;
  calls : list action
}.

(** What the collaborators answer.  A constructor answers by its
    arguments; [Download], which the retry loop calls again and again,
    also by the number of attempts made before.  [RetryNotify] is given
    the time-out of the context and the initial interval of the back-off,
    and runs the operation, which it numbers, on a state. *)
Record world : Type := {
  PgpSourceURIPrefix : string;
  Quote : string -> string;
  ParseVersion : string -> error + ParsedSemVer;
  Downloads : string;
  MkdirAll : string -> option error;
  errorsNew2 : error -> string -> error;
  PGP : bool * string;
  localremoteNewDownloader : Config -> error + D;
  snapshotNewDownloader : Config -> ParsedSemVer -> error + D;
  httpNewDownloader : Config -> error + D;
  fsNewDownloader : Config -> D;
  composedNewDownloader : list D -> D;
  localremoteNewVerifier : Config -> bool -> string -> error + V;
  fsNewVerifier : Config -> bool -> string -> error + V;
  snapshotNewVerifier : Config -> bool -> string -> ParsedSemVer -> error + V;
  httpNewVerifier : Config -> bool -> string -> error + V;
  composedNewVerifier : list V -> V;
  Download : nat -> D -> string -> string * option error;
  Verify : V -> string -> list string -> option error;
  RetryNotify :
    forall S : Type,
      Duration -> Duration ->
      (nat -> S -> option error * S) -> S -> option error * S
}.

Variable w : world.

(** ** appendFallbackPGP *)

(** A nil slice and an empty one are the same list. *)
Definition appendFallbackPGP (pgpBytes : list string) : list string :=
  let fallbackPGP := PgpSourceURIPrefix w +++ defaultUpgradeFallbackPGP in
  pgpBytes ++ [fallbackPGP].

(** ** newDownloader and newVerifier *)

Definition newDownloader (version : ParsedSemVer) (settings : Config)
    : (error + D) * list action :=
  if negb (IsSnapshot version) then
    (localremoteNewDownloader w settings,
     [New localremote_NewDownloader])
  else
    match snapshotNewDownloader w settings version with
    | inl err => (inl err, [New snapshot_NewDownloader])
    | inr snapDownloader =>
        match httpNewDownloader w settings with
        | inl err =>
            (inl err,
             [New snapshot_NewDownloader; New http_NewDownloader])
        | inr httpDownloader =>
            (inr (composedNewDownloader w
                    [fsNewDownloader w settings; snapDownloader;
                     httpDownloader]),
             [New snapshot_NewDownloader; New http_NewDownloader;
              New fs_NewDownloader; New composed_NewDownloader])
        end
    end.

Definition newVerifier (version : ParsedSemVer) (settings : Config)
    : (error + V) * list action :=
  let '(allowEmptyPgp, pgp) := PGP w in
  if negb (IsSnapshot version) then
    (localremoteNewVerifier w settings allowEmptyPgp pgp,
     [New localremote_NewVerifier])
  else
    match fsNewVerifier w settings allowEmptyPgp pgp with
    | inl err => (inl err, [New fs_NewVerifier])
    | inr fsVerifier =>
        match snapshotNewVerifier w settings allowEmptyPgp pgp version with
        | inl err =>
            (inl err,
             [New fs_NewVerifier; New snapshot_NewVerifier])
        | inr snapshotVerifier =>
            match httpNewVerifier w settings allowEmptyPgp pgp with
            | inl err =>
                (inl err,
                 [New fs_NewVerifier; New snapshot_NewVerifier;
                  New http_NewVerifier])
            | inr remoteVerifier =>
                (inr (composedNewVerifier w
                        [fsVerifier; snapshotVerifier; remoteVerifier]),
                 [New fs_NewVerifier; New snapshot_NewVerifier;
                  New http_NewVerifier;
                  New composed_NewVerifier])
            end
        end
    end.

(** ** downloadWithRetries *)

(** The closure [opFn], on its [n]-th call (from 0). *)
Definition opFn
    (downloaderCtor : ParsedSemVer -> Config -> (error + D) * list action)
    (version : ParsedSemVer) (settings : Config)
    (n : nat) (st : attemptState) : option error * attemptState :=
  let attempt := wrapUint (attempt st + 1) in
  let '(r, built) := downloaderCtor version settings in
  match r with
  | inl err =>
      (Some (Errorf_w "unable to create fetcher: " err),
       {| path := path st; attempt := attempt;
          calls := calls st ++ built |})
  | inr downloader =>
      let '(path, err) :=
        Download w n downloader (VersionWithPrerelease version) in
      let st :=
        {| path := path; attempt := attempt;
           calls := calls st ++ built
                    ++ [Downloaded downloader
                          (VersionWithPrerelease version)] |} in
      match err with
      | Some err => (Some (Errorf_w "unable to download package: " err), st)
      | None => (None, st)
      end
  end.

Definition downloadWithRetries
    (downloaderCtor : ParsedSemVer -> Config -> (error + D) * list action)
    (version : ParsedSemVer) (settings : Config)
    : (error + string) * list action :=
  let '(err, st) :=
    RetryNotify w attemptState (Timeout settings)
      (RetrySleepInitDuration settings)
      (opFn downloaderCtor version settings)
      {| path := ""; attempt := 0; calls := [] |} in
  match err with
  | Some err => (inl err, calls st)
  | None => (inr (path st), calls st)
  end.

(** ** downloadArtifact *)

(** The local copy [settings] of [u.settings], after [sourceURI] is
    applied to it. *)
Definition settingsFor (settings : Config) (sourceURI : string) : Config :=
  if negb (String.eqb sourceURI "") then
    if HasPrefix sourceURI "file://"
    then withDropPath (TrimPrefix sourceURI "file://") settings
    else withSourceURI sourceURI settings
  else settings.

(** [u.settings] is the configuration of the upgrader, which is not nil. *)
Definition downloadArtifact (u_settings : Config)
    (version sourceURI : string) (skipVerifyOverride : bool)
    (pgpBytes : list string) : (error + string) * list action :=
  let pgpBytes := appendFallbackPGP pgpBytes in
  let settings := settingsFor u_settings sourceURI in
  match ParseVersion w version with
  | inl err =>
      (inl (Errorf_w ("error parsing version " +++ Quote w version +++ ": ")
                     err),
       [Parsed version])
  | inr parsedVersion =>
      match MkdirAll w (Downloads w) with
      | Some err =>
          (inl (errorsNew2 w err
                  ("failed to create download directory at "
                   +++ Downloads w)),
           [Parsed version; Mkdir (Downloads w)])
      | None =>
          let '(r, downloaded) :=
            downloadWithRetries newDownloader parsedVersion settings in
          let log := [Parsed version; Mkdir (Downloads w)] ++ downloaded in
          match r with
          | inl err =>
              (inl (errorsNew2 w err "failed download of agent binary"), log)
          | inr path =>
              if skipVerifyOverride then (inr path, log)
              else
                let '(r, built) := newVerifier parsedVersion settings in
                match r with
                | inl err =>
                    (inl (errorsNew2 w err "initiating verifier"),
                     log ++ built)
                | inr verifier =>
                    let verified :=
                      [Verified verifier
                         (VersionWithPrerelease parsedVersion) pgpBytes] in
                    match Verify w verifier
                            (VersionWithPrerelease parsedVersion)
                            pgpBytes with
                    | Some err =>
                        (inl (errorsNew2 w err
                                "failed verification of agent binary"),
                         log ++ built ++ verified)
                    | None => (inr path, log ++ built ++ verified)
                    end
                end
          end
      end
  end.

(** What the attempts of [downloadWithRetries] call: the constructors of
    [downloaderCtor] and, when it gave a downloader, its [Download]. *)
Definition attempted
    (downloaderCtor : ParsedSemVer -> Config -> (error + D) * list action)
    (version : ParsedSemVer) (settings : Config) (a : action) : Prop :=
  In a (snd (downloaderCtor version settings)) \/
  exists d, a = Downloaded d (VersionWithPrerelease version) /\
            fst (downloaderCtor version settings) = inr d.

(** The state after the first [n] calls of an operation. *)
Fixpoint attempts {S : Type} (op : nat -> S -> option error * S)
    (n : nat) (st : S) : S :=
  match n with
  | O => st
  | Datatypes.S n' => snd (op n' (attempts op n' st))
  end.

(** What [backoff.RetryNotify] is relied on for: it calls the operation
    once and then again and again, and returns nil only when the last
    call did. *)
Definition retries : Prop :=
  forall (S : Type) (timeout init : Duration)
         (op : nat -> S -> option error * S) (st : S),
  exists n,
    snd (RetryNotify w S timeout init op st)
    = attempts op (Datatypes.S n) st /\
    (fst (RetryNotify w S timeout init op st) = None ->
     fst (op n (attempts op n st)) = None).

End Artifacts.

Arguments world : clear implicits.
Arguments action : clear implicits.

(** The constructors [newDownloader] calls. *)
Definition downloaderCtors : list ctor :=
  [localremote_NewDownloader; snapshot_NewDownloader; http_NewDownloader;
   fs_NewDownloader; composed_NewDownloader].

(** A retry loop of at most [fuel] more attempts after the [n]-th. *)
Fixpoint retryUpTo {S : Type} (fuel n : nat)
    (op : nat -> S -> option error * S) (st : S) : option error * S :=
  match fuel with
  | O => op n st
  | Datatypes.S fuel' =>
      match op n st with
      | (None, st') => (None, st')
      | (Some _, st') => retryUpTo fuel' (Datatypes.S n) op st'
      end
  end.

(** The verb [%q] of [fmt] on a string of ASCII characters: the string
    in double quotes, a double quote and a backslash escaped by a
    backslash, the control characters written [\a], [\b], [\f], [\n],
    [\r], [\t], [\v] or [\x] and two hexadecimal digits.  Bytes above 127
    are left as they are, which is what [%q] does with the bytes of a
    printable character. *)
Definition dquote : ascii := ascii_of_nat 34.

Definition backslash : ascii := ascii_of_nat 92.

Definition hexDigit (n : nat) : ascii :=
  match String.get n "0123456789abcdef" with
  | Some c => c
  | None => ascii_of_nat 48
  end.

Definition escaped (c : ascii) : string := String backslash (String c "").

Definition quoteByte (c : ascii) : string :=
  let n := nat_of_ascii c in
  if (n =? 34)%nat || (n =? 92)%nat then escaped c
  else if (n =? 7)%nat then escaped (ascii_of_nat 97)
  else if (n =? 8)%nat then escaped (ascii_of_nat 98)
  else if (n =? 12)%nat then escaped (ascii_of_nat 102)
  else if (n =? 10)%nat then escaped (ascii_of_nat 110)
  else if (n =? 13)%nat then escaped (ascii_of_nat 114)
  else if (n =? 9)%nat then escaped (ascii_of_nat 116)
  else if (n =? 11)%nat then escaped (ascii_of_nat 118)
  else if (n <? 32)%nat || (n =? 127)%nat then
    String backslash
      (String (ascii_of_nat 120)
         (String (hexDigit (n / 16)) (String (hexDigit (n mod 16)) "")))
  else String c "".

Fixpoint quoteBytes (s : string) : string :=
  match s with
  | EmptyString => String dquote ""
  | String c s => quoteByte c +++ quoteBytes s
  end.

Definition quoteASCII (s : string) : string := String dquote (quoteBytes s).

(** A world for examples: downloaders and verifiers are named by the
    sources they read, the first download of a release fails and the
    second gives the package, the keys are accepted when the fallback is
    among them, and an operation is tried three times.  [transport] says
    whether the HTTP transport of the settings can be set up, which the
    constructors of the package [http] need. *)
Definition mirrorWith (transport : bool) : world string string :=
  {| PgpSourceURIPrefix := "pgp_uri:";
     Quote := quoteASCII;
     ParseVersion := fun v =>
       if String.eqb v "8.9.0"
       then inr {| IsSnapshot := false; VersionWithPrerelease := "8.9.0" |}
       else if String.eqb v "8.9.0-SNAPSHOT"
       then inr {| IsSnapshot := true;
                   VersionWithPrerelease := "8.9.0-SNAPSHOT" |}
       else inl (errorsNew "invalid version");
     Downloads := "data/downloads";
     MkdirAll := fun _ => None;
     errorsNew2 := fun err msg => wrapError msg err;
     PGP := (false, "key"%string);
     localremoteNewDownloader := fun c => inr ("localremote:" +++ SourceURI c);
     snapshotNewDownloader := fun c _ => inr ("snapshot:" +++ SourceURI c);
     httpNewDownloader := fun c =>
       if transport then inr ("http:" +++ SourceURI c)
       else inl (errorsNew "invalid proxy URL");
     fsNewDownloader := fun c => "fs:" +++ DropPath c;
     composedNewDownloader := String.concat ",";
     localremoteNewVerifier := fun c _ _ =>
       inr ("localremote:" +++ SourceURI c);
     fsNewVerifier := fun c _ _ => inr ("fs:" +++ DropPath c);
     snapshotNewVerifier := fun c _ _ _ => inr ("snapshot:" +++ SourceURI c);
     httpNewVerifier := fun c _ _ =>
       if transport then inr ("http:" +++ SourceURI c)
       else inl (errorsNew "invalid proxy URL");
     composedNewVerifier := String.concat ",";
     Download := fun n d v =>
       match n with
       | O => (EmptyString, Some (errorsNew "connection reset"))
       | _ => ("data/downloads/elastic-agent-" +++ v +++ ".tar.gz", None)
       end;
     Verify := fun _ _ keys =>
       if existsb (String.eqb ("pgp_uri:" +++ defaultUpgradeFallbackPGP)) keys
       then None else Some (errorsNew "no key");
     RetryNotify := fun S _ _ => retryUpTo 2 0 |}.

Definition mirror : world string string := mirrorWith true.

Definition installed : Config :=
  {| SourceURI := "https://artifacts.elastic.co/downloads/";
     DropPath := "";
     TargetDirectory := "data/downloads";
     InstallPath := "data/install";
     Timeout := 7200 * Second;
     RetrySleepInitDuration := 30 * Second |}.

End Upgrade.

(** * Properties *)

(** ** Strings *)

Lemma append_assoc (a b c : string) : (a +++ b) +++ c = a +++ b +++ c.
Proof.
  induction a as [|ch a IH]; simpl; [reflexivity | now rewrite IH].
Qed.

(** ** Logs *)

Section Logs.

Context {U CheckinObs CheckinExp : Type}.

Local Abbreviation events := (list (@event U CheckinObs CheckinExp)).

Lemma observations_app (a b : events) :
  observations (a ++ b) = observations a ++ observations b.
Proof.
  induction a as [|e a IH]; [reflexivity|].
  destruct e; cbn [app observations]; rewrite IH; reflexivity.
Qed.

End Logs.

(** ** ComponentState *)

Lemma UnitState_eqb_eq (a b : UnitState) : UnitState_eqb a b = true <-> a = b.
Proof.
  split.
  - destruct a, b; simpl; intro H; try reflexivity; discriminate H.
  - intros ->. destruct b; reflexivity.
Qed.

Lemma UnitState_eqb_refl (a : UnitState) : UnitState_eqb a a = true.
Proof. now apply UnitState_eqb_eq. Qed.

Lemma UnitState_eqb_neq (a b : UnitState) : UnitState_eqb a b = false <-> a <> b.
Proof.
  rewrite <- UnitState_eqb_eq. destruct (UnitState_eqb a b); split; congruence.
Qed.

Section StateFacts.

Context {U CheckinObs CheckinExp : Type} {ops : StateOps U CheckinObs CheckinExp}.

Lemma state_compState_post (st : UnitState) (msg : string) (cs : ComponentState U) :
  State (fst (state_compState st msg cs)) = st /\
  Message (fst (state_compState st msg cs)) = msg.
Proof.
  unfold state_compState.
  destruct (UnitState_eqb (State cs) st) eqn:Es; simpl.
  - destruct (String.eqb (Message cs) msg) eqn:Em; simpl.
    + apply UnitState_eqb_eq in Es. apply String.eqb_eq in Em. now split.
    + now split.
  - now split.
Qed.

Lemma state_compState_changed (st : UnitState) (msg : string) (cs : ComponentState U) :
  snd (state_compState st msg cs) = true <->
  State cs <> st \/ Message cs <> msg.
Proof.
  unfold state_compState.
  destruct (UnitState_eqb (State cs) st) eqn:Es;
    destruct (String.eqb (Message cs) msg) eqn:Em; simpl.
  - apply UnitState_eqb_eq in Es. apply String.eqb_eq in Em.
    split; [discriminate | intros [H | H]; contradiction].
  - apply String.eqb_neq in Em. split; auto.
  - apply UnitState_eqb_neq in Es. split; auto.
  - apply UnitState_eqb_neq in Es. split; auto.
Qed.

Lemma forceState_post (st : UnitState) (msg : string) (cs : ComponentState U) :
  State (fst (forceState st msg cs)) = st /\
  Message (fst (forceState st msg cs)) = msg.
Proof.
  unfold forceState.
  pose proof (state_compState_post st msg cs) as H.
  destruct (state_compState st msg cs) as [cs1 c1]. simpl in H.
  destruct (clearUnits st msg (Units cs1)) as [u c2]. exact H.
Qed.

Lemma forceState_changed (st : UnitState) (msg : string) (cs : ComponentState U) :
  State cs <> st \/ Message cs <> msg -> snd (forceState st msg cs) = true.
Proof.
  intro H. apply state_compState_changed in H. unfold forceState.
  destruct (state_compState st msg cs) as [cs1 c1]. simpl in H. subst c1.
  destruct (clearUnits st msg (Units cs1)) as [u c2]. reflexivity.
Qed.

(** *** How the two wrappers of the supervisor run *)

Lemma forceCompState_run (st : UnitState) (msg : string) (s : serviceRuntime) :
  forceCompState st msg s =
  (tt, withState s (fst (forceState st msg (state s))),
   forced st msg (state s)).
Proof.
  unfold forceCompState, forced, bind, onState, when, sendObserved, ret, Copy.
  destruct (forceState st msg (state s)) as [cs c]. simpl.
  destruct c; reflexivity.
Qed.

Lemma compState_run (st : UnitState) (msg : string) (n : Z) (s : serviceRuntime) :
  msg = (if UnitState_eqb st UnitStateHealthy then
           "Healthy: communicating with " +++ name s +++ " service"
         else if UnitState_eqb st UnitStateDegraded then
           if n =? 1 then "Degraded: " +++ name s +++ " service missed 1 check-in"
           else "Degraded: " +++ name s +++ " missed " +++ itoa n +++ " check-ins"
         else stateUnknownMessage) ->
  compState st n s =
  (tt, withState s (fst (state_compState st msg (state s))),
   comped st msg (state s)).
Proof.
  intros ->.
  unfold compState, comped, bind, gets, onState, when, sendObserved, ret, Copy.
  match goal with
  | |- context [state_compState ?a ?b ?c] =>
      destruct (state_compState a b c) as [cs c']
  end.
  simpl. destruct c'; reflexivity.
Qed.

End StateFacts.

(** ** Construction *)

Section Construction.

Context {U CheckinObs CheckinExp : Type} {ops : StateOps U CheckinObs CheckinExp}.

(** C9. [newServiceRuntime] returns an error exactly when the component
    bears a shipper specification, has no input specification, or has an
    input specification without a service block; a component that passes
    the three checks gets a supervisor whose state is [Stopped] with message
    "Stopped: <name> service". *)
Theorem newServiceRuntime_checks_and_initial_state (c : Component) :
  ((exists e, newServiceRuntime c = inl e) <->
   (ShipperSpec c <> None \/ InputSpec c = None \/
    exists i, InputSpec c = Some i /\ Service (Spec i) = None)) /\
  (forall i svc,
     ShipperSpec c = None -> InputSpec c = Some i ->
     Service (Spec i) = Some svc ->
     exists s, newServiceRuntime c = inr s /\ comp s = c /\
       State (state s) = UnitStateStopped /\
       Message (state s) = "Stopped: " +++ Name (Spec i) +++ " service").
Proof.
  split.
  - unfold newServiceRuntime. split.
    + intros [e He].
      destruct (ShipperSpec c) as [sh|]; [left; discriminate|].
      destruct (InputSpec c) as [i|]; [|right; left; reflexivity].
      destruct (Service (Spec i)) eqn:Es; [discriminate He|].
      right; right. exists i. now split.
    + intros [H | [H | [i [Hi Hs]]]].
      * destruct (ShipperSpec c); [eexists; reflexivity | congruence].
      * rewrite H. destruct (ShipperSpec c); eexists; reflexivity.
      * rewrite Hi, Hs. destruct (ShipperSpec c); eexists; reflexivity.
  - intros i svc Hsh Hi Hs. unfold newServiceRuntime.
    rewrite Hsh, Hi, Hs. eexists. split; [reflexivity|].
    cbn [comp state withState].
    match goal with
    | |- context [state_compState ?st ?msg ?cs] =>
        destruct (state_compState_post st msg cs) as [H1 H2]
    end.
    split; [reflexivity|]. split; [exact H1|].
    rewrite H2. unfold name, derefInputSpec. cbn [comp]. now rewrite Hi.
Qed.

End Construction.

Lemma newServiceRuntime_checks_and_initial_state_witness :
  exists s, newServiceRuntime (ops := noUnits) endpoint = inr s /\
    comp s = endpoint /\ State (state s) = UnitStateStopped /\
    Message (state s) = "Stopped: endpoint service"%string.
Proof.
  destruct (newServiceRuntime_checks_and_initial_state (ops := noUnits) endpoint)
    as [_ H].
  exact (H _ endpointService eq_refl eq_refl eq_refl).
Defined.

(** ** The control surface *)

Section ControlSurface.

Context {U CheckinObs CheckinExp : Type} {ops : StateOps U CheckinObs CheckinExp}.

Lemma stepAction_alone (as_ : actionMode) (s : @serviceRuntime U) :
  stepAction as_ atSelect s = Some (atSend, withActionCh None s) /\
  stepAction as_ atSend (withActionCh None s)
  = Some (atReturn, withActionCh (Some as_) s) /\
  enqueueAction as_ s = Some (None, withActionCh (Some as_) s).
Proof.
  unfold stepAction, enqueueAction, stepChan, chanSend, recvOrDefault.
  cbn [actionCh withActionCh]. destruct (actionCh s); repeat split.
Qed.

Lemma stepUpdate_alone (c : Component) (s : @serviceRuntime U) :
  stepUpdate c atSelect s = Some (atSend, withCompCh None s) /\
  stepUpdate c atSend (withCompCh None s)
  = Some (atReturn, withCompCh (Some c) s) /\
  Update c s = Some (None, withCompCh (Some c) s).
Proof.
  unfold stepUpdate, Update, stepChan, chanSend, recvOrDefault.
  cbn [compCh withCompCh]. destruct (compCh s); repeat split.
Qed.

(** C4. A call of [Start], [Stop], [Teardown] or [Update] whose two
    statements run with no other caller in between returns nil and does
    not block, whatever the channel holds, and leaves its value in the
    channel and the rest of the supervisor as it was: after [Start] then
    [Stop] the action channel holds [actionStop], which is the action the
    loop handles next, and after two [Update]s the component channel holds
    the second revision.  Calls that overlap are not covered by the
    [select]: when [Stop] runs its [select] before an overlapping [Start]
    has sent, the send of [Stop] finds the channel full and blocks until
    the loop receives; two overlapping [Update]s block the same way. *)
Theorem control_surface_last_writer_wins (s : serviceRuntime)
    (c1 c2 : Component) (w : oracle) (l : locals) :
  (forall as_,
   exists s1 s2,
     stepAction as_ atSelect s = Some (atSend, s1) /\
     stepAction as_ atSend s1 = Some (atReturn, s2) /\
     enqueueAction as_ s = Some (None, s2) /\
     actionCh s2 = Some as_ /\ compCh s2 = compCh s /\
     comp s2 = comp s /\ state s2 = state s) /\
  (exists s1 s2,
     Start s = Some (None, s1) /\ actionCh s1 = Some actionStart /\
     Stop s1 = Some (None, s2) /\ actionCh s2 = Some actionStop /\
     compCh s2 = compCh s /\ comp s2 = comp s /\ state s2 = state s /\
     Run_iteration w recvAction s2 l =
       (let '(s', l', log) :=
          caseAction w actionStop (withActionCh None s2) l in
        Some (s', l', log, None))) /\
  (exists s1,
     Teardown s = Some (None, s1) /\ actionCh s1 = Some actionTeardown /\
     compCh s1 = compCh s /\ comp s1 = comp s /\ state s1 = state s) /\
  (exists s1 s2,
     Update c1 s = Some (None, s1) /\ compCh s1 = Some c1 /\
     Update c2 s1 = Some (None, s2) /\ compCh s2 = Some c2 /\
     actionCh s2 = actionCh s /\ comp s2 = comp s /\ state s2 = state s /\
     exists t1,
       stepUpdate c2 atSelect s1 = Some (atSend, t1) /\
       stepUpdate c2 atSend t1 = Some (atReturn, s2)) /\
  (exists s1 s2 s3 s4,
     stepAction actionStart atSelect s = Some (atSend, s1) /\
     stepAction actionStop atSelect s1 = Some (atSend, s2) /\
     stepAction actionStart atSend s2 = Some (atReturn, s3) /\
     actionCh s3 = Some actionStart /\
     stepAction actionStop atSend s3 = None /\
     Run_iteration w recvAction s3 l =
       (let '(s', l', log) :=
          caseAction w actionStart (withActionCh None s3) l in
        Some (s', l', log, None)) /\
     stepAction actionStop atSend (withActionCh None s3)
     = Some (atReturn, s4) /\
     actionCh s4 = Some actionStop) /\
  (exists s1 s2 s3,
     stepUpdate c1 atSelect s = Some (atSend, s1) /\
     stepUpdate c2 atSelect s1 = Some (atSend, s2) /\
     stepUpdate c1 atSend s2 = Some (atReturn, s3) /\
     compCh s3 = Some c1 /\
     stepUpdate c2 atSend s3 = None).
Proof.
  split; [|split; [|split; [|split; [|split]]]].
  - intro as_. destruct (stepAction_alone as_ s) as (H1 & H2 & H3).
    exists (withActionCh None s), (withActionCh (Some as_) s).
    repeat split; assumption.
  - exists (withActionCh (Some actionStart) s),
      (withActionCh (Some actionStop) s).
    unfold Start, Stop.
    split; [apply stepAction_alone|]. split; [reflexivity|].
    split; [apply (stepAction_alone actionStop
                     (withActionCh (Some actionStart) s))|].
    repeat split.
  - exists (withActionCh (Some actionTeardown) s). unfold Teardown.
    split; [apply stepAction_alone|]. repeat split.
  - exists (withCompCh (Some c1) s), (withCompCh (Some c2) s).
    split; [apply stepUpdate_alone|]. split; [reflexivity|].
    split; [apply (stepUpdate_alone c2 (withCompCh (Some c1) s))|].
    split; [reflexivity|]. split; [reflexivity|]. split; [reflexivity|].
    split; [reflexivity|].
    exists (withCompCh None s).
    split; [apply (stepUpdate_alone c2 (withCompCh (Some c1) s))|].
    apply (stepUpdate_alone c2 (withCompCh (Some c1) s)).
  - exists (withActionCh None s), (withActionCh None s),
      (withActionCh (Some actionStart) s), (withActionCh (Some actionStop) s).
    split; [apply stepAction_alone|].
    split; [apply (stepAction_alone actionStop (withActionCh None s))|].
    split; [apply stepAction_alone|].
    repeat split.
  - exists (withCompCh None s), (withCompCh None s),
      (withCompCh (Some c1) s).
    split; [apply stepUpdate_alone|].
    split; [apply (stepUpdate_alone c2 (withCompCh None s))|].
    split; [apply stepUpdate_alone|].
    repeat split.
Qed.

End ControlSurface.

Lemma control_surface_last_writer_wins_witness :
  exists s1 s2 s3,
    stepAction actionStart atSelect endpointStopped = Some (atSend, s1) /\
    stepAction actionStop atSelect s1 = Some (atSend, s2) /\
    stepAction actionStart atSend s2 = Some (atReturn, s3) /\
    actionCh s3 = Some actionStart /\
    stepAction actionStop atSend s3 = None.
Proof.
  destruct (control_surface_last_writer_wins (ops := noUnits)
              endpointStopped endpoint endpoint (calm 0) idleLocals)
    as (_ & _ & _ & _ & (s1 & s2 & s3 & s4 & H1 & H2 & H3 & H4 & H5 & _) & _).
  exists s1, s2, s3. repeat split; assumption.
Defined.

(** ** Service operations and the start path *)

Section Operations.

Context {U CheckinObs CheckinExp : Type} {ops : StateOps U CheckinObs CheckinExp}.

Variable w : oracle.

Local Abbreviation events := (list (@event U CheckinObs CheckinExp)).

Lemma check_run (s : serviceRuntime) :
  check w s =
  match Check (Operations (derefService (comp s))) with
  | None => (Some ErrOperationSpecUndefined, s, [] : events)
  | Some spec =>
      (executeServiceCommandImpl w (BinaryPath (derefInputSpec (comp s))) spec false,
       s, [executed w (comp s) spec false])
  end.
Proof.
  unfold check, bind, gets, execute, ret, executed.
  destruct (Check (Operations (derefService (comp s)))); reflexivity.
Qed.

Lemma install_run (s : serviceRuntime) :
  install w s =
  match Install (Operations (derefService (comp s))) with
  | None => (Some ErrOperationSpecUndefined, s, [] : events)
  | Some spec =>
      (executeServiceCommandImpl w (BinaryPath (derefInputSpec (comp s))) spec true,
       s, [executed w (comp s) spec true])
  end.
Proof.
  unfold install, bind, gets, execute, ret, executed.
  destruct (Install (Operations (derefService (comp s)))); reflexivity.
Qed.

Lemma uninstall_run (s : serviceRuntime) :
  uninstall w s =
  match Uninstall (Operations (derefService (comp s))) with
  | None => (Some ErrOperationSpecUndefined, s, [] : events)
  | Some spec =>
      (executeServiceCommandImpl w (BinaryPath (derefInputSpec (comp s))) spec true,
       s, [executed w (comp s) spec true])
  end.
Proof.
  unfold uninstall, uninstallService, bind, gets, execute, ret, executed.
  destruct (Uninstall (Operations (derefService (comp s)))); reflexivity.
Qed.

(** [start]: the state it leaves, what it returns and what it logs, from
    the outcomes of [check] and [install]. *)
Lemma start_run (s : serviceRuntime) :
  let starting := "Starting: " +++ name s +++ " service runtime" in
  let s1 := withState s (fst (forceState UnitStateStarting starting (state s))) in
  start w s =
  (match fst (fst (@check U CheckinObs CheckinExp w s1)) with
   | None => None
   | Some _ =>
       match fst (fst (@install U CheckinObs CheckinExp w s1)) with
       | None => None
       | Some e => Some (Errorf_w ("failed install " +++ name s +++ " service: ") e)
       end
   end,
   s1,
   forced UnitStateStarting starting (state s) ++ snd (@check U CheckinObs CheckinExp w s1) ++
   match fst (fst (@check U CheckinObs CheckinExp w s1)) with
   | None => []
   | Some _ => snd (@install U CheckinObs CheckinExp w s1)
   end).
Proof.
  intros starting s1. subst s1. unfold start.
  unfold bind at 1. unfold gets at 1. cbn beta iota.
  unfold bind at 1. rewrite forceCompState_run. fold starting.
  set (s1 := withState s _).
  unfold bind, ret. rewrite !check_run, !install_run.
  destruct (Check (Operations (derefService (comp s1)))) as [cspec|];
    [destruct (executeServiceCommandImpl w _ cspec false) as [e|] |];
    cbn beta iota delta [fst snd];
    rewrite ?install_run;
    try (destruct (Install (Operations (derefService (comp s1)))) as [ispec|];
         [destruct (executeServiceCommandImpl w _ ispec true) |]);
    cbn beta iota delta [fst snd];
    rewrite ?app_nil_r; reflexivity.
Qed.

End Operations.

(** ** The action branch of the loop *)

Section Actions.

Context {U CheckinObs CheckinExp : Type} {ops : StateOps U CheckinObs CheckinExp}.

Variable w : oracle.

Local Abbreviation events := (list (@event U CheckinObs CheckinExp)).

(** The loop on [actionStart] does what the specification lists. *)
Lemma Run_iteration_actionStart (s : serviceRuntime) (l : locals) :
  Run_iteration w recvAction (withActionCh (Some actionStart) s) l =
  Some (actionStart_spec w s l).
Proof.
  unfold actionStart_spec.
  set (cport := CPort (derefService (comp s))).
  set (path := BinaryPath (derefInputSpec (comp s))).
  set (specs := Operations (derefService (comp s))).
  set (period := checkinPeriod s).
  set (starting := "Starting: " +++ name s +++ " service runtime").
  set (s0 := withActionCh None s).
  set (s1 := withState s0 _).
  cbv zeta.
  unfold Run_iteration. cbn [actionCh withActionCh].
  fold (withActionCh None (withActionCh (Some actionStart) s)).
  change (withActionCh None (withActionCh (Some actionStart) s)) with s0.
  unfold caseAction, caseActionStart, timerStop, cisStop, timerReset.
  destruct l as [[c|] lt lm ltm]; cbv beta zeta;
    cbn [cis setLastCheckin setMissedCheckins setCheckinTimer setCis
         lastCheckin missedCheckins checkinTimer port];
    change (CPort (derefService (comp s0))) with cport;
    change (name s0) with (name s);
    (destruct (newConnInfoServer w cport) as [e|];
     [ rewrite forceCompState_run; unfold Errorf_w; cbn [Error];
       rewrite ?append_assoc; reflexivity | ]).
  all: rewrite start_run; rewrite check_run, install_run.
  all: change (name s0) with (name s); change (state s0) with (state s);
    fold starting; fold s1;
    change (comp s1) with (comp s); fold specs; fold path;
    unfold executed;
    change (comp s1) with (comp s); fold path.
  all: destruct (Check specs) as [cspec|];
    [destruct (executeServiceCommandImpl w path cspec false) |];
    cbn [fst snd].
  all: try (destruct (Install specs) as [ispec|];
    [destruct (executeServiceCommandImpl w path ispec true) |];
    cbn [fst snd]).
  all: cbn [cis setCis setCheckinTimer lastCheckin missedCheckins
            checkinTimer port].
  all: rewrite ?forceCompState_run; unfold Errorf_w; cbn [Error];
    rewrite ?append_assoc.
  all: change (checkinPeriod s1) with period.
  all: rewrite <- ?app_assoc; cbn [app]; rewrite ?app_nil_r; rewrite <- ?app_assoc;
    try reflexivity.
Qed.


(** C5. An [actionStart] taken by the loop runs the start sequence of the
    specification ([actionStart_spec]): reset of [lastCheckin] and
    [missedCheckins], timer stopped, prior server stopped, new server on
    [cport], state forced to [Starting], [check] without retry, [install]
    with retry when [check] fails.  It ends either with no server, the timer
    stopped and the state forced to [Failed], or with the server running,
    the timer armed with [checkinPeriod()] and the state [Starting]. *)
Theorem actionStart_sequence (s : serviceRuntime) (l : locals)
    (Hvalid : validComponent (comp s) = true) :
  Run_iteration w recvAction (withActionCh (Some actionStart) s) l =
    Some (actionStart_spec w s l) /\
  let '(s', l', log, returned) := actionStart_spec w s l in
  returned = None /\ lastCheckin l' = zeroTime /\ missedCheckins l' = 0 /\
  ((State (state s') = UnitStateFailed /\ cis l' = None /\
    checkinTimer l' = None) \/
   (State (state s') = UnitStateStarting /\
    cis l' = Some {| port := CPort (derefService (comp s)) |} /\
    checkinTimer l' = Some (checkinPeriod s))).
Proof.
  split; [apply Run_iteration_actionStart|].
  clear Hvalid. unfold actionStart_spec. cbv zeta.
  destruct (newConnInfoServer w _) as [e|];
    [| destruct (match Check _ with Some _ => _ | None => _ end) as [e1|];
       [destruct (match Install _ with Some _ => _ | None => _ end) as [e2|]|]];
    cbn [state withState cis checkinTimer lastCheckin missedCheckins];
    (split; [reflexivity|]); (split; [reflexivity|]); (split; [reflexivity|]);
    first [ left; split; [apply forceState_post | split; reflexivity]
          | right; split; [apply forceState_post | split; reflexivity] ].
Qed.

Lemma no_retry_in (log : events) :
  filter isExecuteRetry log = [] ->
  forall path spec res, ~ In (EvExecute path spec true res) log.
Proof.
  intros H path spec res Hin.
  assert (Hf : In (EvExecute path spec true res) (filter isExecuteRetry log))
    by (apply filter_In; split; [exact Hin | reflexivity]).
  rewrite H in Hf. exact Hf.
Qed.

(** C8. When the operation spec of [check], [install] or [uninstall] is
    nil, the wrapper returns [ErrOperationSpecUndefined] and logs no call of
    [executeServiceCommandImpl].  On the start path: with no install spec
    and a failing [check], the loop forces [Failed] with the message of the
    wrapped error, and [install] executes nothing. *)
Theorem undefined_operation_spec (s : serviceRuntime) (l : locals)
    (Hvalid : validComponent (comp s) = true) :
  let specs := Operations (derefService (comp s)) in
  (Check specs = None ->
   check w s = (Some ErrOperationSpecUndefined, s, [] : events)) /\
  (Install specs = None ->
   install w s = (Some ErrOperationSpecUndefined, s, [] : events)) /\
  (Uninstall specs = None ->
   uninstall w s = (Some ErrOperationSpecUndefined, s, [] : events) /\
   uninstallService w (comp s) s =
     (Some ErrOperationSpecUndefined, s, [] : events)) /\
  (Install specs = None ->
   newConnInfoServer w (CPort (derefService (comp s))) = None ->
   fst (fst (@check U CheckinObs CheckinExp w s)) <> None ->
   exists s' l' log,
     Run_iteration w recvAction (withActionCh (Some actionStart) s) l =
       Some (s', l', log, None) /\
     State (state s') = UnitStateFailed /\
     Message (state s') =
       "failed install " +++ name s +++ " service: operation spec undefined" /\
     forall path spec res, ~ In (EvExecute path spec true res) log).
Proof.
  intro specs. clear Hvalid. subst specs. repeat split.
  - intro H. rewrite check_run, H. reflexivity.
  - intro H. rewrite install_run, H. reflexivity.
  - rewrite uninstall_run, H. reflexivity.
  - unfold uninstallService. rewrite H. reflexivity.
  - intros Hi Hc Hk. rewrite Run_iteration_actionStart.
    unfold actionStart_spec. cbv zeta. rewrite Hc, Hi.
    rewrite check_run in Hk.
    destruct (Check (Operations (derefService (comp s)))) as [cspec|].
    + cbn [fst] in Hk.
      destruct (executeServiceCommandImpl w _ cspec false) as [e|];
        [|congruence].
      eexists; eexists; eexists. split; [reflexivity|].
      cbn [state withState]. split; [apply forceState_post|].
      split; [apply forceState_post|].
      apply no_retry_in. unfold forced.
      destruct (cis l);
        repeat match goal with
               | |- context [if ?b then _ else _] => destruct b
               end; reflexivity.
    + eexists; eexists; eexists. split; [reflexivity|].
      cbn [state withState]. split; [apply forceState_post|].
      split; [apply forceState_post|].
      apply no_retry_in. unfold forced.
      destruct (cis l);
        repeat match goal with
               | |- context [if ?b then _ else _] => destruct b
               end; reflexivity.
Qed.

End Actions.

(** ** Stop and teardown *)

(** Reduce the monad and the methods that only pass the state along. *)
Ltac run_monad :=
  cbv beta iota zeta
      delta [bind gets ret when emit onState awaitCheckin uninstall
             uninstallService execute assignState sendObserved Copy
             fst snd negb andb orb];
  cbn [comp state actionCh compCh withState withActionCh withCompCh].

(** Split on the first test or call whose outcome the goal depends on. *)
Ltac run_case :=
  match goal with
  | |- context [match ?x with _ => _ end] =>
      lazymatch x with
      | context [match _ with _ => _ end] => fail
      | _ => destruct x
      end
  end.

Section Teardown.

Context {U CheckinObs CheckinExp : Type} {ops : StateOps U CheckinObs CheckinExp}.

Variable w : oracle.

Local Abbreviation events := (list (@event U CheckinObs CheckinExp)).

(** [stop], from what [awaitCheckin] and [uninstall] answer: the service is
    told to stop when it is running and has checked in, [uninstall] runs on
    teardown, and [forceCompState] comes last. *)
Lemma stop_run (lastCheckin : Time) (teardown : bool) (s : serviceRuntime) :
  let msg := "Stopped: " +++ name s +++ " service runtime" in
  let period := checkinPeriod s in
  let checkedIn :=
    if IsZero lastCheckin then checkinObservedWithin w period else true in
  let told := teardown && isRunning s && checkedIn in
  let cs1 :=
    if told then forceExpectedState UnitStateStopping (state s) else state s in
  let pre : events :=
    if teardown then
      (if isRunning s then
         (if IsZero lastCheckin
          then [EvAwaitCheckin period (checkinObservedWithin w period)]
          else []) ++
         (if checkedIn
          then [EvForceExpectedState UnitStateStopping;
                EvCheckinExpected (toCheckinExpected cs1) None]
          else [])
       else []) ++
      match Uninstall (Operations (derefService (comp s))) with
      | None => []
      | Some spec => [executed w (comp s) spec true]
      end
    else [] in
  stop w lastCheckin teardown s =
  (tt, withState s (fst (forceState UnitStateStopped msg cs1)),
   pre ++ forced UnitStateStopped msg cs1).
Proof.
  intros msg period checkedIn told cs1 pre.
  subst pre cs1 told checkedIn. unfold stop, executed.
  destruct teardown; [destruct (isRunning s) eqn:Erun;
    [destruct (IsZero lastCheckin);
      [fold period; destruct (checkinObservedWithin w period) eqn:Ew|]|]|];
    run_monad; rewrite ?Erun; run_monad;
    fold period; rewrite ?Ew; run_monad;
    try (destruct (Uninstall (Operations (derefService (comp s)))) as [spec|]);
    run_monad; rewrite forceCompState_run;
    cbn [comp withState state actionCh compCh app]; reflexivity.
Qed.

(** C1. A [Teardown] taken by the loop, whatever [uninstall] returns: [Run]
    does not return and forces no [Failed]; the one mutator call on [State]
    is the final [forceState] to [Stopped] with message
    "Stopped: <name> service runtime", it closes the log together with its
    observation, and the action sends no other observation. *)
Theorem teardown_reaches_Stopped (s : serviceRuntime) (l : locals)
    (Hvalid : validComponent (comp s) = true) :
  let msg := "Stopped: " +++ name s +++ " service runtime" in
  exists (s' : serviceRuntime) (l' : locals) (pre : events) (changed : bool),
    Run_iteration w recvAction (withActionCh (Some actionTeardown) s) l =
      Some (s', l',
            pre ++ EvForceState UnitStateStopped msg changed
                :: (if changed then [EvObserved (state s')] else []),
            None) /\
    State (state s') = UnitStateStopped /\ Message (state s') = msg /\
    filter isMutatorCall pre = [] /\ observations pre = [] /\
    (forall spec, Uninstall (Operations (derefService (comp s))) = Some spec ->
       In (executed w (comp s) spec true) pre) /\
    (State (state s) <> UnitStateStopped \/ Message (state s) <> msg ->
       changed = true).
Proof.
  intro msg. clear Hvalid.
  unfold Run_iteration. cbn [actionCh withActionCh].
  fold (withActionCh None (withActionCh (Some actionTeardown) s)).
  change (withActionCh None (withActionCh (Some actionTeardown) s))
    with (withActionCh None s).
  unfold caseAction, caseActionStop, timerStop, cisStop.
  set (s0 := withActionCh None s).
  pose proof (stop_run (lastCheckin l) true s0) as Hstop.
  cbv zeta in Hstop.
  change (name s0) with (name s) in Hstop. fold msg in Hstop.
  change (state s0) with (state s) in Hstop.
  change (comp s0) with (comp s) in Hstop.
  match type of Hstop with
  | context [forceState UnitStateStopped msg ?c] => set (cs1 := c) in Hstop
  end.
  assert (Hcs1 : State cs1 = State (state s) /\ Message cs1 = Message (state s)).
  { subst cs1.
    match goal with |- context [if ?b then _ else _] => destruct b end;
      split; reflexivity. }
  destruct (forceState_post UnitStateStopped msg cs1) as [HS HM].
  pose proof (forceState_changed UnitStateStopped msg cs1) as HC.
  destruct Hcs1 as [E1 E2]. rewrite E1, E2 in HC.
  unfold forced in Hstop.
  match type of Hstop with
  | _ = (_, _, ?p ++ _) => set (pre0 := p) in Hstop
  end.
  assert (Hpre0 : filter isMutatorCall pre0 = [] /\ observations pre0 = []).
  { subst pre0. rewrite filter_app, observations_app.
    repeat match goal with
           | |- context [if ?b then _ else _] => destruct b
           end;
      destruct (Uninstall (Operations (derefService (comp s))));
      split; reflexivity. }
  destruct Hpre0 as [Hm Ho].
  assert (Hin : forall spec,
             Uninstall (Operations (derefService (comp s))) = Some spec ->
             In (executed w (comp s) spec true) pre0).
  { intros spec Hspec. subst pre0. rewrite Hspec.
    apply in_or_app. right. left. reflexivity. }
  clearbody pre0 cs1.
  destruct l as [[c|] lt lm ltm];
    cbn [cis setCheckinTimer setCis lastCheckin missedCheckins checkinTimer]
      in *;
    rewrite Hstop; cbv beta iota zeta;
    exists (withState s0 (fst (forceState UnitStateStopped msg cs1)));
    eexists;
    [ exists ([EvTimerStop] ++ [EvCisStop (port c)] ++ pre0)
    | exists ([EvTimerStop] ++ [] ++ pre0) ];
    exists (snd (forceState UnitStateStopped msg cs1)).
  all: split; [ rewrite <- ?app_assoc; reflexivity | ].
  all: cbn [state withState]; split; [exact HS|]; split; [exact HM|].
  all: split; [ cbn [filter isMutatorCall app]; exact Hm | ].
  all: split; [ cbn [observations app]; exact Ho | ].
  all: split; [ | exact HC ].
  all: intros spec Hspec; cbn [app]; repeat right; now apply Hin.
Qed.

End Teardown.

(** ** Check-ins *)

Section Checkins.

Context {U CheckinObs CheckinExp : Type} {ops : StateOps U CheckinObs CheckinExp}.

Variable w : oracle.

Local Abbreviation events := (list (@event U CheckinObs CheckinExp)).

Lemma isRunning_iff (s : @serviceRuntime U) :
  isRunning s = false <->
  State (state s) = UnitStateStopping \/ State (state s) = UnitStateStopped.
Proof.
  unfold isRunning. destruct (State (state s)); cbn; split;
    try discriminate; try (intros [H | H]; discriminate H); auto.
Qed.

Lemma processCheckin_run (checkin : CheckinObs) (lastCheckin : Time)
    (s : serviceRuntime) :
  let starting := UnitState_eqb (State (state s)) UnitStateStarting in
  let cs0 := afterFirstCheckin s in
  let cs1 := fst (syncCheckin checkin cs0) in
  let synced := snd (syncCheckin checkin cs0) in
  let cs2 := fst (cleanupStopped cs1) in
  let cleaned := snd (cleanupStopped cs1) in
  processCheckin w checkin lastCheckin s =
  if isRunning s then
    (now w, withState s cs2,
     (if IsZero lastCheckin || unsettled cs1
      then [EvCheckinExpected (toCheckinExpected cs1) (Some checkin)]
      else []) ++
     (if starting || synced then [EvObserved cs1] else []) ++
     (if cleaned then [EvObserved cs2] else []))
  else (lastCheckin, s, []).
Proof.
  intros starting cs0 cs1 synced cs2 cleaned.
  subst starting cs0 cs1 synced cs2 cleaned.
  unfold processCheckin, afterFirstCheckin, isRunning.
  destruct (State (state s)) eqn:ES;
    repeat (progress (run_monad; rewrite ?ES; cbn [UnitState_eqb State]));
    try reflexivity.
  all: repeat (run_case; run_monad); reflexivity.
Qed.

(** C6. A check-in taken by the loop.  When the supervisor is not running
    ([Stopping] or [Stopped]) nothing happens and [lastCheckin] keeps its
    value.  Otherwise [lastCheckin] becomes the clock reading, the check-in
    is merged, [CheckinExpected] is sent iff [lastCheckin] was zero or the
    merged state is unsettled, one observation is sent iff the state was
    [Starting] or the merge changed it, and one more iff [cleanupStopped]
    pruned a unit. *)
Theorem checkin_processing (checkin : CheckinObs) (s : serviceRuntime)
    (l : locals) (Hvalid : validComponent (comp s) = true) :
  let starting := UnitState_eqb (State (state s)) UnitStateStarting in
  let cs1 := fst (syncCheckin checkin (afterFirstCheckin s)) in
  let synced := snd (syncCheckin checkin (afterFirstCheckin s)) in
  let cs2 := fst (cleanupStopped cs1) in
  let cleaned := snd (cleanupStopped cs1) in
  (State (state s) = UnitStateStopping \/ State (state s) = UnitStateStopped ->
   Run_iteration w (recvCheckin checkin) s l = Some (s, l, [], None)) /\
  (State (state s) <> UnitStateStopping ->
   State (state s) <> UnitStateStopped ->
   Run_iteration w (recvCheckin checkin) s l =
   Some (withState s cs2, setLastCheckin (now w) l,
         (if IsZero (lastCheckin l) || unsettled cs1
          then [EvCheckinExpected (toCheckinExpected cs1) (Some checkin)]
          else []) ++
         (if starting || synced then [EvObserved cs1] else []) ++
         (if cleaned then [EvObserved cs2] else []),
         None)).
Proof.
  intros starting cs1 synced cs2 cleaned. clear Hvalid.
  unfold Run_iteration. rewrite processCheckin_run. split.
  - intro H. apply isRunning_iff in H. rewrite H.
    destruct l; reflexivity.
  - intros H1 H2.
    destruct (isRunning s) eqn:Er; [reflexivity|].
    apply isRunning_iff in Er. tauto.
Qed.

End Checkins.

(** ** The check-in watchdog *)

Lemma wrap64_id (z : Z) : minInt64 <= z <= maxInt64 -> wrap64 z = z.
Proof.
  unfold wrap64, minInt64, maxInt64. intro H.
  rewrite Z.mod_small; lia.
Qed.

Ltac split_all :=
  repeat match goal with
         | |- _ /\ _ => split
         | |- _ -> _ => intro
         end.

Section Watchdog.

Context {U CheckinObs CheckinExp : Type} {ops : StateOps U CheckinObs CheckinExp}.

Local Abbreviation events := (list (@event U CheckinObs CheckinExp)).

(** [checkStatus] of a running supervisor, from the counter it computes. *)
Lemma checkStatus_run (w : oracle) (period : Duration) (lastCheckin : Time)
    (missedCheckins : Z) (s : serviceRuntime) :
  let missed :=
    if IsZero lastCheckin || (Sub (now w) lastCheckin >? period)
    then wrap64 (missedCheckins + 1) else 0 in
  let healthy := "Healthy: communicating with " +++ name s +++ " service" in
  let degraded :=
    if missed =? 1
    then "Degraded: " +++ name s +++ " service missed 1 check-in"
    else "Degraded: " +++ name s +++ " missed " +++ itoa missed
           +++ " check-ins" in
  let failed :=
    "Failed: " +++ name s +++ " service missed " +++ itoa maxCheckinMisses
      +++ " check-ins" in
  checkStatus w period lastCheckin missedCheckins s =
  if isRunning s then
    if missed =? 0 then
      (missed,
       withState s (fst (state_compState UnitStateHealthy healthy (state s))),
       comped UnitStateHealthy healthy (state s))
    else if (missed >? 0) && (missed <? maxCheckinMisses) then
      (missed,
       withState s (fst (state_compState UnitStateDegraded degraded (state s))),
       comped UnitStateDegraded degraded (state s))
    else if missed >=? maxCheckinMisses then
      (missed,
       withState s (fst (forceState UnitStateFailed failed (state s))),
       forced UnitStateFailed failed (state s))
    else (missed, s, [])
  else (missedCheckins, s, []).
Proof.
  intros missed healthy degraded failed.
  unfold checkStatus.
  unfold bind at 1. unfold gets at 1. cbv beta iota.
  destruct (isRunning s); [|reflexivity].
  cbv zeta.
  assert (Hm : (if IsZero lastCheckin then wrap64 (missedCheckins + 1)
                else if Sub (now w) lastCheckin >? period
                     then wrap64 (missedCheckins + 1)
                     else if Sub (now w) lastCheckin <=? period then 0
                          else missedCheckins) = missed).
  { subst missed. destruct (IsZero lastCheckin); [reflexivity|].
    cbn [orb].
    destruct (Sub (now w) lastCheckin >? period) eqn:E1; [reflexivity|].
    destruct (Sub (now w) lastCheckin <=? period) eqn:E2; [reflexivity|].
    rewrite Z.gtb_ltb in E1. apply Z.ltb_ge in E1. apply Z.leb_gt in E2. lia. }
  rewrite Hm. clearbody missed. clear Hm.
  unfold bind at 1.
  destruct (missed =? 0).
  - rewrite (compState_run UnitStateHealthy healthy) by reflexivity.
    unfold ret. now rewrite app_nil_r.
  - destruct ((missed >? 0) && (missed <? maxCheckinMisses)).
    + rewrite (compState_run UnitStateDegraded degraded) by reflexivity.
      unfold ret. now rewrite app_nil_r.
    + destruct (missed >=? maxCheckinMisses).
      * unfold bind at 1. unfold gets at 1. cbv beta iota.
        rewrite forceCompState_run. unfold ret. cbn [app].
        fold failed. now rewrite !app_nil_r.
      * reflexivity.
Qed.

(** The timer branch of the loop: [checkStatus], then the timer is
    re-armed. *)
Lemma Run_iteration_timerFired (w : oracle) (s : serviceRuntime) (l : locals) :
  checkinTimer l <> None ->
  Run_iteration w timerFired s l =
  Some (snd (fst (checkStatus w (checkinPeriod s) (lastCheckin l)
                    (missedCheckins l) s)),
        {| cis := cis l; lastCheckin := lastCheckin l;
           missedCheckins :=
             fst (fst (checkStatus w (checkinPeriod s) (lastCheckin l)
                         (missedCheckins l) s));
           checkinTimer := Some (checkinPeriod s) |},
        snd (checkStatus w (checkinPeriod s) (lastCheckin l)
               (missedCheckins l) s) ++ [EvTimerReset (checkinPeriod s)],
        None).
Proof.
  intro Harmed. unfold Run_iteration.
  destruct (checkinTimer l) as [d|]; [|congruence].
  assert (Hc : comp (snd (fst (checkStatus w (checkinPeriod s) (lastCheckin l)
                                 (missedCheckins l) s))) = comp s).
  { rewrite checkStatus_run. cbv zeta.
    repeat match goal with
           | |- context [if ?b then _ else _] => destruct b
           end; reflexivity. }
  destruct (checkStatus w (checkinPeriod s) (lastCheckin l) (missedCheckins l) s)
    as [[n s'] e1].
  cbn [fst snd] in *. unfold timerReset, setCheckinTimer, setMissedCheckins.
  cbn [cis lastCheckin missedCheckins checkinTimer].
  unfold checkinPeriod. rewrite Hc. reflexivity.
Qed.

(** A tick of a running supervisor: the counter it leaves and the state it
    derives from that counter. *)
Lemma tick_run (w : oracle) (s : serviceRuntime) (l : locals) :
  isRunning s = true -> checkinTimer l <> None ->
  let missed :=
    if IsZero (lastCheckin l)
       || (Sub (now w) (lastCheckin l) >? checkinPeriod s)
    then wrap64 (missedCheckins l + 1) else 0 in
  exists s' l' log,
    Run_iteration w timerFired s l = Some (s', l', log, None) /\
    comp s' = comp s /\ cis l' = cis l /\ lastCheckin l' = lastCheckin l /\
    missedCheckins l' = missed /\ checkinTimer l' = Some (checkinPeriod s) /\
    (missed = 0 ->
     State (state s') = UnitStateHealthy /\
     Message (state s') =
       "Healthy: communicating with " +++ name s +++ " service") /\
    (1 <= missed < maxCheckinMisses ->
     State (state s') = UnitStateDegraded /\
     Message (state s') =
       if missed =? 1
       then "Degraded: " +++ name s +++ " service missed 1 check-in"
       else "Degraded: " +++ name s +++ " missed " +++ itoa missed
              +++ " check-ins") /\
    (maxCheckinMisses <= missed ->
     State (state s') = UnitStateFailed /\
     Message (state s') =
       "Failed: " +++ name s +++ " service missed " +++ itoa maxCheckinMisses
         +++ " check-ins") /\
    (missed < 0 -> state s' = state s).
Proof.
  intros Hrun Harmed missed.
  rewrite (Run_iteration_timerFired w s l Harmed).
  rewrite checkStatus_run. cbv zeta. fold missed. rewrite Hrun.
  eexists; eexists; eexists. split; [reflexivity|].
  cbn [cis lastCheckin missedCheckins checkinTimer].
  destruct (missed =? 0) eqn:E0.
  - apply Z.eqb_eq in E0. cbn [fst snd comp withState state].
    split_all; try reflexivity; try (unfold maxCheckinMisses in *; lia); try apply state_compState_post.
  - apply Z.eqb_neq in E0.
    destruct ((missed >? 0) && (missed <? maxCheckinMisses)) eqn:E1.
    + apply andb_prop in E1. destruct E1 as [E1 E2].
      rewrite Z.gtb_ltb in E1. apply Z.ltb_lt in E1. apply Z.ltb_lt in E2.
      cbn [fst snd comp withState state].
      split_all; try reflexivity; try (unfold maxCheckinMisses in *; lia); try apply state_compState_post.
    + apply andb_false_iff in E1.
      assert (E1' : missed <= 0 \/ maxCheckinMisses <= missed).
      { destruct E1 as [E1 | E1].
        - left. rewrite Z.gtb_ltb in E1. apply Z.ltb_ge in E1. exact E1.
        - right. apply Z.ltb_ge in E1. exact E1. }
      destruct (missed >=? maxCheckinMisses) eqn:E2.
      * rewrite Z.geb_leb in E2. apply Z.leb_le in E2.
        cbn [fst snd comp withState state].
        unfold maxCheckinMisses in *.
        split_all; try reflexivity; try (unfold maxCheckinMisses in *; lia); try apply forceState_post.
      * rewrite Z.geb_leb in E2. apply Z.leb_gt in E2.
        cbn [fst snd comp withState state].
        split_all; try reflexivity; try lia.
Qed.

End Watchdog.

Section Ladder.

Context {U CheckinObs CheckinExp : Type} {ops : StateOps U CheckinObs CheckinExp}.

Lemma isRunning_State (s : @serviceRuntime U) (st : UnitState) :
  State (state s) = st ->
  st <> UnitStateStopping -> st <> UnitStateStopped -> isRunning s = true.
Proof.
  intros <- H1 H2. unfold isRunning.
  apply UnitState_eqb_neq in H1, H2. now rewrite H1, H2.
Qed.

(** [k] ticks of a supervisor that never saw a check-in. *)
Lemma ticks_never_checked_in (ws : nat -> oracle) (k : nat)
    (s : serviceRuntime) (l : locals) :
  isRunning s = true -> lastCheckin l = zeroTime -> missedCheckins l = 0 ->
  checkinTimer l <> None -> Z.of_nat k <= maxInt64 ->
  exists s' l',
    ticks ws k s l = Some (s', l') /\
    comp s' = comp s /\ lastCheckin l' = zeroTime /\
    missedCheckins l' = Z.of_nat k /\ checkinTimer l' <> None /\
    isRunning s' = true /\
    (k = 0%nat -> s' = s /\ l' = l) /\
    ((0 < k)%nat ->
     State (state s') =
       if Z.of_nat k <? maxCheckinMisses then UnitStateDegraded
       else UnitStateFailed).
Proof.
  intros Hrun Hlast Hm Harmed. induction k as [|k IH]; intro Hk.
  - exists s, l. cbn [ticks]. repeat split; auto; lia.
  - destruct IH as (s1 & l1 & Ht & Hc & Hl & Hm1 & Ha & Hr & _ & _); [lia|].
    destruct (tick_run (ws k) s1 l1 Hr Ha)
      as (s2 & l2 & log & Hi & Hc2 & _ & Hl2 & Hm2 & Ha2 & _ & Hd & Hf & _).
    rewrite Hl in Hm2. cbn [IsZero zeroTime Z.eqb orb] in Hm2.
    rewrite Hm1 in Hm2. rewrite wrap64_id in Hm2
      by (unfold minInt64, maxInt64 in *; lia).
    rewrite Hl, Hm1 in Hd, Hf. cbn [IsZero zeroTime Z.eqb orb] in Hd, Hf.
    rewrite wrap64_id in Hd, Hf by (unfold minInt64, maxInt64 in *; lia).
    assert (HS : State (state s2) =
                 if Z.of_nat (S k) <? maxCheckinMisses then UnitStateDegraded
                 else UnitStateFailed).
    { replace (Z.of_nat (S k)) with (Z.of_nat k + 1) by lia.
      destruct (Z.of_nat k + 1 <? maxCheckinMisses) eqn:E.
      - apply Z.ltb_lt in E. apply Hd. lia.
      - apply Z.ltb_ge in E. apply Hf. lia. }
    exists s2, l2. cbn [ticks]. rewrite Ht, Hi.
    split; [reflexivity|]. split; [congruence|]. split; [congruence|].
    split; [rewrite Hm2; lia|]. split; [congruence|].
    split.
    + destruct (Z.of_nat (S k) <? maxCheckinMisses);
        eapply isRunning_State; try exact HS; discriminate.
    + split; [discriminate | intros _; exact HS].
Qed.

(** C2. The degradation ladder.  With no check-in ever processed, after
    [k] ticks ([k] within the range of [int]) [missedCheckins] is [k]; for
    [k >= 1] the state is [Degraded] iff [k < maxCheckinMisses], [Failed]
    iff [k >= maxCheckinMisses] and never [Healthy]; after no tick the
    state is the one the run began in.  Each tick of a running supervisor
    increments the counter when [lastCheckin] is zero or
    [now - lastCheckin > checkinPeriod] and resets it to 0 otherwise, and
    the state it derives is [Healthy] iff the counter it leaves is 0,
    [Degraded] iff it is in [1, maxCheckinMisses) and [Failed] iff it is at
    least [maxCheckinMisses]. *)
Theorem degradation_ladder (ws : nat -> oracle) (k : nat)
    (s : serviceRuntime) (l : locals)
    (Hvalid : validComponent (comp s) = true)
    (Hrun : isRunning s = true)
    (Hnever : lastCheckin l = zeroTime)
    (Hzero : missedCheckins l = 0)
    (Harmed : checkinTimer l <> None)
    (Hk : Z.of_nat k <= maxInt64) :
  (exists s' l',
     ticks ws k s l = Some (s', l') /\
     missedCheckins l' = Z.of_nat k /\
     (k = 0%nat -> s' = s /\ l' = l) /\
     ((0 < k)%nat ->
      (State (state s') = UnitStateDegraded <->
       Z.of_nat k < maxCheckinMisses) /\
      (State (state s') = UnitStateFailed <->
       maxCheckinMisses <= Z.of_nat k) /\
      State (state s') <> UnitStateHealthy)) /\
  (forall (w : oracle) (s1 : serviceRuntime) (l1 : locals),
     isRunning s1 = true -> checkinTimer l1 <> None ->
     exists s2 l2 log,
       Run_iteration w timerFired s1 l1 = Some (s2, l2, log, None) /\
       missedCheckins l2 =
         (if IsZero (lastCheckin l1)
             || (Sub (now w) (lastCheckin l1) >? checkinPeriod s1)
          then wrap64 (missedCheckins l1 + 1) else 0) /\
       (0 <= missedCheckins l2 ->
        (State (state s2) = UnitStateHealthy <-> missedCheckins l2 = 0) /\
        (State (state s2) = UnitStateDegraded <->
         0 < missedCheckins l2 < maxCheckinMisses) /\
        (State (state s2) = UnitStateFailed <->
         maxCheckinMisses <= missedCheckins l2))).
Proof.
  clear Hvalid. split.
  - destruct (ticks_never_checked_in ws k s l Hrun Hnever Hzero Harmed Hk)
      as (s' & l' & Ht & _ & _ & Hm & _ & _ & H0 & HS).
    exists s', l'. split; [exact Ht|]. split; [exact Hm|]. split; [exact H0|].
    intro Hpos. specialize (HS Hpos).
    destruct (Z.of_nat k <? maxCheckinMisses) eqn:E.
    + apply Z.ltb_lt in E. rewrite HS.
      split; [tauto|]. split; [|discriminate].
      split; [discriminate | lia].
    + apply Z.ltb_ge in E. rewrite HS.
      split; [split; [discriminate | lia]|]. split; [tauto | discriminate].
  - intros w s1 l1 Hr Ha.
    destruct (tick_run w s1 l1 Hr Ha)
      as (s2 & l2 & log & Hi & _ & _ & _ & Hm & _ & Hh & Hd & Hf & _).
    exists s2, l2, log. split; [exact Hi|]. split; [exact Hm|].
    rewrite Hm. clear Hm. cbv zeta in Hh, Hd, Hf.
    match type of Hh with
    | ?m = 0 -> _ => set (missed := m) in *
    end.
    clearbody missed.
    intro Hge.
    assert (Hcases : missed = 0 \/ 1 <= missed < maxCheckinMisses \/
                     maxCheckinMisses <= missed)
      by (unfold maxCheckinMisses; lia).
    destruct Hcases as [H | [H | H]].
    + destruct (Hh H) as [-> _].
      split; [tauto|]. unfold maxCheckinMisses.
      split; (split; [discriminate | lia]).
    + destruct (Hd H) as [-> _].
      split; [split; [discriminate | lia]|].
      split; [split; [lia | reflexivity]|].
      split; [discriminate | lia].
    + destruct (Hf H) as [-> _]. unfold maxCheckinMisses in *.
      split; [split; [discriminate | lia]|].
      split; [split; [discriminate | lia]|]. tauto.
Qed.

End Ladder.

Section Messages.

Context {U CheckinObs CheckinExp : Type} {ops : StateOps U CheckinObs CheckinExp}.

(** C7. A tick that leaves [1 <= missedCheckins < maxCheckinMisses] sets
    the state to [Degraded]; the message is
    "Degraded: <name> service missed 1 check-in" when the counter is 1 and
    "Degraded: <name> missed N check-ins", without the word "service", for
    every other N. *)
Theorem degraded_message (w : oracle) (s : serviceRuntime) (l : locals)
    (Hvalid : validComponent (comp s) = true)
    (Hrun : isRunning s = true)
    (Harmed : checkinTimer l <> None) :
  let missed :=
    if IsZero (lastCheckin l)
       || (Sub (now w) (lastCheckin l) >? checkinPeriod s)
    then wrap64 (missedCheckins l + 1) else 0 in
  1 <= missed < maxCheckinMisses ->
  exists s' l' log,
    Run_iteration w timerFired s l = Some (s', l', log, None) /\
    missedCheckins l' = missed /\
    State (state s') = UnitStateDegraded /\
    Message (state s') =
      if missed =? 1
      then "Degraded: " +++ name s +++ " service missed 1 check-in"
      else "Degraded: " +++ name s +++ " missed " +++ itoa missed
             +++ " check-ins".
Proof.
  intros missed Hmissed. clear Hvalid.
  destruct (tick_run w s l Hrun Harmed)
    as (s' & l' & log & Hi & _ & _ & _ & Hm & _ & _ & Hd & _).
  exists s', l', log. split; [exact Hi|]. split; [exact Hm|].
  exact (Hd Hmissed).
Qed.

(** C10. [Failed] counts as running, so a check-in that arrives in state
    [Failed] is processed and sets [lastCheckin]; a tick within
    [checkinPeriod] of that check-in then resets [missedCheckins] to 0 and
    sets the state to [Healthy].  No action is involved. *)
Theorem failed_recovers_on_checkin {frame : StateOpsFrame ops}
    (w1 w2 : oracle) (checkin : CheckinObs)
    (s : serviceRuntime) (l : locals)
    (Hvalid : validComponent (comp s) = true)
    (Hfailed : State (state s) = UnitStateFailed)
    (Harmed : checkinTimer l <> None)
    (Hclock : IsZero (now w1) = false)
    (Hwithin : Sub (now w2) (now w1) <= checkinPeriod s) :
  isRunning s = true /\
  exists s1 l1 log1 s2 l2 log2,
    Run_iteration w1 (recvCheckin checkin) s l = Some (s1, l1, log1, None) /\
    lastCheckin l1 = now w1 /\
    State (state s1) = UnitStateFailed /\
    Run_iteration w2 timerFired s1 l1 = Some (s2, l2, log2, None) /\
    missedCheckins l2 = 0 /\
    State (state s2) = UnitStateHealthy /\
    Message (state s2) =
      "Healthy: communicating with " +++ name s +++ " service".
Proof.
  clear Hvalid.
  assert (Hrun : isRunning s = true)
    by (eapply isRunning_State; [exact Hfailed | discriminate | discriminate]).
  split; [exact Hrun|].
  unfold Run_iteration at 1. rewrite processCheckin_run. cbv zeta.
  rewrite Hrun.
  assert (H0 : afterFirstCheckin s = state s).
  { unfold afterFirstCheckin. now rewrite Hfailed. }
  rewrite H0.
  set (cs1 := fst (syncCheckin checkin (state s))).
  set (cs2 := fst (cleanupStopped cs1)).
  assert (HS2 : State cs2 = UnitStateFailed).
  { subst cs2 cs1. now rewrite cleanupStopped_State, syncCheckin_State. }
  set (s1 := withState s cs2).
  set (l1 := setLastCheckin (now w1) l).
  assert (Hrun1 : isRunning s1 = true)
    by (eapply isRunning_State; [exact HS2 | discriminate | discriminate]).
  assert (Harmed1 : checkinTimer l1 <> None) by exact Harmed.
  destruct (tick_run w2 s1 l1 Hrun1 Harmed1)
    as (s2 & l2 & log2 & Hi & _ & _ & _ & Hm & _ & Hh & _).
  cbv zeta in Hh.
  assert (Hmissed :
            (if IsZero (lastCheckin l1)
                || (Sub (now w2) (lastCheckin l1) >? checkinPeriod s1)
             then wrap64 (missedCheckins l1 + 1) else 0) = 0).
  { cbn [l1 lastCheckin setLastCheckin]. rewrite Hclock. cbn [orb].
    change (checkinPeriod s1) with (checkinPeriod s).
    rewrite Z.gtb_ltb.
    destruct (checkinPeriod s <? Sub (now w2) (now w1)) eqn:E;
      [apply Z.ltb_lt in E; lia | reflexivity]. }
  rewrite Hmissed in Hm. specialize (Hh Hmissed).
  eexists s1, l1, _, s2, l2, log2.
  split; [reflexivity|]. split; [reflexivity|]. split; [exact HS2|].
  split; [exact Hi|]. split; [exact Hm|]. exact Hh.
Qed.

End Messages.

(** ** Who writes [State] *)

Section Mutators.

Context {U CheckinObs CheckinExp : Type} {ops : StateOps U CheckinObs CheckinExp}.

Local Abbreviation events := (list (@event U CheckinObs CheckinExp)).

Lemma state_compState_unchanged (st : UnitState) (msg : string)
    (cs : ComponentState U) :
  snd (state_compState st msg cs) = false ->
  fst (state_compState st msg cs) = cs.
Proof.
  unfold state_compState.
  destruct (negb _ || negb _); [discriminate | reflexivity].
Qed.

Lemma forceState_unchanged (st : UnitState) (msg : string)
    (cs : ComponentState U) :
  snd (forceState st msg cs) = false ->
  State (fst (forceState st msg cs)) = State cs.
Proof.
  unfold forceState.
  pose proof (state_compState_unchanged st msg cs) as H.
  destruct (state_compState st msg cs) as [cs1 c1].
  destruct (clearUnits st msg (Units cs1)) as [u c2].
  cbn [fst snd] in *. intro Hc. apply orb_false_elim in Hc.
  destruct Hc as [Hc _]. now rewrite (H Hc).
Qed.

Lemma processNewComp_run (w : oracle) (newComp : Component)
    (s : serviceRuntime) :
  let cs1 := fst (syncExpected newComp (state s)) in
  let sendExpected := snd (syncExpected newComp (state s)) in
  let cs2 := fst (syncUnits newComp cs1) in
  let changed := snd (syncUnits newComp cs1) in
  processNewComp newComp s =
  (tt, withState s cs2,
   (if sendExpected || unsettled cs2
    then [EvCheckinExpected (toCheckinExpected cs2) None] else []) ++
   (if changed then [EvObserved cs2] else []) : events).
Proof.
  intros cs1 sendExpected cs2 changed. subst cs1 sendExpected cs2 changed.
  unfold processNewComp. run_monad.
  repeat (run_case; run_monad); reflexivity.
Qed.

Ltac log_eval :=
  cbn [existsb app isMutatorChange isMutatorCall isObserved
       observedIffChanged orb andb Bool.eqb negb forced comped executed].

Ltac run_case_eqn :=
  match goal with
  | |- context [match ?x with _ => _ end] =>
      lazymatch x with
      | context [match _ with _ => _ end] => fail
      | _ => destruct x eqn:?
      end
  end.

Ltac step_solve :=
  let Hn := fresh "Hn" in
  split;
  [ intro Hn;
    first [ left; reflexivity
          | exfalso; apply Hn;
            repeat (cbn [state withState withActionCh withCompCh];
                    rewrite ?forceState_unchanged, ?state_compState_unchanged
                      by assumption;
                    rewrite ?syncUnits_State, ?syncExpected_State,
                      ?syncCheckin_State, ?cleanupStopped_State);
            reflexivity ]
  | reflexivity ].

Lemma step_ctxDone (w : oracle) (s s' : serviceRuntime) (l l' : locals)
    (log : events) (r : option error) :
  Run_iteration w ctxDone s l = Some (s', l', log, r) ->
  stepWritesState ctxDone s s' log.
Proof.
  unfold Run_iteration, cisStop, timerStop. intro H.
  destruct (cis l); injection H as <- <- <- <-; split;
    try reflexivity; intro Hn; now elim Hn.
Qed.

Lemma step_actionStart (w : oracle) (s : serviceRuntime) (l : locals) :
  let '(s', _, log, _) := actionStart_spec w s l in
  stepWritesState recvAction s s' log.
Proof.
  unfold actionStart_spec, forced. cbv zeta.
  repeat run_case_eqn; step_solve.
Qed.

Lemma step_actionStop (w : oracle) (as_ : actionMode) (s : serviceRuntime)
    (l : locals) :
  let '(s', _, log, err) := caseActionStop w as_ s l in
  err = None /\ stepWritesState recvAction s s' log.
Proof.
  unfold caseActionStop, timerStop, cisStop.
  cbv beta iota zeta. cbn [cis lastCheckin setCis setCheckinTimer].
  destruct (cis l); cbv beta iota zeta;
    cbn [cis lastCheckin setCis setCheckinTimer];
    rewrite stop_run; cbv zeta; unfold forced;
    (split; [reflexivity|]);
    destruct as_; repeat run_case_eqn; step_solve.
Qed.

Section Frame.

Context {frame : StateOpsFrame ops}.

Lemma step_recvComp (w : oracle) (newComp : Component) (s : serviceRuntime) :
  let '(_, s', log) := processNewComp newComp s in
  stepWritesState recvComp s s' log.
Proof.
  rewrite (processNewComp_run w). cbv zeta.
  repeat run_case_eqn; step_solve.
Qed.

Lemma step_recvCheckin (w : oracle) (checkin : CheckinObs) (t : Time)
    (s : serviceRuntime) :
  let '(_, s', log) := processCheckin w checkin t s in
  stepWritesState (recvCheckin checkin) s s' log.
Proof.
  rewrite processCheckin_run. cbv zeta.
  destruct (isRunning s); [|step_solve].
  unfold afterFirstCheckin.
  destruct (UnitState_eqb (State (state s)) UnitStateStarting) eqn:ES.
  - apply UnitState_eqb_eq in ES. cbn [orb].
    repeat run_case_eqn; (split; [|reflexivity]); intros _; right;
      (split; [now exists checkin|]); (split; [exact ES|]);
      cbn [state withState];
      rewrite cleanupStopped_State, syncCheckin_State;
      repeat split; reflexivity.
  - cbn [orb]. repeat run_case_eqn; step_solve.
Qed.

Lemma step_timerFired (w : oracle) (period : Duration) (t : Time) (n : Z)
    (s : serviceRuntime) :
  let '(_, s', log) := checkStatus w period t n s in
  comp s' = comp s /\
  stepWritesState timerFired s s' (log ++ [EvTimerReset (checkinPeriod s)]).
Proof.
  rewrite checkStatus_run. cbv zeta. unfold forced, comped.
  repeat run_case_eqn; (split; [reflexivity|]); step_solve.
Qed.


End Frame.

End Mutators.

(** ** The component is fixed at construction

    [comp] is assigned by [newServiceRuntime] only, so every supervisor the
    loop runs on satisfies [validComponent] and no dereference of
    [InputSpec] or [Service] reads a nil pointer. *)

Section FixedComponent.

Context {U CheckinObs CheckinExp : Type} {ops : StateOps U CheckinObs CheckinExp}.

Lemma newServiceRuntime_valid (c : Component) (s : serviceRuntime) :
  newServiceRuntime c = inr s -> comp s = c /\ validComponent c = true.
Proof.
  unfold newServiceRuntime, validComponent.
  destruct (ShipperSpec c); [discriminate|].
  destruct (InputSpec c) as [i|]; [|discriminate].
  destruct (Service (Spec i)); [|discriminate].
  intro H. injection H as <-. split; reflexivity.
Qed.

Lemma control_surface_comp (s s' : @serviceRuntime U) (c : Component)
    (e : option error) :
  Start s = Some (e, s') \/ Stop s = Some (e, s') \/
  Teardown s = Some (e, s') \/ Update c s = Some (e, s') ->
  comp s' = comp s /\ state s' = state s.
Proof.
  unfold Start, Stop, Teardown, Update, enqueueAction, chanSend, recvOrDefault.
  destruct (actionCh s), (compCh s);
    intros [H | [H | [H | H]]]; injection H as <- <-; split; reflexivity.
Qed.

Lemma Run_iteration_comp (w : oracle) (src : source CheckinObs)
    (s s' : serviceRuntime) (l l' : locals)
    (log : list (@event U CheckinObs CheckinExp)) (r : option error) :
  Run_iteration w src s l = Some (s', l', log, r) -> comp s' = comp s.
Proof.
  destruct src as [| | |checkin|]; unfold Run_iteration.
  - unfold cisStop, timerStop. destruct (cis l);
      intro H; injection H as <- <- <- <-; reflexivity.
  - destruct (actionCh s) as [as_|] eqn:Ha; [|discriminate].
    destruct as_; unfold caseAction.
    + unfold caseActionStop, timerStop, cisStop.
      cbv beta iota zeta. cbn [cis lastCheckin setCis setCheckinTimer].
      destruct (cis l); cbv beta iota zeta;
        cbn [cis lastCheckin setCis setCheckinTimer];
        rewrite stop_run; cbv zeta;
        intro H; injection H as <- <- <- <-; reflexivity.
    + unfold caseActionStop, timerStop, cisStop.
      cbv beta iota zeta. cbn [cis lastCheckin setCis setCheckinTimer].
      destruct (cis l); cbv beta iota zeta;
        cbn [cis lastCheckin setCis setCheckinTimer];
        rewrite stop_run; cbv zeta;
        intro H; injection H as <- <- <- <-; reflexivity.
    + pose proof (Run_iteration_actionStart w (withActionCh None s) l) as R.
      unfold Run_iteration in R. cbn [actionCh withActionCh] in R.
      change (withActionCh None (withActionCh (Some actionStart)
                                   (withActionCh None s)))
        with (withActionCh None s) in R.
      unfold caseAction in R. rewrite R. unfold actionStart_spec. cbv zeta.
      repeat run_case; intro H; injection H as <- <- <- <-; reflexivity.
  - destruct (compCh s) as [newComp|]; [|discriminate].
    rewrite (processNewComp_run w). cbv zeta.
    intro H; injection H as <- <- <- <-; reflexivity.
  - rewrite processCheckin_run. cbv zeta.
    destruct (isRunning s); intro H; injection H as <- <- <- <-; reflexivity.
  - destruct (checkinTimer l); [|discriminate].
    rewrite checkStatus_run. cbv zeta.
    repeat run_case; unfold timerReset;
      intro H; injection H as <- <- <- <-; reflexivity.
Qed.

End FixedComponent.

(** ** The scenarios of the specification, run on the endpoint *)

Example endpoint_constructed :
  newServiceRuntime (ops := noUnits) endpoint = inr endpointStopped.
Proof. reflexivity. Qed.

(** S1, S3 and S4: start, a check-in after one second, then three silent
    ticks. *)
Example scenario_start_checkin_silence :
  watched
    (Run_steps (ops := noUnits)
       [(calm 0, recvAction);
        (calm (1 * Second), recvCheckin tt);
        (calm (40 * Second), timerFired);
        (calm (70 * Second), timerFired);
        (calm (100 * Second), timerFired)]
       (withActionCh (Some actionStart) endpointStopped) idleLocals) =
  [(UnitStateStarting, "Starting: endpoint service runtime");
   (UnitStateHealthy, "Healthy: communicating with endpoint service");
   (UnitStateDegraded, "Degraded: endpoint service missed 1 check-in");
   (UnitStateDegraded, "Degraded: endpoint missed 2 check-ins");
   (UnitStateFailed, "Failed: endpoint service missed 3 check-ins")]%string.
Proof. reflexivity. Qed.

(** S2: [check] fails, [install] runs with retry. *)
Example scenario_install :
  option_map (fun r => filter isExecuteRetry (snd r))
    (Run_steps (ops := noUnits)
       [({| now := 0; newConnInfoServer := fun _ => None;
            executeServiceCommandImpl :=
              fun _ _ shouldRetry =>
                if shouldRetry then None else Some (errorsNew "exit status 1");
            checkinObservedWithin := fun _ => false;
            ctxErr := errorsNew "context canceled" |}, recvAction)]
       (withActionCh (Some actionStart) endpointStopped) idleLocals) =
  Some [EvExecute "/opt/Elastic/Endpoint/endpoint-security"
          {| Args := ["install"; "--log"; "stderr"; "--upgrade"; "--resources";
                      "endpoint-security-resources.zip"]%string;
             Timeout := 600 * Second |} true None].
Proof. reflexivity. Qed.

(** S5 and S6: teardown after a check-in, and before any. *)
Example scenario_teardown_after_checkin :
  option_map snd
    (Run_steps (ops := noUnits) [(failing 9, recvAction)]
       (withActionCh (Some actionTeardown) endpointHealthy)
       (checkedInLocals 5 0)) =
  Some [EvTimerStop; EvCisStop 6788;
        EvForceExpectedState UnitStateStopping;
        EvCheckinExpected UnitStateStopping None;
        EvExecute "/opt/Elastic/Endpoint/endpoint-security"
          {| Args := ["uninstall"; "--log"; "stderr"]%string;
             Timeout := 600 * Second |} true
          (Some (errorsNew "exit status 1"));
        EvForceState UnitStateStopped "Stopped: endpoint service runtime" true;
        EvObserved {| State := UnitStateStopped;
                      Message := "Stopped: endpoint service runtime";
                      ExpectedState := UnitStateStopping; Units := tt |}].
Proof. reflexivity. Qed.

Example scenario_teardown_before_checkin :
  option_map snd
    (Run_steps (ops := noUnits) [(calm 9, recvAction)]
       (withActionCh (Some actionTeardown) endpointStarting) startedLocals) =
  Some [EvTimerStop; EvCisStop 6788;
        EvAwaitCheckin defaultCheckServiceStatusInterval false;
        EvExecute "/opt/Elastic/Endpoint/endpoint-security"
          {| Args := ["uninstall"; "--log"; "stderr"]%string;
             Timeout := 600 * Second |} true None;
        EvForceState UnitStateStopped "Stopped: endpoint service runtime" true;
        EvObserved {| State := UnitStateStopped;
                      Message := "Stopped: endpoint service runtime";
                      ExpectedState := UnitStateHealthy; Units := tt |}].
Proof. reflexivity. Qed.

(** A second teardown in a row changes nothing and sends no observation. *)
Example scenario_teardown_twice :
  watched
    (Run_steps (ops := noUnits) [(calm 9, recvAction)]
       (withActionCh (Some actionTeardown)
          (endpointIn UnitStateStopped "Stopped: endpoint service runtime"))
       idleLocals) = [].
Proof. reflexivity. Qed.

(** ** The endpoint supervisor, run

    The theorems above at concrete inputs: the hypotheses are discharged by
    evaluation. *)

#[export] Instance noUnits_frame : StateOpsFrame noUnits.
Proof. split; reflexivity. Qed.

Lemma actionStart_sequence_witness :
  validComponent (comp endpointStopped) = true /\
  Run_iteration (calm 1) recvAction
    (withActionCh (Some actionStart) endpointStopped) idleLocals =
  Some (withActionCh None endpointStarting,
        startedLocals,
        [EvTimerStop; EvNewConnInfoServer 6788 None;
         EvForceState UnitStateStarting "Starting: endpoint service runtime" true;
         EvObserved (state endpointStarting);
         EvExecute "/opt/Elastic/Endpoint/endpoint-security"
           {| Args := ["verify"; "--log"; "stderr"]%string;
              Timeout := 30 * Second |} false None;
         EvTimerReset defaultCheckServiceStatusInterval],
        None).
Proof.
  split; [reflexivity|].
  exact (proj1 (actionStart_sequence (ops := noUnits) (calm 1)
                  endpointStopped idleLocals eq_refl)).
Defined.

Lemma teardown_reaches_Stopped_witness :
  validComponent (comp endpointHealthy) = true /\
  exists s' l' pre changed,
    Run_iteration (failing 9) recvAction
      (withActionCh (Some actionTeardown) endpointHealthy)
      (checkedInLocals 5 0) =
    Some (s', l',
          pre ++ EvForceState UnitStateStopped
                   "Stopped: endpoint service runtime" changed
              :: (if changed then [EvObserved (state s')] else []),
          None) /\
    State (state s') = UnitStateStopped /\
    Message (state s') = "Stopped: endpoint service runtime"%string.
Proof.
  split; [reflexivity|].
  destruct (teardown_reaches_Stopped (ops := noUnits) (failing 9)
              endpointHealthy (checkedInLocals 5 0) eq_refl)
    as (s' & l' & pre & changed & H & HS & HM & _).
  exists s', l', pre, changed. split; [exact H|]. split; [exact HS | exact HM].
Defined.

Lemma checkin_processing_witness :
  validComponent (comp endpointStarting) = true /\
  Run_iteration (calm 7) (recvCheckin tt) endpointStarting startedLocals =
  Some (endpointHealthy, checkedInLocals 7 0,
        [EvCheckinExpected UnitStateHealthy (Some tt);
         EvObserved (state endpointHealthy)],
        None).
Proof.
  split; [reflexivity|].
  refine (proj2 (checkin_processing (ops := noUnits) (calm 7) tt
                   endpointStarting startedLocals eq_refl) _ _);
    discriminate.
Defined.

Lemma undefined_operation_spec_witness :
  validComponent (comp endpointNoInstallStopped) = true /\
  exists s' l' log,
    Run_iteration (failing 1) recvAction
      (withActionCh (Some actionStart) endpointNoInstallStopped) idleLocals =
      Some (s', l', log, None) /\
    State (state s') = UnitStateFailed /\
    Message (state s') =
      "failed install endpoint service: operation spec undefined"%string.
Proof.
  split; [reflexivity|].
  destruct (undefined_operation_spec (ops := noUnits) (failing 1)
              endpointNoInstallStopped idleLocals eq_refl)
    as (_ & _ & _ & H).
  destruct H as (s' & l' & log & H & HS & HM & _);
    [reflexivity | reflexivity | discriminate |].
  exists s', l', log. split; [exact H|]. split; [exact HS | exact HM].
Defined.

Lemma degraded_message_witness :
  validComponent endpoint = true /\
  exists s' l' log,
    Run_iteration (calm (70 * Second)) timerFired
      (endpointIn UnitStateDegraded
         "Degraded: endpoint service missed 1 check-in")
      (checkedInLocals (1 * Second) 1) = Some (s', l', log, None) /\
    missedCheckins l' = 2 /\
    State (state s') = UnitStateDegraded /\
    Message (state s') = "Degraded: endpoint missed 2 check-ins"%string.
Proof.
  split; [reflexivity|].
  refine (degraded_message (ops := noUnits) (calm (70 * Second))
            (endpointIn UnitStateDegraded
               "Degraded: endpoint service missed 1 check-in")
            (checkedInLocals (1 * Second) 1) eq_refl eq_refl _ _).
  - discriminate.
  - change (1 <= 2 < 3). lia.
Defined.

Lemma failed_recovers_on_checkin_witness :
  validComponent endpoint = true /\
  exists s1 l1 log1 s2 l2 log2,
    Run_iteration (calm (100 * Second)) (recvCheckin tt)
      (endpointIn UnitStateFailed "Failed: endpoint service missed 3 check-ins")
      (checkedInLocals 0 3) = Some (s1, l1, log1, None) /\
    lastCheckin l1 = 100 * Second /\
    State (state s1) = UnitStateFailed /\
    Run_iteration (calm (120 * Second)) timerFired s1 l1 =
      Some (s2, l2, log2, None) /\
    missedCheckins l2 = 0 /\
    State (state s2) = UnitStateHealthy /\
    Message (state s2) =
      "Healthy: communicating with endpoint service"%string.
Proof.
  split; [reflexivity|].
  refine (proj2 (failed_recovers_on_checkin (ops := noUnits)
                   (calm (100 * Second)) (calm (120 * Second)) tt
                   (endpointIn UnitStateFailed
                      "Failed: endpoint service missed 3 check-ins")
                   (checkedInLocals 0 3) eq_refl eq_refl _ eq_refl _)).
  - discriminate.
  - change (20 * Second <= 30 * Second). unfold Second. lia.
Defined.

Lemma degradation_ladder_witness :
  validComponent endpoint = true /\
  exists s' l',
    ticks (ops := noUnits) (fun i => calm (Z.of_nat i * 30 * Second)) 3
      endpointStarting startedLocals = Some (s', l') /\
    missedCheckins l' = 3 /\
    State (state s') = UnitStateFailed.
Proof.
  split; [reflexivity|].
  destruct (degradation_ladder (ops := noUnits)
              (fun i => calm (Z.of_nat i * 30 * Second)) 3
              endpointStarting startedLocals)
    as [(s' & l' & H & Hm & _ & HS) _];
    try reflexivity; try discriminate.
  exists s', l'. split; [exact H|]. split; [exact Hm|].
  apply (HS ltac:(lia)). unfold maxCheckinMisses. cbn. lia.
Defined.


(** ** Where the specification and the code part *)

(** C2, as the specification states it, fails before the first tick: the
    endpoint supervisor is constructed, [Start] is called and the loop takes
    the action; it is then running, no check-in was processed and no tick
    has fired, and the state is [Starting], not [Healthy].  And the counter
    is an [int]: a tick at [missedCheckins = maxInt64] leaves [minInt64]. *)
Lemma ladder_not_Healthy_before_first_tick :
  (exists s0 s1 s2 l2 log,
     newServiceRuntime (ops := noUnits) endpoint = inr s0 /\
     Start s0 = Some (None, s1) /\
     Run_iteration (calm 1) recvAction s1 (fst (@Run_enter unit unit UnitState s1)) =
       Some (s2, l2, log, None) /\
     isRunning s2 = true /\ lastCheckin l2 = zeroTime /\
     ticks (fun _ => calm 1) 0 s2 l2 = Some (s2, l2) /\
     missedCheckins l2 = 0 /\
     State (state s2) = UnitStateStarting /\
     ~ (State (state s2) = UnitStateHealthy <-> 0%nat = 0%nat)) /\
  (exists s' l' log,
     Run_iteration (calm 1) timerFired
       (endpointIn UnitStateFailed "Failed: endpoint service missed 3 check-ins")
       (checkedInLocals zeroTime maxInt64) = Some (s', l', log, None) /\
     missedCheckins l' = minInt64 /\ missedCheckins l' <> maxInt64 + 1).
Proof.
  split.
  - do 5 eexists.
    split; [reflexivity|]. split; [reflexivity|]. split; [reflexivity|].
    split; [reflexivity|]. split; [reflexivity|]. split; [reflexivity|].
    split; [reflexivity|]. split; [reflexivity|].
    intros [_ H]. specialize (H eq_refl). discriminate H.
  - do 3 eexists. split; [reflexivity|]. split; [reflexivity|]. discriminate.
Qed.


(** * More of the supervisor *)

Section LoopBranches.

Context {U CheckinObs CheckinExp : Type} {ops : StateOps U CheckinObs CheckinExp}.

Variable w : oracle.

Local Abbreviation events := (list (@event U CheckinObs CheckinExp)).

(** X1. A component update taken by the loop empties the update channel,
    reconciles the expected side and then the units, sends
    [CheckinExpected] iff [syncExpected] asked for it or the state is
    unsettled afterwards, and sends one observation iff [syncUnits] reported
    a change.  It calls no mutator of [State] and leaves the frame of [Run]
    (timer, server, [lastCheckin], [missedCheckins]) as it was. *)
Theorem update_processing (newComp : Component) (s : serviceRuntime)
    (l : locals) (Hvalid : validComponent (comp s) = true) :
  let cs1 := fst (syncExpected newComp (state s)) in
  let sendExpected := snd (syncExpected newComp (state s)) in
  let cs2 := fst (syncUnits newComp cs1) in
  let changed := snd (syncUnits newComp cs1) in
  exists log,
    Run_iteration w recvComp (withCompCh (Some newComp) s) l =
      Some (withState (withCompCh None s) cs2, l, log, None) /\
    filter isCheckinExpected log =
      (if sendExpected || unsettled cs2
       then [EvCheckinExpected (toCheckinExpected cs2) None] else []) /\
    observations log = (if changed then [cs2] else []) /\
    filter isMutatorCall log = [] /\
    comp (withState (withCompCh None s) cs2) = comp s.
Proof.
  intros cs1 sendExpected cs2 changed. clear Hvalid.
  unfold Run_iteration. cbn [compCh withCompCh].
  change (withCompCh None (withCompCh (Some newComp) s))
    with (withCompCh None s).
  rewrite (processNewComp_run w). cbv zeta. cbn [state withCompCh].
  fold cs1 sendExpected cs2 changed.
  eexists. split; [reflexivity|].
  destruct (sendExpected || unsettled cs2), changed; repeat split; reflexivity.
Qed.

(** X2. When the context is done [Run] returns [ctx.Err()]; the deferred
    calls stop the connection info server, if one is up, and the timer.
    The state is not touched and nothing is observed. *)
Theorem context_done_releases (s : serviceRuntime) (l : locals) :
  exists l' log,
    Run_iteration w ctxDone s l = Some (s, l', log, Some (ctxErr w)) /\
    cis l' = None /\ checkinTimer l' = None /\
    lastCheckin l' = lastCheckin l /\ missedCheckins l' = missedCheckins l /\
    (forall c, cis l = Some c -> In (EvCisStop (port c)) log) /\
    (cis l = None -> log = [EvTimerStop]) /\
    observations log = [] /\ filter isMutatorCall log = [].
Proof.
  unfold Run_iteration, cisStop, timerStop.
  destruct l as [[c|] lt lm ltm]; cbn [cis]; eexists; eexists;
    (split; [reflexivity|]);
    cbn [cis checkinTimer lastCheckin missedCheckins setCis setCheckinTimer];
    repeat split; try reflexivity; try discriminate.
  intros c0 H. injection H as <-. left. reflexivity.
Qed.

(** X3. A [Stop] taken by the loop stops the timer and the server and
    forces [Stopped].  It runs no service command, does not wait for a
    check-in, sends no [CheckinExpected] and leaves [ExpectedState],
    [lastCheckin] and [missedCheckins] as they were. *)
Theorem stop_only_forces_Stopped (s : serviceRuntime) (l : locals)
    (Hvalid : validComponent (comp s) = true) :
  exists s' l' log,
    Run_iteration w recvAction (withActionCh (Some actionStop) s) l =
      Some (s', l', log, None) /\
    State (state s') = UnitStateStopped /\
    Message (state s') = "Stopped: " +++ name s +++ " service runtime" /\
    ExpectedState (state s') = ExpectedState (state s) /\
    cis l' = None /\ checkinTimer l' = None /\
    lastCheckin l' = lastCheckin l /\ missedCheckins l' = missedCheckins l /\
    filter isExecute log = [] /\ filter isAwaitCheckin log = [] /\
    filter isCheckinExpected log = [].
Proof.
  clear Hvalid.
  unfold Run_iteration. cbn [actionCh withActionCh].
  change (withActionCh None (withActionCh (Some actionStop) s))
    with (withActionCh None s).
  unfold caseAction, caseActionStop, timerStop, cisStop.
  cbv beta iota zeta. cbn [cis lastCheckin setCis setCheckinTimer].
  set (s0 := withActionCh None s).
  pose proof (stop_run w (lastCheckin l) false s0) as Hstop.
  cbv zeta in Hstop. cbn [andb app] in Hstop.
  change (name s0) with (name s) in Hstop.
  change (state s0) with (state s) in Hstop.
  set (msg := "Stopped: " +++ name s +++ " service runtime") in *.
  destruct (forceState_post UnitStateStopped msg (state s)) as [HS HM].
  assert (HE : ExpectedState (fst (forceState UnitStateStopped msg (state s)))
               = ExpectedState (state s)).
  { unfold forceState, state_compState.
    destruct (negb _ || negb _); cbn [Units];
      destruct (clearUnits _ _ _); reflexivity. }
  destruct l as [[c|] lt lm ltm];
    cbn [cis lastCheckin missedCheckins checkinTimer setCis setCheckinTimer]
      in *;
    rewrite Hstop; cbv beta iota zeta;
    eexists; eexists; eexists; (split; [reflexivity|]);
    cbn [state withState cis lastCheckin missedCheckins checkinTimer];
    (split; [exact HS|]); (split; [exact HM|]); (split; [exact HE|]);
    unfold forced;
    destruct (snd (forceState UnitStateStopped msg (state s)));
    repeat split; reflexivity.
Qed.

(** X4. The handshake of a [Teardown].  The loop waits for a check-in, for
    one [checkinPeriod()], iff the supervisor is running and never saw one;
    it sets [ExpectedState] to [Stopping] and sends [CheckinExpected] iff
    the supervisor is running and a check-in was seen, before or during the
    wait; then it runs [uninstall], with retry, in every case where the
    operation is declared.  These calls happen in that order. *)
Theorem teardown_handshake (s : serviceRuntime) (l : locals)
    (Hvalid : validComponent (comp s) = true) :
  let period := checkinPeriod s in
  let waits := isRunning s && IsZero (lastCheckin l) in
  let checkedIn :=
    if IsZero (lastCheckin l) then checkinObservedWithin w period else true in
  let told := isRunning s && checkedIn in
  exists s' l' log,
    Run_iteration w recvAction (withActionCh (Some actionTeardown) s) l =
      Some (s', l', log, None) /\
    filter (fun e => isAwaitCheckin e || isCheckinExpected e || isExecute e)
           log =
      (if waits
       then [EvAwaitCheckin period (checkinObservedWithin w period)]
       else []) ++
      (if told
       then [EvCheckinExpected
               (toCheckinExpected
                  (forceExpectedState UnitStateStopping (state s))) None]
       else []) ++
      match Uninstall (Operations (derefService (comp s))) with
      | Some spec => [executed w (comp s) spec true]
      | None => []
      end /\
    ExpectedState (state s') =
      (if told then UnitStateStopping else ExpectedState (state s)).
Proof.
  intros period waits checkedIn told. clear Hvalid.
  unfold Run_iteration. cbn [actionCh withActionCh].
  change (withActionCh None (withActionCh (Some actionTeardown) s))
    with (withActionCh None s).
  unfold caseAction, caseActionStop, timerStop, cisStop.
  cbv beta iota zeta. cbn [cis lastCheckin setCis setCheckinTimer].
  set (s0 := withActionCh None s).
  pose proof (stop_run w (lastCheckin l) true s0) as Hstop.
  cbv zeta in Hstop. cbn [andb] in Hstop.
  change (name s0) with (name s) in Hstop.
  change (state s0) with (state s) in Hstop.
  change (comp s0) with (comp s) in Hstop.
  change (checkinPeriod s0) with period in Hstop.
  change (isRunning s0) with (isRunning s) in Hstop.
  fold checkedIn in Hstop. fold told in Hstop.
  set (msg := "Stopped: " +++ name s +++ " service runtime") in *.
  assert (HE : forall cs,
             ExpectedState (fst (forceState UnitStateStopped msg cs))
             = ExpectedState cs).
  { intro cs. unfold forceState, state_compState.
    destruct (negb _ || negb _); cbn [Units];
      destruct (clearUnits _ _ _); reflexivity. }
  destruct l as [[c|] lt lm ltm];
    cbn [cis lastCheckin missedCheckins checkinTimer setCis setCheckinTimer]
      in *;
    rewrite Hstop; cbv beta iota zeta;
    eexists; eexists; eexists; (split; [reflexivity|]);
    cbn [state withState]; rewrite HE; unfold forced, executed;
    subst waits told checkedIn;
    destruct (isRunning s), (IsZero lt), (checkinObservedWithin w period),
      (Uninstall (Operations (derefService (comp s)))),
      (snd (forceState UnitStateStopped msg _));
    split; reflexivity.
Qed.

End LoopBranches.

(** ** Invariants of the loop *)

Section Invariants.

Context {U CheckinObs CheckinExp : Type} {ops : StateOps U CheckinObs CheckinExp}.
Context {frame : StateOpsFrame ops}.

Local Abbreviation events := (list (@event U CheckinObs CheckinExp)).

Lemma isRunning_withState (s : serviceRuntime) (cs : ComponentState U) :
  State cs = State (state s) -> isRunning (withState s cs) = isRunning s.
Proof. unfold isRunning. cbn [state withState]. now intros ->. Qed.

Lemma afterFirstCheckin_running (s : serviceRuntime) (cs : ComponentState U) :
  isRunning s = true -> State cs = State (afterFirstCheckin s) ->
  isRunning (withState s cs) = true.
Proof.
  unfold isRunning, afterFirstCheckin. cbn [state withState]. intros Hr ->.
  destruct (UnitState_eqb (State (state s)) UnitStateStarting);
    [reflexivity | exact Hr].
Qed.

Lemma stepAction_frame (as_ : actionMode) (p p' : pc)
    (s s' : @serviceRuntime U) :
  stepAction as_ p s = Some (p', s') ->
  comp s' = comp s /\ state s' = state s /\ compCh s' = compCh s.
Proof.
  unfold stepAction, stepChan, chanSend, recvOrDefault.
  destruct p, (actionCh s); intro H; try discriminate H;
    injection H as <- <-; repeat split.
Qed.

Lemma stepUpdate_frame (newComp : Component) (p p' : pc)
    (s s' : @serviceRuntime U) :
  stepUpdate newComp p s = Some (p', s') ->
  comp s' = comp s /\ state s' = state s /\ actionCh s' = actionCh s.
Proof.
  unfold stepUpdate, stepChan, chanSend, recvOrDefault.
  destruct p, (compCh s); intro H; try discriminate H;
    injection H as <- <-; repeat split.
Qed.

(** The case of the timer in [Run_iteration] is [Run_tick]. *)
Lemma Run_tick_armed (w : oracle) (s : serviceRuntime) (l : locals) :
  checkinTimer l <> None ->
  Run_iteration w timerFired s l =
  Some (let '(s', l', log) := Run_tick w s l in (s', l', log, None)).
Proof.
  intro Harmed. unfold Run_iteration, Run_tick.
  destruct (checkinTimer l); [|congruence].
  destruct (checkStatus w (checkinPeriod s) (lastCheckin l)
              (missedCheckins l) s) as [[n s'] e1].
  reflexivity.
Qed.

Lemma Run_tick_rearmed (w : oracle) (s : serviceRuntime) (l : locals)
    (d : Duration) :
  Run_tick w s (setCheckinTimer (Some d) l) = Run_tick w s l.
Proof.
  unfold Run_tick. cbn [lastCheckin missedCheckins setCheckinTimer].
  destruct (checkStatus w (checkinPeriod s) (lastCheckin l)
              (missedCheckins l) s) as [[n s'] e1].
  reflexivity.
Qed.

Lemma Run_tick_stopped (w : oracle) (s : serviceRuntime) (l : locals) :
  isRunning s = false ->
  Run_tick w s l
  = (s, setCheckinTimer (Some (checkinPeriod s)) l,
     [EvTimerReset (checkinPeriod s)]).
Proof.
  intro Hstopped. unfold Run_tick. rewrite checkStatus_run. cbv zeta.
  rewrite Hstopped. reflexivity.
Qed.

Lemma watchdog_tick (w : oracle) (s s' : serviceRuntime) (l l' : locals)
    (log : events) :
  watchdogInvariant s l ->
  Run_tick w s l = (s', l', log) ->
  watchdogInvariant s' l'.
Proof.
  intros [Hsrv Harm] Htick. destruct (isRunning s) eqn:Er.
  - rewrite <- (Run_tick_rearmed w s l (checkinPeriod s)) in Htick.
    set (l0 := setCheckinTimer (Some (checkinPeriod s)) l) in *.
    assert (Ha : checkinTimer l0 <> None) by discriminate.
    destruct (tick_run w s l0 Er Ha)
      as (s2 & l2 & log2 & Hi & Hcomp & Hcis & _ & Hm & Htm & Hh & Hd & Hf
          & Hneg).
    rewrite (Run_tick_armed w s l0 Ha), Htick in Hi.
    injection Hi as <- <- <-.
    assert (Hrun : isRunning s' = true).
    { cbv zeta in Hh, Hd, Hf, Hneg.
      match type of Hh with
      | ?m = 0 -> _ => set (missed := m) in *
      end.
      assert (Hcases : missed = 0 \/ 1 <= missed < maxCheckinMisses \/
                       maxCheckinMisses <= missed \/ missed < 0)
        by (unfold maxCheckinMisses; lia).
      destruct Hcases as [H | [H | [H | H]]].
      - eapply isRunning_State; [apply (Hh H) | discriminate | discriminate].
      - eapply isRunning_State; [apply (Hd H) | discriminate | discriminate].
      - eapply isRunning_State; [apply (Hf H) | discriminate | discriminate].
      - unfold isRunning in *. now rewrite (Hneg H). }
    unfold watchdogInvariant, checkinPeriod in *. rewrite Hcomp, Htm.
    split.
    + intros srv Hs. rewrite Hcis in Hs. cbn [cis l0 setCheckinTimer] in Hs.
      destruct (Hsrv srv Hs) as (Hp & _ & _). auto.
    + intros d Hd'. now injection Hd' as <-.
  - rewrite (Run_tick_stopped w s l Er) in Htick.
    injection Htick as <- <- <-. split.
    + intros srv Hs. cbn [cis setCheckinTimer] in Hs.
      destruct (Hsrv srv Hs) as (_ & Hr & _). congruence.
    + intros d Hd. cbn [checkinTimer setCheckinTimer] in Hd.
      now injection Hd as <-.
Qed.

Lemma watchdog_step (w : oracle) (src : source CheckinObs)
    (s s' : serviceRuntime) (l l' : locals) (log : events) :
  watchdogInvariant s l ->
  Run_iteration w src s l = Some (s', l', log, None) ->
  watchdogInvariant s' l'.
Proof.
  intros Hinv Hstep. destruct src as [| | |checkin|].
  - unfold Run_iteration, cisStop, timerStop in Hstep.
    destruct (cis l); discriminate Hstep.
  - unfold Run_iteration in Hstep.
    destruct (actionCh s) as [as_|] eqn:Ha; [|discriminate Hstep].
    destruct as_.
    + unfold caseAction, caseActionStop, timerStop, cisStop in Hstep.
      cbv beta iota zeta in Hstep.
      cbn [cis lastCheckin setCis setCheckinTimer] in Hstep.
      destruct (cis l) eqn:Ec; cbv beta iota zeta in Hstep;
        cbn [cis lastCheckin setCis setCheckinTimer] in Hstep;
        rewrite stop_run in Hstep; cbv zeta in Hstep;
        injection Hstep as <- <- <-;
        (split; [intros srv H | intros d H];
         cbn [cis checkinTimer setCis setCheckinTimer] in H;
         congruence).
    + unfold caseAction, caseActionStop, timerStop, cisStop in Hstep.
      cbv beta iota zeta in Hstep.
      cbn [cis lastCheckin setCis setCheckinTimer] in Hstep.
      destruct (cis l) eqn:Ec; cbv beta iota zeta in Hstep;
        cbn [cis lastCheckin setCis setCheckinTimer] in Hstep;
        rewrite stop_run in Hstep; cbv zeta in Hstep;
        injection Hstep as <- <- <-;
        (split; [intros srv H | intros d H];
         cbn [cis checkinTimer setCis setCheckinTimer] in H;
         congruence).
    + pose proof (Run_iteration_actionStart w (withActionCh None s) l) as R.
      unfold Run_iteration in R. cbn [actionCh withActionCh] in R.
      change (withActionCh None (withActionCh (Some actionStart)
                                   (withActionCh None s)))
        with (withActionCh None s) in R.
      rewrite R in Hstep. unfold actionStart_spec in Hstep.
      cbv zeta in Hstep.
      repeat match type of Hstep with
             | context [match ?x with _ => _ end] =>
                 lazymatch x with
                 | context [match _ with _ => _ end] => fail
                 | _ => destruct x
                 end
             end;
        injection Hstep as <- <- <-;
        (split; [intros srv H | intros d H]);
        cbn [cis checkinTimer setCis setCheckinTimer setLastCheckin
             setMissedCheckins] in H;
        first [ discriminate H
              | injection H as <-; split; [reflexivity|];
                split; [|reflexivity];
                eapply isRunning_State;
                [ cbn [state withState]; apply forceState_post
                | discriminate | discriminate ]
              | injection H as <-; reflexivity ].
  - unfold Run_iteration in Hstep.
    destruct (compCh s) as [newComp|]; [|discriminate Hstep].
    rewrite (processNewComp_run w) in Hstep. cbv zeta in Hstep.
    injection Hstep as <- <- <-.
    destruct Hinv as [Hsrv Harm]. split; [|exact Harm].
    intros srv Hs. destruct (Hsrv srv Hs) as (Hp & Hr & Ht).
    split; [exact Hp|]. split; [|exact Ht].
    rewrite isRunning_withState; [exact Hr|].
    cbn [state withCompCh]. now rewrite syncUnits_State, syncExpected_State.
  - unfold Run_iteration in Hstep. rewrite processCheckin_run in Hstep.
    cbv zeta in Hstep. destruct Hinv as [Hsrv Harm].
    destruct (isRunning s) eqn:Er; injection Hstep as <- <- <-.
    + split; [|exact Harm].
      intros srv Hs. destruct (Hsrv srv Hs) as (Hp & Hr & Ht).
      split; [exact Hp|]. split; [|exact Ht].
      apply afterFirstCheckin_running; [exact Er|].
      now rewrite cleanupStopped_State, syncCheckin_State.
    + split; [|exact Harm].
      intros srv Hs. destruct (Hsrv srv Hs) as (_ & Hr & _). congruence.
  - unfold Run_iteration in Hstep.
    destruct (checkinTimer l) as [d|] eqn:Et; [|discriminate Hstep].
    assert (Ha : checkinTimer l <> None) by congruence.
    pose proof (Run_tick_armed w s l Ha) as R.
    unfold Run_iteration in R. rewrite Et in R. rewrite R in Hstep.
    destruct (Run_tick w s l) as [[s2 l2] log2] eqn:Etick.
    injection Hstep as <- <- <-.
    exact (watchdog_tick w s s2 l l2 log2 Hinv Etick).
Qed.

Lemma watchdog_reachable (c : Component) (s : serviceRuntime) (l : locals) :
  reachable c s l -> comp s = c /\ watchdogInvariant s l.
Proof.
  induction 1 as [s Hnew | s s' l as_ p p' _ [IHc IHw] Hcall
                  | s s' l newComp p p' _ [IHc IHw] Hcall
                  | w src s s' l l' log _ [IHc IHw] Hstep
                  | w s s' l l' log _ [IHc IHw] Htick].
  - split; [apply (newServiceRuntime_valid c s Hnew)|].
    split; [intros srv H | intros d H]; discriminate H.
  - destruct (stepAction_frame as_ p p' s s' Hcall) as (Hc & Hs & _).
    split; [congruence|].
    unfold watchdogInvariant, checkinPeriod, isRunning in *.
    now rewrite Hc, Hs.
  - destruct (stepUpdate_frame newComp p p' s s' Hcall) as (Hc & Hs & _).
    split; [congruence|].
    unfold watchdogInvariant, checkinPeriod, isRunning in *.
    now rewrite Hc, Hs.
  - split; [|exact (watchdog_step w src s s' l l' log IHw Hstep)].
    now rewrite (Run_iteration_comp w src s s' l l' log None Hstep).
  - split; [|exact (watchdog_tick w s s' l l' log IHw Htick)].
    assert (Ha : checkinTimer (setCheckinTimer (Some 0) l) <> None)
      by discriminate.
    pose proof (Run_tick_armed w s _ Ha) as R.
    rewrite Run_tick_rearmed, Htick in R.
    now rewrite (Run_iteration_comp w timerFired s s' _ l' log None R).
Qed.

(** X5. In every state a supervisor can reach, also through calls that
    overlap and through a tick that was left in the channel of a stopped
    timer, a connection info server is up only on the configured [cport],
    on a supervisor that is neither [Stopping] nor [Stopped] and whose
    timer is armed; an armed timer is armed with [checkinPeriod()], which
    is never zero (30 seconds when the component declares none).  The
    converse fails: a tick received by a stopped supervisor changes and
    observes nothing, which is what the guard of [checkStatus] is for, but
    re-arms the timer with no server up. *)
Theorem server_up_only_while_watched (c : Component) (s : serviceRuntime)
    (l : locals) (Hreach : reachable c s l) :
  (forall srv,
     cis l = Some srv ->
     port srv = CPort (derefService c) /\ isRunning s = true /\
     checkinTimer l = Some (checkinPeriod s)) /\
  (forall d, checkinTimer l = Some d -> d = checkinPeriod s /\ d <> 0) /\
  (isRunning s = false ->
   cis l = None /\
   forall w,
     Run_tick w s l
     = (s, setCheckinTimer (Some (checkinPeriod s)) l,
        [EvTimerReset (checkinPeriod s)]) /\
     reachable c s (setCheckinTimer (Some (checkinPeriod s)) l)).
Proof.
  destruct (watchdog_reachable c s l Hreach) as [Hc [Hsrv Harm]].
  split; [|split].
  - intros srv Hs. rewrite <- Hc. exact (Hsrv srv Hs).
  - intros d Hd. rewrite (Harm d Hd). split; [reflexivity|].
    unfold checkinPeriod, defaultCheckServiceStatusInterval, Second.
    destruct (Checkin (Timeouts (derefService (comp s))) =? 0) eqn:E;
      [discriminate | now apply Z.eqb_neq in E].
  - intro Hstopped. split.
    + destruct (cis l) as [srv|] eqn:Ec; [|reflexivity].
      destruct (Hsrv srv eq_refl) as (_ & Hr & _). congruence.
    + intro w. pose proof (Run_tick_stopped w s l Hstopped) as Ht.
      split; [exact Ht|].
      exact (reach_tick c w s s l _ _ Hreach Ht).
Qed.

(** X6. A supervisor that is [Stopping] or [Stopped] stays so through every
    iteration of the loop that does not take an [actionStart]: check-ins
    are ignored, ticks do nothing, updates and stops leave it stopped. *)
Theorem stopped_until_Start (w : oracle) (src : source CheckinObs)
    (s s' : serviceRuntime) (l l' : locals) (log : events)
    (r : option error)
    (Hstopped : isRunning s = false)
    (Hstep : Run_iteration w src s l = Some (s', l', log, r))
    (Hnostart : src = recvAction -> actionCh s <> Some actionStart) :
  isRunning s' = false.
Proof.
  destruct src as [| | |checkin|]; unfold Run_iteration in Hstep.
  - unfold cisStop, timerStop in Hstep.
    destruct (cis l); injection Hstep as <- <- <- <-; exact Hstopped.
  - destruct (actionCh s) as [as_|] eqn:Ha; [|discriminate Hstep].
    destruct as_; [| | now elim (Hnostart eq_refl)];
      unfold caseAction, caseActionStop, timerStop, cisStop in Hstep;
      cbv beta iota zeta in Hstep;
      cbn [cis lastCheckin setCis setCheckinTimer] in Hstep;
      (destruct (cis l) eqn:Ec; cbv beta iota zeta in Hstep;
       cbn [cis lastCheckin setCis setCheckinTimer] in Hstep;
       rewrite stop_run in Hstep; cbv zeta in Hstep;
       injection Hstep as <- <- <- <-;
       apply isRunning_iff; right; cbn [state withState];
       apply forceState_post).
  - destruct (compCh s) as [newComp|]; [|discriminate Hstep].
    rewrite (processNewComp_run w) in Hstep. cbv zeta in Hstep.
    injection Hstep as <- <- <- <-.
    rewrite isRunning_withState; [exact Hstopped|].
    cbn [state withCompCh]. now rewrite syncUnits_State, syncExpected_State.
  - rewrite processCheckin_run in Hstep. cbv zeta in Hstep.
    rewrite Hstopped in Hstep. injection Hstep as <- <- <- <-. exact Hstopped.
  - destruct (checkinTimer l); [|discriminate Hstep].
    rewrite checkStatus_run in Hstep. cbv zeta in Hstep.
    rewrite Hstopped in Hstep. unfold timerReset in Hstep.
    injection Hstep as <- <- <- <-. exact Hstopped.
Qed.

(** X7. [State] becomes [Starting] only when the loop takes an
    [actionStart]: no check-in, tick, update, stop or teardown moves the
    supervisor to [Starting], and a processed check-in never leaves it
    there. *)
Theorem Starting_only_through_Start (w : oracle) (src : source CheckinObs)
    (s s' : serviceRuntime) (l l' : locals) (log : events)
    (r : option error)
    (Hstep : Run_iteration w src s l = Some (s', l', log, r))
    (Hstarting : State (state s') = UnitStateStarting) :
  (src = recvAction /\ actionCh s = Some actionStart) \/
  (State (state s) = UnitStateStarting /\
   forall checkin, src <> recvCheckin checkin).
Proof.
  destruct src as [| | |checkin|]; unfold Run_iteration in Hstep.
  - unfold cisStop, timerStop in Hstep.
    destruct (cis l); injection Hstep as <- <- <- <-;
      right; (split; [exact Hstarting | discriminate]).
  - destruct (actionCh s) as [as_|] eqn:Ha; [|discriminate Hstep].
    destruct as_; [| | left; split; reflexivity];
      unfold caseAction, caseActionStop, timerStop, cisStop in Hstep;
      cbv beta iota zeta in Hstep;
      cbn [cis lastCheckin setCis setCheckinTimer] in Hstep;
      (destruct (cis l) eqn:Ec; cbv beta iota zeta in Hstep;
       cbn [cis lastCheckin setCis setCheckinTimer] in Hstep;
       rewrite stop_run in Hstep; cbv zeta in Hstep;
       injection Hstep as <- <- <- <-;
       cbn [state withState] in Hstarting;
       match type of Hstarting with
       | State (fst (forceState ?st ?m ?cs)) = _ =>
           rewrite (proj1 (forceState_post st m cs)) in Hstarting
       end; discriminate Hstarting).
  - destruct (compCh s) as [newComp|]; [|discriminate Hstep].
    rewrite (processNewComp_run w) in Hstep. cbv zeta in Hstep.
    injection Hstep as <- <- <- <-. cbn [state withState] in Hstarting.
    rewrite syncUnits_State, syncExpected_State in Hstarting.
    right. split; [exact Hstarting | discriminate].
  - rewrite processCheckin_run in Hstep. cbv zeta in Hstep.
    destruct (isRunning s) eqn:Er; injection Hstep as <- <- <- <-.
    + cbn [state withState] in Hstarting.
      rewrite cleanupStopped_State, syncCheckin_State in Hstarting.
      unfold afterFirstCheckin in Hstarting.
      destruct (UnitState_eqb (State (state s)) UnitStateStarting) eqn:E;
        [discriminate Hstarting|].
      apply UnitState_eqb_neq in E. contradiction.
    + apply isRunning_iff in Er. rewrite Hstarting in Er.
      destruct Er; discriminate.
  - destruct (checkinTimer l); [|discriminate Hstep].
    rewrite checkStatus_run in Hstep. cbv zeta in Hstep.
    unfold timerReset in Hstep.
    repeat match type of Hstep with
           | context [if ?b then _ else _] => destruct b
           end;
      injection Hstep as <- <- <- <-; cbn [state withState] in Hstarting;
      try (right; (split; [exact Hstarting | discriminate]));
      match type of Hstarting with
      | State (fst (state_compState ?st ?m ?cs)) = _ =>
          rewrite (proj1 (state_compState_post st m cs)) in Hstarting
      | State (fst (forceState ?st ?m ?cs)) = _ =>
          rewrite (proj1 (forceState_post st m cs)) in Hstarting
      end; discriminate Hstarting.
Qed.

(** X8. Who writes the frame of [Run].  [lastCheckin] changes only when a
    check-in is processed by a running supervisor, to the clock reading, or
    when an [actionStart] resets it to zero; [missedCheckins] changes only
    on a tick of a running supervisor or when an [actionStart] resets it to
    0.  Stops, teardowns and updates keep both. *)
Theorem frame_written_by_checkin_tick_Start (w : oracle)
    (src : source CheckinObs) (s s' : serviceRuntime) (l l' : locals)
    (log : events) (r : option error)
    (Hstep : Run_iteration w src s l = Some (s', l', log, r)) :
  (lastCheckin l' <> lastCheckin l ->
   ((exists checkin, src = recvCheckin checkin) /\ isRunning s = true /\
    lastCheckin l' = now w) \/
   (src = recvAction /\ actionCh s = Some actionStart /\
    lastCheckin l' = zeroTime)) /\
  (missedCheckins l' <> missedCheckins l ->
   (src = timerFired /\ isRunning s = true) \/
   (src = recvAction /\ actionCh s = Some actionStart /\
    missedCheckins l' = 0)).
Proof.
  destruct src as [| | |checkin|]; unfold Run_iteration in Hstep.
  - unfold cisStop, timerStop in Hstep.
    destruct l as [[c|] lt lm ltm]; cbn [cis] in Hstep;
      injection Hstep as <- <- <- <-; split; intro H; now elim H.
  - destruct (actionCh s) as [as_|] eqn:Ha; [|discriminate Hstep].
    destruct as_.
    + unfold caseAction, caseActionStop, timerStop, cisStop in Hstep.
      destruct l as [[c|] lt lm ltm]; cbv beta iota zeta in Hstep;
        cbn [cis lastCheckin setCis setCheckinTimer] in Hstep;
        rewrite stop_run in Hstep; cbv zeta in Hstep;
        injection Hstep as <- <- <- <-; split; intro H; now elim H.
    + unfold caseAction, caseActionStop, timerStop, cisStop in Hstep.
      destruct l as [[c|] lt lm ltm]; cbv beta iota zeta in Hstep;
        cbn [cis lastCheckin setCis setCheckinTimer] in Hstep;
        rewrite stop_run in Hstep; cbv zeta in Hstep;
        injection Hstep as <- <- <- <-; split; intro H; now elim H.
    + pose proof (Run_iteration_actionStart w (withActionCh None s) l) as R.
      unfold Run_iteration in R. cbn [actionCh withActionCh] in R.
      change (withActionCh None (withActionCh (Some actionStart)
                                   (withActionCh None s)))
        with (withActionCh None s) in R.
      rewrite R in Hstep. unfold actionStart_spec in Hstep.
      cbv zeta in Hstep.
      repeat match type of Hstep with
             | context [match ?x with _ => _ end] =>
                 lazymatch x with
                 | context [match _ with _ => _ end] => fail
                 | _ => destruct x
                 end
             end;
        injection Hstep as <- <- <- <-;
        split; intros _; right; repeat split; reflexivity.
  - destruct (compCh s) as [newComp|]; [|discriminate Hstep].
    destruct (processNewComp newComp (withCompCh None s)) as [[u s1] e1].
    injection Hstep as <- <- <- <-. split; intro H; now elim H.
  - rewrite processCheckin_run in Hstep. cbv zeta in Hstep.
    destruct (isRunning s) eqn:Er; injection Hstep as <- <- <- <-;
      destruct l as [c lt lm ltm]; cbn [lastCheckin missedCheckins setLastCheckin];
      split; intro H; try (now elim H).
    left. repeat split. now exists checkin.
  - destruct (checkinTimer l); [|discriminate Hstep].
    rewrite checkStatus_run in Hstep. cbv zeta in Hstep.
    unfold timerReset in Hstep.
    destruct (isRunning s) eqn:Er.
    + repeat match type of Hstep with
             | context [if ?b then _ else _] => destruct b
             end;
        injection Hstep as <- <- <- <-;
        cbn [lastCheckin missedCheckins setMissedCheckins setCheckinTimer];
        (split; intro H; [now elim H | left; split; reflexivity]).
    + injection Hstep as <- <- <- <-.
      cbn [lastCheckin missedCheckins setMissedCheckins setCheckinTimer].
      split; intro H; now elim H.
Qed.

(** X9. A tick that derives [Healthy] or [Degraded] sends an observation
    iff it changes [State] or [Message]; when it changes neither, the
    snapshot is left as it was and the log holds the call of [compState]
    and the re-arming of the timer only. *)
Theorem tick_observes_only_changes (w : oracle) (s : serviceRuntime)
    (l : locals)
    (Hvalid : validComponent (comp s) = true)
    (Hrun : isRunning s = true)
    (Harmed : checkinTimer l <> None) :
  let missed :=
    if IsZero (lastCheckin l)
       || (Sub (now w) (lastCheckin l) >? checkinPeriod s)
    then wrap64 (missedCheckins l + 1) else 0 in
  0 <= missed < maxCheckinMisses ->
  exists s' l' log,
    Run_iteration w timerFired s l = Some (s', l', log, None) /\
    (observations log = [] \/ observations log = [state s']) /\
    (observations log = [] <->
     State (state s') = State (state s) /\
     Message (state s') = Message (state s)) /\
    (observations log = [] -> state s' = state s) /\
    filter isMutatorCall log <> [] /\
    last log EvTimerStop = EvTimerReset (checkinPeriod s).
Proof.
  intros missed Hmissed. clear Hvalid.
  rewrite (Run_iteration_timerFired w s l Harmed).
  rewrite checkStatus_run. cbv zeta. fold missed. rewrite Hrun.
  assert (Hgen : forall st msg,
    let cs' := fst (state_compState st msg (state s)) in
    (observations (comped (CheckinObs := CheckinObs) (CheckinExp := CheckinExp)
                     st msg (state s) ++ [EvTimerReset (checkinPeriod s)])
       = [] \/
     observations (comped (CheckinObs := CheckinObs) (CheckinExp := CheckinExp)
                     st msg (state s) ++ [EvTimerReset (checkinPeriod s)])
       = [cs']) /\
    (observations (comped (CheckinObs := CheckinObs) (CheckinExp := CheckinExp)
                     st msg (state s) ++ [EvTimerReset (checkinPeriod s)])
       = [] <->
     State cs' = State (state s) /\ Message cs' = Message (state s)) /\
    (observations (comped (CheckinObs := CheckinObs) (CheckinExp := CheckinExp)
                     st msg (state s) ++ [EvTimerReset (checkinPeriod s)])
       = [] -> cs' = state s) /\
    filter isMutatorCall
      (comped (CheckinObs := CheckinObs) (CheckinExp := CheckinExp)
         st msg (state s) ++ [EvTimerReset (checkinPeriod s)]) <> [] /\
    last (comped (CheckinObs := CheckinObs) (CheckinExp := CheckinExp)
            st msg (state s) ++ [EvTimerReset (checkinPeriod s)]) EvTimerStop
      = EvTimerReset (checkinPeriod s)).
  { intros st msg cs'. subst cs'. unfold comped.
    pose proof (state_compState_post st msg (state s)) as [HS HM].
    pose proof (state_compState_changed st msg (state s)) as HC.
    pose proof (state_compState_unchanged st msg (state s)) as HU.
    destruct (snd (state_compState st msg (state s))) eqn:Ec;
      cbn [app observations filter isMutatorCall last].
    - split; [right; reflexivity|]. split.
      + split; [discriminate|]. intros [H1 H2].
        destruct (proj1 HC eq_refl) as [H | H]; congruence.
      + split; [discriminate|]. split; [discriminate | reflexivity].
    - rewrite (HU eq_refl).
      split; [left; reflexivity|]. split; [tauto|].
      split; [reflexivity|]. split; [discriminate | reflexivity]. }
  destruct (missed =? 0) eqn:E0.
  - eexists; eexists; eexists. split; [reflexivity|]. apply Hgen.
  - apply Z.eqb_neq in E0.
    assert (E1 : (missed >? 0) && (missed <? maxCheckinMisses) = true).
    { apply andb_true_intro. split;
        [rewrite Z.gtb_ltb; apply Z.ltb_lt | apply Z.ltb_lt]; lia. }
    rewrite E1.
    eexists; eexists; eexists. split; [reflexivity|]. apply Hgen.
Qed.

(** X10. A supervisor keeps the component it was constructed with: in
    every state it can reach its component is the one given to
    [newServiceRuntime], which passed the three checks, and no iteration
    of the loop, an update or a tick included, and no statement or call
    of [Start], [Stop], [Teardown] or [Update] assigns it.  So the name,
    the port, the operations and the check-in period are those of
    construction; [Update] only puts the new component in the channel. *)
Theorem component_fixed_at_construction (c : Component)
    (s : serviceRuntime) (l : locals) (Hreach : reachable c s l) :
  comp s = c /\ validComponent c = true /\
  (exists s0, newServiceRuntime c = inr s0 /\
              name s = name s0 /\ checkinPeriod s = checkinPeriod s0) /\
  (forall w src s' l' (log : events) r,
     Run_iteration w src s l = Some (s', l', log, r) -> comp s' = c) /\
  (forall w s' l' (log : events),
     Run_tick w s l = (s', l', log) -> comp s' = c) /\
  (forall as_ p p' s', stepAction as_ p s = Some (p', s') -> comp s' = c) /\
  (forall newComp p p' s',
     stepUpdate newComp p s = Some (p', s') -> comp s' = c) /\
  (forall e s',
     Start s = Some (e, s') \/ Stop s = Some (e, s') \/
     Teardown s = Some (e, s') ->
     comp s' = c /\ compCh s' = compCh s) /\
  (forall newComp e s',
     Update newComp s = Some (e, s') ->
     comp s' = c /\ compCh s' = Some newComp /\ actionCh s' = actionCh s).
Proof.
  destruct (watchdog_reachable c s l Hreach) as [Hc _].
  assert (Hnew : exists s0, newServiceRuntime c = inr s0).
  { clear Hc. induction Hreach; eauto. }
  destruct Hnew as [s0 Hnew].
  destruct (newServiceRuntime_valid c s0 Hnew) as [Hc0 Hvalid].
  split; [exact Hc|]. split; [exact Hvalid|].
  split; [exists s0; split; [exact Hnew|];
          unfold name, checkinPeriod; now rewrite Hc, Hc0|].
  split; [|split; [|split; [|split; [|split]]]].
  - intros w src s' l' log r Hstep.
    now rewrite (Run_iteration_comp w src s s' l l' log r Hstep).
  - intros w s' l' log Htick.
    destruct (watchdog_reachable c s' l'
                (reach_tick c w s s' l l' log Hreach Htick)) as [H _].
    exact H.
  - intros as_ p p' s' Hcall.
    destruct (stepAction_frame as_ p p' s s' Hcall) as (H & _). congruence.
  - intros newComp p p' s' Hcall.
    destruct (stepUpdate_frame newComp p p' s s' Hcall) as (H & _).
    congruence.
  - intros e s'. unfold Start, Stop, Teardown, enqueueAction, chanSend,
      recvOrDefault.
    destruct (actionCh s); intros [H | [H | H]]; injection H as <- <-;
      split; [exact Hc | reflexivity | exact Hc | reflexivity
             | exact Hc | reflexivity | exact Hc | reflexivity
             | exact Hc | reflexivity | exact Hc | reflexivity].
  - intros newComp e s'. unfold Update, chanSend, recvOrDefault.
    destruct (compCh s); intro H; injection H as <- <-;
      (split; [exact Hc|]); split; reflexivity.
Qed.

End Invariants.

(** * The test targets of the build tooling *)

Section MageStrings.

Import Ascii Mage.

Lemma Split_nonempty (s : string) (sep : ascii) : Split s sep <> [].
Proof.
  destruct s as [|c s]; cbn [Split]; [discriminate|].
  destruct (Ascii.eqb c sep); [discriminate|].
  destruct (Split s sep); discriminate.
Qed.

Lemma Join_Split (s : string) (sep : ascii) :
  Join (Split s sep) (String sep EmptyString) = s.
Proof.
  unfold Join. induction s as [|c s IH]; [reflexivity|].
  cbn [Split]. pose proof (Split_nonempty s sep) as Hne.
  destruct (Split s sep) as [|h t]; [contradiction|].
  destruct (Ascii.eqb c sep) eqn:E.
  - apply Ascii.eqb_eq in E. subst c.
    change (String.concat (String sep EmptyString) (EmptyString :: h :: t))
      with (String sep (String.concat (String sep EmptyString) (h :: t))).
    now rewrite IH.
  - rewrite <- IH. destruct t; reflexivity.
Qed.

Lemma Split_no_sep (s : string) (sep : ascii) (t : string) :
  In t (Split s sep) ->
  existsb (Ascii.eqb sep) (list_ascii_of_string t) = false.
Proof.
  revert t. induction s as [|c s IH]; intros t Hin.
  - destruct Hin as [<- | []]. reflexivity.
  - cbn [Split] in Hin. destruct (Ascii.eqb c sep) eqn:E.
    + destruct Hin as [<- | Hin]; [reflexivity | now apply IH].
    + pose proof (Split_nonempty s sep) as Hne.
      destruct (Split s sep) as [|h tl]; [contradiction|].
      destruct Hin as [<- | Hin].
      * cbn [list_ascii_of_string existsb].
        rewrite Ascii.eqb_sym, E. cbn [orb]. apply IH. now left.
      * apply IH. now right.
Qed.

Lemma TrimLeft_blank (cutset s : string) :
  TrimLeft cutset s = EmptyString <-> blank cutset s = true.
Proof.
  unfold blank. induction s as [|c s IH]; cbn; [tauto|].
  destruct (inCutset cutset c); cbn; [exact IH|].
  split; discriminate.
Qed.

Lemma TrimLeft_head (cutset s : string) (c : ascii) (r : string) :
  TrimLeft cutset s = String c r -> inCutset cutset c = false.
Proof.
  induction s as [|d s IH]; cbn; [discriminate|].
  destruct (inCutset cutset d) eqn:E; [exact IH|].
  intro H. injection H as <- _. exact E.
Qed.

Lemma TrimRight_head (cutset : string) (c : ascii) (r : string) :
  inCutset cutset c = false -> TrimRight cutset (String c r) <> EmptyString.
Proof.
  intro H. cbn [TrimRight]. destruct (TrimRight cutset r);
    [rewrite H|]; discriminate.
Qed.

Lemma Trim_blank (s cutset : string) :
  Trim s cutset = EmptyString <-> blank cutset s = true.
Proof.
  unfold Trim. rewrite <- TrimLeft_blank.
  destruct (TrimLeft cutset s) as [|c r] eqn:E; [tauto|].
  split; [|discriminate].
  intro H. apply TrimLeft_head in E.
  now elim (TrimRight_head cutset c r E).
Qed.

End MageStrings.

Section MageArguments.

Import Ascii Mage.

Variable w : world.

Lemma testTagsFromEnv_nonempty : testTagsFromEnv w <> [].
Proof. apply Split_nonempty. Qed.

Lemma testTagsFromEnv_blank :
  testTagsFromEnv w = [EmptyString] <->
  blank ", " (Getenv w "TEST_TAGS") = true.
Proof.
  unfold testTagsFromEnv. rewrite <- Trim_blank. split.
  - intro H. rewrite <- (Join_Split (Trim _ _) ","%char), H. reflexivity.
  - intros ->. reflexivity.
Qed.

(** X11. [testTagsFromEnv] never returns an empty list and no tag holds a
    comma; joined with commas the tags give back TEST_TAGS without its
    leading and trailing commas and spaces.  A TEST_TAGS that is unset, or
    made of commas and spaces only, gives the one tag [""]. *)
Theorem testTagsFromEnv_shape :
  testTagsFromEnv w <> [] /\
  Join (testTagsFromEnv w) "," = Trim (Getenv w "TEST_TAGS") ", " /\
  (forall t, In t (testTagsFromEnv w) ->
     existsb (Ascii.eqb ","%char) (list_ascii_of_string t) = false) /\
  (testTagsFromEnv w = [EmptyString] <->
   blank ", " (Getenv w "TEST_TAGS") = true).
Proof.
  split; [exact testTagsFromEnv_nonempty|].
  split; [apply (Join_Split _ ","%char)|].
  split; [intros t; apply Split_no_sep|].
  exact testTagsFromEnv_blank.
Qed.

Lemma append_empty (a b : string) :
  a +++ b = EmptyString -> a = EmptyString /\ b = EmptyString.
Proof. destruct a; cbn; [auto | discriminate]. Qed.

Lemma Join_empty (l : list string) (sep : string) :
  sep <> EmptyString ->
  (Join l sep = EmptyString <-> l = [] \/ l = [EmptyString]).
Proof.
  intro Hsep. unfold Join. split.
  - destruct l as [|h [|h' t]]; cbn [String.concat]; intro H.
    + now left.
    + right. now rewrite H.
    + apply append_empty in H. destruct H as [_ H].
      apply append_empty in H. destruct H as [H _]. contradiction.
  - intros [-> | ->]; reflexivity.
Qed.

Lemma Join_snoc (l : list string) (sep x : string) :
  l <> [] -> Join (l ++ [x]) sep = Join l sep +++ sep +++ x.
Proof.
  unfold Join. induction l as [|h t IH]; [contradiction|]. intros _.
  destruct t as [|h' t]; [reflexivity|].
  change (String.concat sep ((h :: h' :: t) ++ [x]))
    with (h +++ sep +++ String.concat sep ((h' :: t) ++ [x])).
  rewrite IH by discriminate.
  change (String.concat sep (h :: h' :: t))
    with (h +++ sep +++ String.concat sep (h' :: t)).
  now rewrite !append_assoc.
Qed.

Lemma HasSuffix_refl (s : string) : HasSuffix s s = true.
Proof. destruct s; cbn [HasSuffix]; now rewrite String.eqb_refl. Qed.

Lemma HasSuffix_append (a b : string) : HasSuffix (a +++ b) b = true.
Proof.
  induction a as [|c a IH]; [apply HasSuffix_refl|].
  cbn [String.append HasSuffix]. rewrite IH. apply orb_true_r.
Qed.

(** X12. [GoTest] passes [-tags] iff the tags are neither empty nor the
    one tag [""], and then with the tags joined by spaces.  So with
    TEST_TAGS unset or blank the unit arguments carry no [-tags], while the
    integration arguments always carry [-tags] with a value that ends in
    "integration". *)
Theorem tags_flag (params : GoTestArgs) :
  (tagsFlag params = [] <->
   Tags params = [] \/ Tags params = [EmptyString]) /\
  (tagsFlag params = [] \/
   tagsFlag params = ["-tags"%string; Join (Tags params) " "]) /\
  (blank ", " (Getenv w "TEST_TAGS") = true ->
   tagsFlag (DefaultGoTestUnitArgs w) = [] /\
   tagsFlag (DefaultGoTestIntegrationArgs w)
     = ["-tags"; " integration"]%string) /\
  (exists v,
     tagsFlag (DefaultGoTestIntegrationArgs w) = ["-tags"%string; v] /\
     HasSuffix v "integration" = true) /\
  (forall module, exists v,
     tagsFlag (GoTestIntegrationArgsForModule w module)
       = ["-tags"%string; v] /\
     HasSuffix v "integration" = true).
Proof.
  assert (Hgen : forall p,
            (tagsFlag p = [] <-> Tags p = [] \/ Tags p = [EmptyString]) /\
            (tagsFlag p = [] \/
             tagsFlag p = ["-tags"%string; Join (Tags p) " "])).
  { intro p. unfold tagsFlag.
    pose proof (Join_empty (Tags p) " " ltac:(discriminate)) as HJ.
    destruct (Tags p) as [|h t] eqn:Et; cbn [length Nat.ltb Nat.leb].
    - split; [tauto | now left].
    - rewrite <- Et in *. cbv zeta.
      destruct (String.eqb (Join (Tags p) " ") "") eqn:E; cbn [negb].
      + apply String.eqb_eq in E. split; [tauto | now left].
      + apply String.eqb_neq in E. split; [|now right].
        split; [discriminate | tauto]. }
  assert (Hint : forall tags p,
            tags <> [] ->
            tagsFlag (withTags (tags ++ ["integration"%string]) p)
            = ["-tags"%string; Join tags " " +++ " integration"]).
  { intros tags p Hne. unfold tagsFlag. cbn [Tags withTags].
    rewrite length_app. cbn [length].
    replace (0 <? length tags + 1)%nat with true
      by (symmetry; apply Nat.ltb_lt; lia).
    cbv zeta. rewrite Join_snoc by exact Hne.
    destruct (Join tags " " +++ " " +++ "integration") eqn:E.
    - apply append_empty in E. destruct E as [_ E]. discriminate E.
    - cbn [String.eqb negb]. rewrite <- E. reflexivity. }
  split; [apply Hgen|]. split; [apply Hgen|].
  pose proof testTagsFromEnv_nonempty as Hne.
  pose proof testTagsFromEnv_blank as Hblank.
  split; [|split].
  - intro Hb. apply Hblank in Hb. split.
    + apply Hgen. right. cbn [Tags DefaultGoTestUnitArgs makeGoTestArgs].
      exact Hb.
    + unfold DefaultGoTestIntegrationArgs. cbv zeta.
      cbn [Tags makeGoTestArgs]. rewrite Hint by exact Hne.
      now rewrite Hb.
  - eexists. unfold DefaultGoTestIntegrationArgs. cbv zeta.
    cbn [Tags makeGoTestArgs]. rewrite Hint by exact Hne.
    split; [reflexivity|].
    change (Join (testTagsFromEnv w) " " +++ " integration")
      with (Join (testTagsFromEnv w) " " +++ " " +++ "integration").
    rewrite <- append_assoc. apply HasSuffix_append.
  - intro module. eexists. unfold GoTestIntegrationArgsForModule. cbv zeta.
    cbn [Tags makeGoTestArgsForModule]. rewrite Hint by exact Hne.
    split; [reflexivity|].
    change (Join (testTagsFromEnv w) " " +++ " integration")
      with (Join (testTagsFromEnv w) " " +++ " " +++ "integration").
    rewrite <- append_assoc. apply HasSuffix_append.
Qed.

Lemma length_append (a b : string) :
  String.length (a +++ b) = (String.length a + String.length b)%nat.
Proof. induction a as [|c a IH]; cbn; [reflexivity | now rewrite IH]. Qed.

(** X13. The command line of [gotestsum] that [GoTest] builds starts with
    [--no-color]; the flags of [gotestsum] come first and hold no ["--"]
    (the JUnit file not being named so), then the separator, then the flags
    [GoTest] derives, then [ExtraFlags], then [Packages].  [-race] is
    passed iff DEV_ARCH is amd64 and [Race] is set. *)
Theorem goTestCommandLine_structure (params : GoTestArgs) :
  hd_error (goTestCommandLine w params) = Some "--no-color"%string /\
  (JUnitReportFile params <> "--"%string ->
   exists pre,
     goTestCommandLine w params =
       pre ++ "--"%string
         :: testFlags w params ++ ExtraFlags params ++ Packages params /\
     ~ In "--"%string pre) /\
  (raceFlag w params = ["-race"%string] <->
   Getenv w "DEV_ARCH" = "amd64"%string /\ Race params = true) /\
  (raceFlag w params = [] \/ raceFlag w params = ["-race"%string]).
Proof.
  split; [reflexivity|]. split; [|split].
  - intro Hj. exists (gotestsumArgs w params). split; [reflexivity|].
    unfold gotestsumArgs. intro Hin.
    assert (Hjson : OutputFile params +++ ".json" <> "--"%string).
    { intro H. apply (f_equal String.length) in H.
      rewrite length_append in H. cbn in H. lia. }
    destruct (Verbose w);
      destruct (negb (String.eqb (JUnitReportFile params) ""));
      destruct (negb (String.eqb (OutputFile params) ""));
      cbn [app In] in Hin;
      repeat (destruct Hin as [Hin | Hin];
              [first [discriminate Hin | now elim Hj | now elim Hjson]|]);
      exact Hin.
  - unfold raceFlag.
    destruct (String.eqb (Getenv w "DEV_ARCH") "amd64") eqn:E.
    + apply String.eqb_eq in E. destruct (Race params); split;
        try tauto; try discriminate; intros [_ H]; discriminate H.
    + apply String.eqb_neq in E. split; [discriminate | tauto].
  - unfold raceFlag.
    destruct (String.eqb (Getenv w "DEV_ARCH") "amd64"), (Race params); auto.
Qed.

End MageArguments.

Section MageRuns.

Import Ascii Mage.

Variable w : world.

Lemma coverageReports_ok (cov : string) :
  fst (coverageReports w cov) = None <->
  shRun w "go" ["tool"; "cover"; "-html=" +++ cov; "-o";
                TrimSuffix cov (Ext cov) +++ ".html"]%string = None /\
  shRun w "go" ["install";
                "github.com/boumenot/gocover-cobertura@latest"]%string = None /\
  ReadFile w cov = None /\
  osCreate w (TrimSuffix cov (Ext cov) +++ "-cov.xml") = None /\
  coberturaRun w = None.
Proof.
  unfold coverageReports. cbv zeta.
  destruct (shRun w "go" ["tool"; _; _; _; _]%string);
    [cbn; split; [discriminate | intros [H _]; discriminate H]|].
  destruct (shRun w "go" ["install"; _]%string);
    [cbn; split; [discriminate | intros (_ & H & _); discriminate H]|].
  destruct (ReadFile w cov);
    [cbn; split; [discriminate | intros (_ & _ & H & _); discriminate H]|].
  destruct (osCreate w _);
    [cbn; split; [discriminate | intros (_ & _ & _ & H & _); discriminate H]|].
  destruct (coberturaRun w);
    [cbn; split; [discriminate | intros (_ & _ & _ & _ & H); discriminate H]|].
  cbn. tauto.
Qed.

(** X14. [GoTest] returns nil iff the output file, when one is asked for,
    can be created, [gotestsum] passes, and, when a coverage profile is
    asked for, the five steps of the coverage reports succeed.  The tests
    are not run when the output file cannot be created, and no coverage
    tool is run unless the tests passed: a failedAmong test run returns
    "go test returned a non-zero value" and a command that cannot be
    executed returns "failed to execute go". *)
Theorem GoTest_outcome (params : GoTestArgs) :
  let args := goTestCommandLine w params in
  let created :=
    if negb (String.eqb (OutputFile params) "")
    then osCreate w (createDir w (OutputFile params)) else None in
  let cov := coverageProfile w params in
  (fst (GoTest w params) = None <->
   created = None /\ goTestRun w args = runPassed /\
   (cov = EmptyString \/ fst (coverageReports w cov) = None)) /\
  (In (Run "gotestsum" args) (snd (GoTest w params)) <-> created = None) /\
  (forall cmd a,
     In (Run cmd a) (snd (GoTest w params)) -> cmd <> "gotestsum"%string ->
     goTestRun w args = runPassed /\ cov <> EmptyString) /\
  (forall e,
     created = None -> goTestRun w args = runExitError e ->
     fst (GoTest w params)
       = Some (Wrap e "go test returned a non-zero value")) /\
  (forall e,
     created = None -> goTestRun w args = runNotExecuted e ->
     fst (GoTest w params) = Some (Wrap e "failed to execute go")).
Proof.
  intros args created cov. unfold GoTest. cbv zeta. fold args. fold cov.
  assert (Hprep : forall cmd a pre mid,
            In (Run cmd a)
               ([Deps] ++ (if negb (String.eqb (JUnitReportFile params) "")
                           then [CreateDir (JUnitReportFile params)] else [])
                ++ (if negb (String.eqb (OutputFile params) "")
                    then [CreateDir (OutputFile params)] else [])
                ++ (if negb (String.eqb (CoverageProfileFile params) "")
                    then [CreateDir (Clean w (CoverageProfileFile params))]
                    else [])
                ++ [MakeCommand pre "gotestsum" mid]) -> False).
  { intros cmd a pre mid.
    destruct (negb (String.eqb (JUnitReportFile params) ""));
      destruct (negb (String.eqb (OutputFile params) ""));
      destruct (negb (String.eqb (CoverageProfileFile params) ""));
      cbn [app In]; intro H;
      repeat (destruct H as [H | H]; [discriminate H|]); exact H. }
  set (prepared := [Deps] ++ _) in *.
  specialize (fun cmd a => Hprep cmd a (Env params) args).
  fold prepared in Hprep.
  subst created.
  assert (Hother : forall cmd a opened reports,
            (forall cmd a, In (Run cmd a) opened -> False) ->
            (forall cmd a, In (Run cmd a) reports -> False) ->
            In (Run cmd a)
               ((prepared ++ opened ++ [Run "gotestsum" args]) ++ reports) ->
            cmd = "gotestsum"%string).
  { intros cmd a opened reports Ho Hr H.
    repeat rewrite in_app_iff in H. cbn [In] in H.
    destruct H as [[H | [H | [H | []]]] | H].
    - now apply Hprep in H.
    - now apply Ho in H.
    - now injection H as <- _.
    - now apply Hr in H. }
  assert (Hran : forall opened reports,
            In (Run "gotestsum" args)
               ((prepared ++ opened ++ [Run "gotestsum" args]) ++ reports)).
  { intros. repeat rewrite in_app_iff. cbn [In]. auto. }
  assert (Hnil : forall cmd a, In (Run cmd a) (@nil action) -> False)
    by (intros cmd a []).
  assert (Hopen : forall cmd a,
            In (Run cmd a)
               [CreateDir (OutputFile params);
                Create (createDir w (OutputFile params))] -> False).
  { intros cmd a H.
    repeat (destruct H as [H | H]; [discriminate H|]); exact H. }
  assert (Hmain : forall opened,
            (forall cmd a, In (Run cmd a) opened -> False) ->
            let r :=
              match goTestRun w args with
              | runPassed =>
                  if negb (String.eqb cov "")
                  then let '(err, reports) := coverageReports w cov in
                       (err, (prepared ++ opened ++ [Run "gotestsum" args])
                               ++ reports)
                  else (None, prepared ++ opened ++ [Run "gotestsum" args])
              | runExitError goTestErr =>
                  (Some (Wrap goTestErr "go test returned a non-zero value"),
                   prepared ++ opened ++ [Run "gotestsum" args])
              | runNotExecuted err =>
                  (Some (Wrap err "failed to execute go"),
                   prepared ++ opened ++ [Run "gotestsum" args])
              end in
            (fst r = None <->
             goTestRun w args = runPassed /\
             (cov = EmptyString \/ fst (coverageReports w cov) = None)) /\
            In (Run "gotestsum" args) (snd r) /\
            (forall cmd a,
               In (Run cmd a) (snd r) -> cmd <> "gotestsum"%string ->
               goTestRun w args = runPassed /\ cov <> EmptyString) /\
            (forall e, goTestRun w args = runExitError e ->
               fst r = Some (Wrap e "go test returned a non-zero value")) /\
            (forall e, goTestRun w args = runNotExecuted e ->
               fst r = Some (Wrap e "failed to execute go"))).
  { intros opened Ho r. subst r.
    destruct (goTestRun w args) as [|e|e] eqn:Er.
    - destruct (negb (String.eqb cov "")) eqn:Ecov.
      + apply negb_true_iff in Ecov. apply String.eqb_neq in Ecov.
        destruct (coverageReports w cov) as [err reports]. cbn [fst snd] in *.
        split; [split; [intros ->; auto
                       | intros (_ & [H | H]); [contradiction | exact H]]|].
        split; [apply Hran|].
        split; [|split; intros e H; discriminate H].
        intros cmd a _ _. split; [reflexivity | exact Ecov].
      + apply negb_false_iff in Ecov. apply String.eqb_eq in Ecov.
        cbn [fst snd].
        split; [split; [auto | reflexivity]|].
        split; [rewrite <- (app_nil_r (prepared ++ _)); apply Hran|].
        split; [|split; intros e H; discriminate H].
        intros cmd a H Hc. exfalso. apply Hc.
        rewrite <- (app_nil_r (prepared ++ _)) in H.
        exact (Hother cmd a opened [] Ho Hnil H).
    - cbn [fst snd].
      split; [split; [discriminate | intros (H & _); discriminate H]|].
      split; [rewrite <- (app_nil_r (prepared ++ _)); apply Hran|].
      split; [|split; intros e' H; [injection H as <-; reflexivity
                                   | discriminate H]].
      intros cmd a H Hc. exfalso. apply Hc.
      rewrite <- (app_nil_r (prepared ++ _)) in H.
      exact (Hother cmd a opened [] Ho Hnil H).
    - cbn [fst snd].
      split; [split; [discriminate | intros (H & _); discriminate H]|].
      split; [rewrite <- (app_nil_r (prepared ++ _)); apply Hran|].
      split; [|split; intros e' H; [discriminate H
                                   | injection H as <-; reflexivity]].
      intros cmd a H Hc. exfalso. apply Hc.
      rewrite <- (app_nil_r (prepared ++ _)) in H.
      exact (Hother cmd a opened [] Ho Hnil H). }
  destruct (negb (String.eqb (OutputFile params) "")) eqn:Eo;
    [destruct (osCreate w (createDir w (OutputFile params))) as [eo|] eqn:Ec|].
  - (* the output file cannot be created *)
    cbn [fst snd].
    split; [split; [discriminate | intros [H _]; discriminate H]|].
    split; [split; [|discriminate]|].
    + intro H. apply in_app_or in H. destruct H as [H | H];
        [now apply Hprep in H | now apply Hopen in H].
    + split; [|split; intros e H; discriminate H].
      intros cmd a H. apply in_app_or in H. destruct H as [H | H];
        [now apply Hprep in H | now apply Hopen in H].
  - destruct (Hmain _ Hopen) as (H1 & H2 & H3 & H4 & H5).
    split; [rewrite H1; tauto|].
    split; [tauto|]. split; [exact H3|]. split; intros e _; auto.
  - destruct (Hmain _ Hnil) as (H1 & H2 & H3 & H4 & H5).
    split; [rewrite H1; tauto|].
    split; [tauto|]. split; [exact H3|]. split; intros e _; auto.
Qed.

Lemma integrationLoop_spec (module : string) (entries : list FileInfo) :
  forall found failed,
    match integrationLoop w module entries found failed with
    | (inr (found', failed'), log) =>
        Forall (fun fi => NewIntegrationRunners w (fileName fi) = None)
               (selected module entries) /\
        found' = found || negb (Nat.eqb (length (selected module entries)) 0)
        /\ failed' = failed ++ failedAmong w (selected module entries)
        /\ log = tested (selected module entries)
    | (inl e, log) =>
        exists pre fi post err,
          selected module entries = pre ++ fi :: post /\
          Forall (fun fi => NewIntegrationRunners w (fileName fi) = None) pre
          /\ NewIntegrationRunners w (fileName fi) = Some err
          /\ e = Wrap err ("test setup failed for module " +++ fileName fi)
          /\ log = tested pre ++ [Runners (fileName fi)]
    end.
Proof.
  induction entries as [|fi entries IH]; intros found failed.
  - cbn. rewrite app_nil_r, orb_false_r. auto.
  - cbn [integrationLoop selected filter]. fold (selected module entries).
    destruct (IsDir fi); cbn [negb andb].
    2:{ apply IH. }
    destruct (String.eqb module "") eqn:Em; cbn [negb andb orb].
    + destruct (NewIntegrationRunners w (fileName fi)) as [err|] eqn:En.
      * exists [], fi, (selected module entries), err. cbn. auto.
      * specialize (IH true (match runnersTest w (fileName fi) with
                             | Some _ => failed ++ [fileName fi]
                             | None => failed
                             end)).
        destruct (integrationLoop w module entries true _)
          as [[e | [found' failed']] log].
        -- destruct IH as (pre & fi' & post & err & Hs & Hp & Hn & He & Hl).
           exists (fi :: pre), fi', post, err. rewrite Hs, Hl. cbn.
           repeat split; auto.
        -- destruct IH as (Hp & Hf & Hfa & Hl). subst.
           cbn [length Nat.eqb negb]. rewrite orb_true_r.
           repeat split; auto.
           unfold failedAmong. cbn [filter].
           destruct (runnersTest w (fileName fi)); cbn [map];
             [rewrite <- app_assoc|]; reflexivity.
    + destruct (String.eqb module (fileName fi)) eqn:Ef; cbn [negb andb orb].
      2:{ apply IH. }
      destruct (NewIntegrationRunners w (fileName fi)) as [err|] eqn:En.
      * exists [], fi, (selected module entries), err. cbn. auto.
      * specialize (IH true (match runnersTest w (fileName fi) with
                             | Some _ => failed ++ [fileName fi]
                             | None => failed
                             end)).
        destruct (integrationLoop w module entries true _)
          as [[e | [found' failed']] log].
        -- destruct IH as (pre & fi' & post & err & Hs & Hp & Hn & He & Hl).
           exists (fi :: pre), fi', post, err. rewrite Hs, Hl. cbn.
           repeat split; auto.
        -- destruct IH as (Hp & Hf & Hfa & Hl). subst.
           cbn [length Nat.eqb negb]. rewrite orb_true_r.
           repeat split; auto.
           unfold failedAmong. cbn [filter].
           destruct (runnersTest w (fileName fi)); cbn [map];
             [rewrite <- app_assoc|]; reflexivity.
Qed.

Lemma selected_spec (module : string) (entries : list FileInfo)
    (fi : FileInfo) :
  In fi (selected module entries) <->
  In fi entries /\ IsDir fi = true /\
  (module = EmptyString \/ module = fileName fi).
Proof.
  unfold selected. rewrite filter_In, andb_true_iff, orb_true_iff.
  rewrite !String.eqb_eq. tauto.
Qed.

(** X15. [GoTestIntegrationForModule] tests the directories of [./module],
    all of them when MODULE is empty and else the one of that name, one
    after the other in the order of the listing, and stops at the first
    whose set-up fails, with the error "test setup failed for module ..."
    and without testing it or a later one.  When every set-up succeeds it
    tests all of them, also after a failure, and returns "no module ..."
    when MODULE names none, else "failed modules: ..." with the failed
    ones in order, else nil; files and other modules are never tested. *)
Theorem GoTestIntegrationForModule_outcome (entries : list FileInfo)
    (Hread : ReadDir w "./module" = inr entries) :
  let module := Getenv w "MODULE" in
  let sel := selected module entries in
  let setup := fun fi => NewIntegrationRunners w (fileName fi) = None in
  (Forall setup sel ->
   snd (GoTestIntegrationForModule w) = tested sel /\
   fst (GoTestIntegrationForModule w)
   = if negb (String.eqb module "") && Nat.eqb (length sel) 0
     then Some (errorsNew ("no module " +++ module))
     else match failedAmong w sel with
          | [] => None
          | failed =>
              Some (errorsNew ("failed modules: " +++ Join failed ", "))
          end) /\
  (forall pre fi post err,
     sel = pre ++ fi :: post -> Forall setup pre ->
     NewIntegrationRunners w (fileName fi) = Some err ->
     GoTestIntegrationForModule w
     = (Some (Wrap err ("test setup failed for module " +++ fileName fi)),
        tested pre ++ [Runners (fileName fi)])) /\
  (fst (GoTestIntegrationForModule w) = None <->
   Forall setup sel /\ failedAmong w sel = [] /\
   (module = EmptyString \/ sel <> [])) /\
  (forall m,
     In (RunnersTest m) (snd (GoTestIntegrationForModule w)) ->
     exists fi, In fi entries /\ fileName fi = m /\ IsDir fi = true /\
                (module = EmptyString \/ module = m) /\ setup fi).
Proof.
  intros module sel setup. unfold GoTestIntegrationForModule.
  rewrite Hread. fold module.
  pose proof (integrationLoop_spec module entries false []) as Hloop.
  fold sel in Hloop.
  assert (Hfirst : forall pre fi post err pre' fi' post' err',
            pre ++ fi :: post = pre' ++ fi' :: post' ->
            Forall setup pre -> Forall setup pre' ->
            NewIntegrationRunners w (fileName fi) = Some err ->
            NewIntegrationRunners w (fileName fi') = Some err' ->
            pre = pre' /\ fi = fi').
  { induction pre as [|x pre IH]; intros fi post err pre' fi' post' err'
                                         Heq Hp Hp' Hn Hn'.
    - destruct pre' as [|x' pre']; cbn in Heq.
      + injection Heq as -> _. auto.
      + injection Heq as -> _. inversion Hp' as [|? ? Hx _]; subst.
        unfold setup in Hx. congruence.
    - destruct pre' as [|x' pre']; cbn in Heq.
      + injection Heq as -> _. inversion Hp as [|? ? Hx _]; subst.
        unfold setup in Hx. congruence.
      + injection Heq as -> Heq.
        inversion Hp; subst. inversion Hp'; subst.
        destruct (IH fi post err pre' fi' post' err' Heq) as [-> ->]; auto. }
  assert (Htested : forall m l,
            In (RunnersTest m) (tested l) ->
            exists fi, In fi l /\ fileName fi = m).
  { intros m l. unfold tested. rewrite in_flat_map.
    intros (fi & Hin & [H | [H | []]]); [discriminate H|].
    injection H as <-. eauto. }
  destruct (integrationLoop w module entries false [])
    as [[e | [found failed]] log].
  - destruct Hloop as (pre & fi & post & err & Hs & Hp & Hn & -> & ->).
    cbn [fst snd].
    assert (Hbad : ~ Forall setup sel).
    { rewrite Hs. intro H. apply Forall_app in H. destruct H as [_ H].
      inversion H as [|? ? Hx _]; subst. unfold setup in Hx. congruence. }
    split; [intro H; now elim Hbad|].
    split.
    { intros pre' fi' post' err' Hs' Hp' Hn'. rewrite Hs in Hs'.
      destruct (Hfirst _ _ _ _ _ _ _ _ Hs' Hp Hp' Hn Hn') as [<- <-].
      congruence. }
    split; [split; [discriminate | intros [H _]; now elim Hbad]|].
    intros m H. apply in_app_or in H. destruct H as [H | H].
    + destruct (Htested _ _ H) as (fi' & Hin & Hm).
      assert (Hsel : In fi' sel) by (rewrite Hs; apply in_or_app; auto).
      apply selected_spec in Hsel. destruct Hsel as (He & Hd & Hmod).
      exists fi'. rewrite <- Hm. repeat split; auto.
      rewrite Forall_forall in Hp. now apply Hp.
    + destruct H as [H | []]. discriminate H.
  - destruct Hloop as (Hp & -> & -> & ->). cbn [orb app].
    rewrite negb_involutive.
    assert (Hlen : (0 <? length (failedAmong w sel))%nat
                   = negb (Nat.eqb (length (failedAmong w sel)) 0))
      by (destruct (failedAmong w sel); reflexivity).
    assert (Hres :
              (if negb (String.eqb module "") && Nat.eqb (length sel) 0
               then (Some (errorsNew ("no module " +++ module)), tested sel)
               else if (0 <? length (failedAmong w sel))%nat
                    then (Some (errorsNew ("failed modules: "
                                           +++ Join (failedAmong w sel) ", ")),
                          tested sel)
                    else (None, tested sel))
              = (if negb (String.eqb module "") && Nat.eqb (length sel) 0
                 then Some (errorsNew ("no module " +++ module))
                 else match failedAmong w sel with
                      | [] => None
                      | failed =>
                          Some (errorsNew ("failed modules: "
                                           +++ Join failed ", "))
                      end,
                 tested sel)).
    { destruct (negb (String.eqb module "") && Nat.eqb (length sel) 0);
        [reflexivity|]. destruct (failedAmong w sel); reflexivity. }
    rewrite Hres. cbn [fst snd].
    split; [auto|].
    split.
    { intros pre fi post err Hs _ Hn. exfalso.
      rewrite Forall_forall in Hp.
      assert (Hin : In fi sel) by (rewrite Hs; apply in_or_app; cbn; auto).
      apply Hp in Hin. congruence. }
    split.
    { destruct (String.eqb module "") eqn:Em; cbn [negb andb].
      - apply String.eqb_eq in Em.
        destruct (failedAmong w sel); split;
          [auto | reflexivity | discriminate
          | intros (_ & H & _); discriminate H].
      - apply String.eqb_neq in Em.
        destruct sel as [|x sel'] eqn:Es; cbn [length Nat.eqb].
        + split; [discriminate|]. intros (_ & _ & [H | H]);
            [contradiction | now elim H].
        + destruct (failedAmong w (x :: sel')); split;
            [intros _; repeat split; auto; right; discriminate
            | reflexivity | discriminate
            | intros (_ & H & _); discriminate H]. }
    intros m H. destruct (Htested _ _ H) as (fi & Hin & Hm).
    pose proof Hin as Hsel.
    apply selected_spec in Hsel. destruct Hsel as (He & Hd & Hmod).
    exists fi. rewrite <- Hm. repeat split; auto.
    rewrite Forall_forall in Hp. now apply Hp.
Qed.

End MageRuns.

Section UpgradeDownload.

Import Upgrade.

Context {D V : Type}.

Variable w : world D V.

Local Abbreviation log := (list (action D V)).

Lemma substring_all (s : string) : substring 0 (String.length s) s = s.
Proof. induction s as [|c s IH]; cbn; [|rewrite IH]; reflexivity. Qed.

Lemma TrimPrefix_file (p : string) :
  TrimPrefix ("file://" +++ p) "file://" = p.
Proof.
  unfold TrimPrefix, HasPrefix. cbn.
  replace (prefix "" p) with true by (destruct p; reflexivity).
  rewrite Nat.sub_0_r. apply substring_all.
Qed.

Lemma HasPrefix_split (s prefix : string) :
  HasPrefix s prefix = true -> exists rest, s = prefix +++ rest.
Proof.
  unfold HasPrefix. revert s.
  induction prefix as [|c prefix IH]; intros s H.
  - exists s. reflexivity.
  - destruct s as [|d s]; [discriminate H|]. cbn [String.prefix] in H.
    destruct (Ascii.ascii_dec c d) as [<-|]; [|discriminate H].
    destruct (IH s H) as [rest ->]. exists rest. reflexivity.
Qed.

Lemma HasPrefix_file (p : string) :
  HasPrefix ("file://" +++ p) "file://" = true.
Proof. unfold HasPrefix. cbn. destruct p; reflexivity. Qed.

(** X16. A source URI given to [downloadArtifact] is applied to a copy
    of the configuration and changes one field of it: [file://path] makes
    [path] the drop path (the empty path for [file://] alone) and keeps
    the configured source URI; any other non-empty URI becomes the source
    URI and the drop path is kept; the empty URI changes nothing.  The
    target directory, the install path, the time-out and the retry
    interval are never changed. *)
Theorem settingsFor_override (settings : Config) (sourceURI : string) :
  settingsFor settings "" = settings /\
  (forall p,
     DropPath (settingsFor settings ("file://" +++ p)) = p /\
     SourceURI (settingsFor settings ("file://" +++ p))
     = SourceURI settings) /\
  (sourceURI <> EmptyString -> HasPrefix sourceURI "file://" = false ->
   SourceURI (settingsFor settings sourceURI) = sourceURI /\
   DropPath (settingsFor settings sourceURI) = DropPath settings) /\
  (HasPrefix sourceURI "file://" = true ->
   "file://" +++ DropPath (settingsFor settings sourceURI) = sourceURI /\
   SourceURI (settingsFor settings sourceURI) = SourceURI settings) /\
  TargetDirectory (settingsFor settings sourceURI) = TargetDirectory settings
  /\ InstallPath (settingsFor settings sourceURI) = InstallPath settings
  /\ Timeout (settingsFor settings sourceURI) = Timeout settings
  /\ RetrySleepInitDuration (settingsFor settings sourceURI)
     = RetrySleepInitDuration settings.
Proof.
  split; [reflexivity|].
  split.
  { intro p. unfold settingsFor.
    change (String.eqb ("file://" +++ p) "") with false. cbn [negb].
    rewrite HasPrefix_file, TrimPrefix_file. split; reflexivity. }
  split.
  { intros Hne Hp. unfold settingsFor. rewrite Hp.
    apply String.eqb_neq in Hne. rewrite Hne. split; reflexivity. }
  split.
  { intro Hp. destruct (HasPrefix_split sourceURI "file://" Hp) as [p ->].
    unfold settingsFor.
    change (String.eqb ("file://" +++ p) "") with false. cbn [negb].
    rewrite HasPrefix_file, TrimPrefix_file. split; reflexivity. }
  unfold settingsFor.
  destruct (negb (String.eqb sourceURI ""));
    [destruct (HasPrefix sourceURI "file://")|]; cbn; auto 10.
Qed.

Lemma newDownloader_log (version : ParsedSemVer) (settings : Config)
    (a : action D V) :
  In a (snd (newDownloader w version settings)) ->
  exists c, a = New c /\ In c downloaderCtors.
Proof.
  unfold newDownloader.
  destruct (negb (IsSnapshot version));
    [|destruct (snapshotNewDownloader w settings version);
      [|destruct (httpNewDownloader w settings)]];
    cbn [snd In]; intro H;
    repeat (destruct H as [H | H];
            [subst a; eexists; split; [reflexivity | cbn; auto 10]|]);
    contradiction.
Qed.

Lemma newVerifier_log (version : ParsedSemVer) (settings : Config)
    (v : V) (ver : string) (k : list string) :
  ~ In (Verified v ver k) (snd (newVerifier w version settings)).
Proof.
  unfold newVerifier. destruct (PGP w) as [allow pgp].
  destruct (negb (IsSnapshot version));
    [|destruct (fsNewVerifier w settings allow pgp);
      [|destruct (snapshotNewVerifier w settings allow pgp version);
        [|destruct (httpNewVerifier w settings allow pgp)]]];
    cbn [snd In]; intro H;
    repeat (destruct H as [H | H]; [discriminate H|]); exact H.
Qed.

Section Attempts.

Variable downloaderCtor :
  ParsedSemVer -> Config -> (error + D) * log.
Variable version : ParsedSemVer.
Variable settings : Config.

Lemma opFn_run (n : nat) (st : attemptState) :
  (fst (opFn w downloaderCtor version settings n st) = None ->
   exists d,
     fst (downloaderCtor version settings) = inr d /\
     Download w n d (VersionWithPrerelease version)
     = (path (snd (opFn w downloaderCtor version settings n st)), None)) /\
  exists new,
    calls (snd (opFn w downloaderCtor version settings n st))
    = calls st ++ new /\
    (forall a, In a new -> attempted downloaderCtor version settings a).
Proof.
  unfold opFn, attempted. cbv zeta.
  destruct (downloaderCtor version settings) as [[err | d] built];
    cbn [fst snd].
  - split; [discriminate|]. exists built. cbn [calls]. auto.
  - destruct (Download w n d (VersionWithPrerelease version))
      as [p [err|]] eqn:Ed; cbn [fst snd path calls].
    + split; [discriminate|].
      exists (built ++ [Downloaded d (VersionWithPrerelease version)]).
      split; [reflexivity|]. intros a H. apply in_app_or in H.
      destruct H as [H | [H | []]]; [auto|]. right. exists d. auto.
    + split; [intros _; exists d; split; [reflexivity | exact Ed]|].
      exists (built ++ [Downloaded d (VersionWithPrerelease version)]).
      split; [reflexivity|]. intros a H. apply in_app_or in H.
      destruct H as [H | [H | []]]; [auto|]. right. exists d. auto.
Qed.

Lemma attempts_calls (n : nat) (st : attemptState) :
  exists new,
    calls (attempts (opFn w downloaderCtor version settings) n st)
    = calls st ++ new /\
    (forall a, In a new -> attempted downloaderCtor version settings a).
Proof.
  induction n as [|n IH]; cbn [attempts].
  - exists []. rewrite app_nil_r. split; [reflexivity | intros a []].
  - destruct IH as (new & Hc & Hnew).
    destruct (opFn_run n
                (attempts (opFn w downloaderCtor version settings) n st))
      as [_ (new' & Hc' & Hnew')].
    exists (new ++ new'). rewrite Hc', Hc, app_assoc. split; [reflexivity|].
    intros a H. apply in_app_or in H. destruct H; auto.
Qed.

Lemma downloadWithRetries_run (Hretry : retries w) :
  (forall p,
     fst (downloadWithRetries w downloaderCtor version settings) = inr p ->
     exists n d,
       fst (downloaderCtor version settings) = inr d /\
       Download w n d (VersionWithPrerelease version) = (p, None)) /\
  (forall a,
     In a (snd (downloadWithRetries w downloaderCtor version settings)) ->
     attempted downloaderCtor version settings a).
Proof.
  unfold downloadWithRetries.
  destruct (Hretry attemptState (Timeout settings)
              (RetrySleepInitDuration settings)
              (opFn w downloaderCtor version settings)
              {| path := ""; attempt := 0; calls := [] |})
    as (n & Hst & Hnil).
  destruct (RetryNotify w attemptState _ _ _ _) as [err st].
  cbn [fst snd] in Hst, Hnil.
  assert (Hcalls : forall a, In a (calls st) ->
                    attempted downloaderCtor version settings a).
  { destruct (attempts_calls (S n)
                {| path := ""; attempt := 0; calls := [] |})
      as (new & Hc & Hnew).
    rewrite <- Hst in Hc. cbn [calls app] in Hc. rewrite Hc. exact Hnew. }
  destruct err as [err|]; cbn [fst snd]; split; auto; [discriminate|].
  intros p Hp. injection Hp as <-.
  specialize (Hnil eq_refl).
  destruct (opFn_run n (attempts (opFn w downloaderCtor version settings) n
                          {| path := ""; attempt := 0; calls := [] |}))
    as [Hok _].
  destruct (Hok Hnil) as (d & Hd & Hdl).
  exists n, d. split; [exact Hd|]. rewrite Hdl, Hst. reflexivity.
Qed.

End Attempts.

Variable u_settings : Config.
Variables version sourceURI : string.
Variable skipVerifyOverride : bool.
Variable pgpBytes : list string.

Local Abbreviation fallback :=
  (PgpSourceURIPrefix w +++ defaultUpgradeFallbackPGP).

(** X17. [downloadArtifact] returns a path iff the version parses, the
    download directory can be made, the download with retries gives that
    path and, unless verification is skipped, a verifier can be built and
    accepts the package with the keys of the caller followed by the
    fallback key, which is always the last one.  A version that does not
    parse is reported before anything is touched, and with
    [skipVerifyOverride] the result is that of the download alone. *)
Theorem downloadArtifact_outcome :
  let r := downloadArtifact w u_settings version sourceURI
             skipVerifyOverride pgpBytes in
  let settings := settingsFor u_settings sourceURI in
  (forall p,
     fst r = inr p <->
     exists parsed,
       ParseVersion w version = inr parsed /\
       MkdirAll w (Downloads w) = None /\
       fst (downloadWithRetries w (newDownloader w) parsed settings) = inr p
       /\ (skipVerifyOverride = true \/
           exists verifier,
             fst (newVerifier w parsed settings) = inr verifier /\
             Verify w verifier (VersionWithPrerelease parsed)
               (pgpBytes ++ [fallback]) = None)) /\
  (forall err,
     ParseVersion w version = inl err ->
     r = (inl (Errorf_w ("error parsing version " +++ Quote w version
                         +++ ": ") err),
          [Parsed version])) /\
  (forall parsed err,
     ParseVersion w version = inr parsed ->
     MkdirAll w (Downloads w) = Some err ->
     r = (inl (errorsNew2 w err ("failed to create download directory at "
                                 +++ Downloads w)),
          [Parsed version; Mkdir (Downloads w)])) /\
  (forall parsed,
     ParseVersion w version = inr parsed ->
     MkdirAll w (Downloads w) = None ->
     skipVerifyOverride = true ->
     r = (match fst (downloadWithRetries w (newDownloader w) parsed
                       settings) with
          | inl err =>
              inl (errorsNew2 w err "failed download of agent binary")
          | inr p => inr p
          end,
          [Parsed version; Mkdir (Downloads w)]
          ++ snd (downloadWithRetries w (newDownloader w) parsed settings)))
  /\ last (appendFallbackPGP w pgpBytes) EmptyString = fallback.
Proof.
  intros r settings. subst r. unfold downloadArtifact. cbv zeta.
  fold settings. unfold appendFallbackPGP. cbv zeta.
  split; [|split; [|split; [|split]]].
  - intro p.
    destruct (ParseVersion w version) as [err | parsed].
    { cbn [fst]. split; [discriminate|].
      intros (parsed & H & _). discriminate H. }
    destruct (MkdirAll w (Downloads w)) as [err|].
    { cbn [fst]. split; [discriminate|].
      intros (parsed' & _ & H & _). discriminate H. }
    destruct (downloadWithRetries w (newDownloader w) parsed settings)
      as [[err | p'] dl] eqn:Edl; cbn [fst].
    { split; [discriminate|].
      intros (parsed' & H & _ & H' & _). injection H as <-.
      rewrite Edl in H'. discriminate H'. }
    destruct skipVerifyOverride.
    { cbn [fst]. split.
      - intro H. exists parsed. rewrite Edl. auto.
      - intros (parsed' & H & _ & H' & _). injection H as <-.
        rewrite Edl in H'. exact H'. }
    destruct (newVerifier w parsed settings) as [[err | verifier] built]
      eqn:Env; cbn [fst].
    { split; [discriminate|].
      intros (parsed' & H & _ & _ & [H' | (v & H' & _)]);
        [discriminate H'|]. injection H as <-. rewrite Env in H'.
      discriminate H'. }
    destruct (Verify w verifier (VersionWithPrerelease parsed)
                (pgpBytes ++ [fallback])) as [err|] eqn:Ev; cbn [fst].
    { split; [discriminate|].
      intros (parsed' & H & _ & _ & [H' | (v & H' & Hv)]);
        [discriminate H'|]. injection H as <-. rewrite Env in H'.
      injection H' as <-. rewrite Ev in Hv. discriminate Hv. }
    split.
    + intro H. exists parsed. rewrite Edl, Env. repeat split; auto.
      right. exists verifier. auto.
    + intros (parsed' & H & _ & H' & _). injection H as <-.
      rewrite Edl in H'. exact H'.
  - intros err ->. reflexivity.
  - intros parsed err -> ->. reflexivity.
  - intros parsed -> -> ->.
    destruct (downloadWithRetries w (newDownloader w) parsed settings)
      as [[err | p'] dl]; reflexivity.
  - apply last_last.
Qed.

(** X18. When [backoff.RetryNotify] returns nil only after an attempt
    that did, a path returned by [downloadArtifact] is the path that one
    attempt downloaded with a downloader built by [newDownloader] for the
    parsed version on the configuration with the source URI applied.
    Every download is made with such a downloader and only after the
    version parsed and the directory was made; the verifier is called at
    most once, as the last call, with the keys of the caller followed by
    the fallback key; with [skipVerifyOverride] it is neither built nor
    called. *)
Theorem downloadArtifact_provenance (Hretry : retries w) :
  let r := downloadArtifact w u_settings version sourceURI
             skipVerifyOverride pgpBytes in
  let settings := settingsFor u_settings sourceURI in
  (forall p,
     fst r = inr p ->
     exists parsed n d,
       ParseVersion w version = inr parsed /\
       fst (newDownloader w parsed settings) = inr d /\
       Download w n d (VersionWithPrerelease parsed) = (p, None)) /\
  (forall d ver,
     In (Downloaded d ver) (snd r) ->
     exists parsed,
       ParseVersion w version = inr parsed /\
       MkdirAll w (Downloads w) = None /\
       fst (newDownloader w parsed settings) = inr d /\
       ver = VersionWithPrerelease parsed) /\
  (forall verifier ver keys,
     In (Verified verifier ver keys) (snd r) ->
     skipVerifyOverride = false /\
     keys = pgpBytes ++ [fallback] /\
     (exists parsed,
        ParseVersion w version = inr parsed /\
        fst (newVerifier w parsed settings) = inr verifier /\
        ver = VersionWithPrerelease parsed) /\
     exists pre,
       snd r = pre ++ [Verified verifier ver keys] /\
       forall verifier' ver' keys',
         ~ In (Verified verifier' ver' keys') pre) /\
  (skipVerifyOverride = true ->
   forall c, In (New c) (snd r) -> In c downloaderCtors).
Proof.
  intros r settings. subst r. unfold downloadArtifact. cbv zeta.
  fold settings. unfold appendFallbackPGP. cbv zeta.
  destruct (ParseVersion w version) as [err | parsed] eqn:Ep.
  { cbn [fst snd In].
    split; [discriminate|].
    split; [intros d ver [H | []]; discriminate H|].
    split; [intros v ver k [H | []]; discriminate H|].
    intros _ c [H | []]; discriminate H. }
  destruct (MkdirAll w (Downloads w)) as [err|] eqn:Em.
  { cbn [fst snd In].
    split; [discriminate|].
    split; [intros d ver [H | [H | []]]; discriminate H|].
    split; [intros v ver k [H | [H | []]]; discriminate H|].
    intros _ c [H | [H | []]]; discriminate H. }
  destruct (downloadWithRetries_run (newDownloader w) parsed settings Hretry)
    as [Hpath Hcalls].
  assert (Hdl : forall a,
            In a ([Parsed version; Mkdir (Downloads w)]
                  ++ snd (downloadWithRetries w (newDownloader w) parsed
                            settings)) ->
            (forall v ver k, a <> Verified v ver k) /\
            (forall d ver, a = Downloaded d ver ->
               fst (newDownloader w parsed settings) = inr d /\
               ver = VersionWithPrerelease parsed) /\
            (forall c, a = New c -> In c downloaderCtors)).
  { intros a H. cbn [app In] in H.
    destruct H as [<- | [<- | H]];
      [split; [discriminate|]; split; discriminate ..|].
    apply Hcalls in H. destruct H as [H | (d & -> & Hd)].
    - apply newDownloader_log in H. destruct H as (c & -> & Hc).
      split; [discriminate|]. split; [discriminate|].
      intros c' H'. now injection H' as <-.
    - split; [discriminate|]. split; [|discriminate].
      intros d' ver' H'. now injection H' as <- <-. }
  destruct (downloadWithRetries w (newDownloader w) parsed settings)
    as [[err | p'] dl]; cbn [fst snd] in *.
  { split; [discriminate|].
    split; [intros d ver H; apply Hdl in H;
            destruct H as (_ & H & _); destruct (H d ver eq_refl);
            exists parsed; auto|].
    split; [intros v ver k H; apply Hdl in H;
            destruct H as (H & _); now elim (H v ver k)|].
    intros _ c H. apply Hdl in H. destruct H as (_ & _ & H). now apply H. }
  assert (Hp : forall p, @inr error string p' = inr p ->
               exists parsed' n d,
                 @inr error ParsedSemVer parsed = inr parsed' /\
                 fst (newDownloader w parsed' settings) = inr d /\
                 Download w n d (VersionWithPrerelease parsed') = (p, None)).
  { intros p H. injection H as <-.
    destruct (Hpath p' eq_refl) as (n & d & Hd & Hdown).
    exists parsed, n, d. auto. }
  destruct skipVerifyOverride.
  { cbn [fst snd].
    split; [exact Hp|].
    split; [intros d ver H; apply Hdl in H;
            destruct H as (_ & H & _); destruct (H d ver eq_refl);
            exists parsed; auto|].
    split; [intros v ver k H; apply Hdl in H;
            destruct H as (H & _); now elim (H v ver k)|].
    intros _ c H. apply Hdl in H. destruct H as (_ & _ & H). now apply H. }
  pose proof (newVerifier_log parsed settings) as Hnv.
  assert (Hnd : forall d ver,
            ~ In (Downloaded d ver) (snd (newVerifier w parsed settings))).
  { intros d ver. unfold newVerifier. destruct (PGP w) as [allow pgp].
    destruct (negb (IsSnapshot parsed));
      [|destruct (fsNewVerifier w settings allow pgp);
        [|destruct (snapshotNewVerifier w settings allow pgp parsed);
          [|destruct (httpNewVerifier w settings allow pgp)]]];
      cbn [snd In]; intro H;
      repeat (destruct H as [H | H]; [discriminate H|]); exact H. }
  destruct (newVerifier w parsed settings) as [[err | verifier] built]
    eqn:Env; cbn [fst snd] in *.
  { split; [discriminate|].
    split; [intros d ver H; apply in_app_or in H; destruct H as [H | H];
            [apply Hdl in H; destruct H as (_ & H & _);
             destruct (H d ver eq_refl); exists parsed; auto
            | now apply Hnd in H]|].
    split; [|discriminate].
    intros v ver k H. apply in_app_or in H. destruct H as [H | H];
      [apply Hdl in H; destruct H as (H & _); now elim (H v ver k)
      | now apply Hnv in H]. }
  assert (Hlast : forall v ver k,
            In (Verified v ver k)
               ((Parsed version :: Mkdir (Downloads w) :: dl) ++ built ++
                [Verified verifier (VersionWithPrerelease parsed)
                   (pgpBytes ++ [fallback])]) ->
            false = false /\
            k = pgpBytes ++ [fallback] /\
            (exists parsed',
               @inr error ParsedSemVer parsed = inr parsed' /\
               fst (newVerifier w parsed' settings) = inr v /\
               ver = VersionWithPrerelease parsed') /\
            exists pre,
              (Parsed version :: Mkdir (Downloads w) :: dl) ++ built ++
              [Verified verifier (VersionWithPrerelease parsed)
                 (pgpBytes ++ [fallback])]
              = pre ++ [Verified v ver k] /\
              forall v' ver' k', ~ In (Verified v' ver' k') pre).
  { intros v ver k H. apply in_app_or in H. destruct H as [H | H];
      [apply Hdl in H; destruct H as (H & _); now elim (H v ver k)|].
    apply in_app_or in H. destruct H as [H | [H | []]];
      [now apply Hnv in H|].
    injection H as <- <- <-.
    split; [reflexivity|]. split; [reflexivity|].
    split; [exists parsed; rewrite Env; auto|].
    exists ((Parsed version :: Mkdir (Downloads w) :: dl) ++ built).
    split; [now rewrite <- app_assoc|].
    intros v' ver' k' H. apply in_app_or in H. destruct H as [H | H];
      [apply Hdl in H; destruct H as (H & _); now elim (H v' ver' k')
      | now apply Hnv in H]. }
  assert (Hdown : forall d ver,
            In (Downloaded d ver)
               ((Parsed version :: Mkdir (Downloads w) :: dl) ++ built ++
                [Verified verifier (VersionWithPrerelease parsed)
                   (pgpBytes ++ [fallback])]) ->
            exists parsed',
              @inr error ParsedSemVer parsed = inr parsed' /\
              @None error = None /\
              fst (newDownloader w parsed' settings) = inr d /\
              ver = VersionWithPrerelease parsed').
  { intros d ver H. apply in_app_or in H. destruct H as [H | H];
      [apply Hdl in H; destruct H as (_ & H & _);
       destruct (H d ver eq_refl); exists parsed; auto|].
    apply in_app_or in H. destruct H as [H | [H | []]];
      [now apply Hnd in H | discriminate H]. }
  destruct (Verify w verifier (VersionWithPrerelease parsed)
              (pgpBytes ++ [fallback])); cbn [fst snd].
  - split; [discriminate|]. split; [exact Hdown|].
    split; [exact Hlast | discriminate].
  - split; [exact Hp|]. split; [exact Hdown|].
    split; [exact Hlast | discriminate].
Qed.

(** X19. For a release [newDownloader] and [newVerifier] build the
    [localremote] downloader and verifier and nothing else.  For a
    snapshot both compose the same three sources in the same order, file
    system, snapshot repository, official repository, on the
    configuration given.  The constructors are called in a fixed order
    (snapshot, http, file system for the downloader; file system,
    snapshot, http for the verifier), the error of the first that fails
    is returned as it is, and none is called after it. *)
Theorem snapshot_sources_in_order (parsed : ParsedSemVer)
    (settings : Config) :
  let allow := fst (PGP w) in
  let pgp := snd (PGP w) in
  let downloader := newDownloader w parsed settings in
  let verifier := newVerifier w parsed settings in
  (IsSnapshot parsed = false ->
   downloader
   = (localremoteNewDownloader w settings, [New localremote_NewDownloader])
   /\ verifier
      = (localremoteNewVerifier w settings allow pgp,
         [New localremote_NewVerifier])) /\
  (IsSnapshot parsed = true ->
   (forall d,
      fst downloader = inr d <->
      exists snap http,
        snapshotNewDownloader w settings parsed = inr snap /\
        httpNewDownloader w settings = inr http /\
        d = composedNewDownloader w [fsNewDownloader w settings; snap; http])
   /\
   (forall err,
      fst downloader = inl err <->
      snapshotNewDownloader w settings parsed = inl err \/
      (exists snap, snapshotNewDownloader w settings parsed = inr snap) /\
      httpNewDownloader w settings = inl err) /\
   (exists rest,
      [New snapshot_NewDownloader; New http_NewDownloader;
       New fs_NewDownloader; New composed_NewDownloader]
      = snd downloader ++ rest) /\
   (In (New http_NewDownloader) (snd downloader) <->
    exists snap, snapshotNewDownloader w settings parsed = inr snap) /\
   (In (New fs_NewDownloader) (snd downloader) <->
    exists d, fst downloader = inr d) /\
   (forall v,
      fst verifier = inr v <->
      exists fs snap http,
        fsNewVerifier w settings allow pgp = inr fs /\
        snapshotNewVerifier w settings allow pgp parsed = inr snap /\
        httpNewVerifier w settings allow pgp = inr http /\
        v = composedNewVerifier w [fs; snap; http]) /\
   (forall err,
      fst verifier = inl err <->
      fsNewVerifier w settings allow pgp = inl err \/
      (exists fs, fsNewVerifier w settings allow pgp = inr fs) /\
      (snapshotNewVerifier w settings allow pgp parsed = inl err \/
       (exists snap,
          snapshotNewVerifier w settings allow pgp parsed = inr snap) /\
       httpNewVerifier w settings allow pgp = inl err)) /\
   (exists rest,
      [New fs_NewVerifier; New snapshot_NewVerifier; New http_NewVerifier;
       New composed_NewVerifier]
      = snd verifier ++ rest) /\
   (In (New snapshot_NewVerifier) (snd verifier) <->
    exists fs, fsNewVerifier w settings allow pgp = inr fs) /\
   (In (New http_NewVerifier) (snd verifier) <->
    (exists fs, fsNewVerifier w settings allow pgp = inr fs) /\
    exists snap,
      snapshotNewVerifier w settings allow pgp parsed = inr snap) /\
   (In (New composed_NewVerifier) (snd verifier) <->
    exists v, fst verifier = inr v)).
Proof.
  cbv zeta. unfold newDownloader, newVerifier.
  destruct (PGP w) as [allow pgp]. cbn [fst snd].
  split; intros ->; cbn [negb]; [auto|].
  split; [|split; [|split; [|split; [|split]]]].
  - intro d.
    destruct (snapshotNewDownloader w settings parsed) as [e | snap];
      [cbn [fst]; split; [discriminate
                         | intros (s & h & H & _); discriminate H]|].
    destruct (httpNewDownloader w settings) as [e | http];
      [cbn [fst]; split; [discriminate
                         | intros (s & h & _ & H & _); discriminate H]|].
    cbn [fst]. split.
    + intro H. injection H as <-. eauto.
    + intros (s & h & Hs & Hh & ->). injection Hs as <-.
      injection Hh as <-. reflexivity.
  - intro err.
    destruct (snapshotNewDownloader w settings parsed) as [e | snap].
    { cbn [fst]. split.
      - intro H. injection H as <-. now left.
      - intros [H | [[s H] _]]; [exact H | discriminate H]. }
    destruct (httpNewDownloader w settings) as [e | http]; cbn [fst].
    + split.
      * intro H. injection H as <-. right. eauto.
      * intros [H | [_ H]]; [discriminate H | exact H].
    + split; [discriminate|].
      intros [H | [_ H]]; discriminate H.
  - destruct (snapshotNewDownloader w settings parsed) as [e | snap];
      [|destruct (httpNewDownloader w settings) as [e | http]];
      cbn [snd]; eexists; cbn [app]; reflexivity.
  - destruct (snapshotNewDownloader w settings parsed) as [e | snap];
      [|destruct (httpNewDownloader w settings) as [e | http]];
      cbn [snd In]; split;
      try (intros [H | H]; [discriminate H|]);
      try (intros [s H]; discriminate H);
      eauto; try tauto;
      intros; repeat (destruct H as [H | H]; try discriminate H);
      contradiction.
  - split.
    + destruct (snapshotNewDownloader w settings parsed) as [e | snap];
        [|destruct (httpNewDownloader w settings) as [e | http]];
        cbn [fst snd In]; intro H;
        repeat (destruct H as [H | H]; try discriminate H);
        try contradiction; eauto.
    + destruct (snapshotNewDownloader w settings parsed) as [e | snap];
        [|destruct (httpNewDownloader w settings) as [e | http]];
        cbn [fst snd In]; intros [d H]; try discriminate H; auto.
  - split; [|split; [|split; [|split; [|split]]]].
    + intro v.
      destruct (fsNewVerifier w settings allow pgp) as [e | fs];
        [cbn [fst]; split; [discriminate
                           | intros (f & s & h & H & _); discriminate H]|].
      destruct (snapshotNewVerifier w settings allow pgp parsed)
        as [e | snap];
        [cbn [fst]; split; [discriminate
                           | intros (f & s & h & _ & H & _);
                             discriminate H]|].
      destruct (httpNewVerifier w settings allow pgp) as [e | http];
        [cbn [fst]; split; [discriminate
                           | intros (f & s & h & _ & _ & H & _);
                             discriminate H]|].
      cbn [fst]. split.
      * intro H. injection H as <-. exists fs, snap, http. auto.
      * intros (f & s & h & Hf & Hs & Hh & ->). injection Hf as <-.
        injection Hs as <-. injection Hh as <-. reflexivity.
    + intro err.
      destruct (fsNewVerifier w settings allow pgp) as [e | fs].
      { cbn [fst]. split.
        - intro H. injection H as <-. now left.
        - intros [H | [[f H] _]]; [exact H | discriminate H]. }
      destruct (snapshotNewVerifier w settings allow pgp parsed)
        as [e | snap].
      { cbn [fst]. split.
        - intro H. injection H as <-. right. split; [eauto | now left].
        - intros [H | [_ [H | [[s H] _]]]];
            [discriminate H | exact H | discriminate H]. }
      destruct (httpNewVerifier w settings allow pgp) as [e | http];
        cbn [fst].
      * split.
        -- intro H. injection H as <-. right. split; [eauto|]. right.
           split; [eauto | reflexivity].
        -- intros [H | [_ [H | [_ H]]]];
             [discriminate H | discriminate H | exact H].
      * split; [discriminate|].
        intros [H | [_ [H | [_ H]]]]; discriminate H.
    + destruct (fsNewVerifier w settings allow pgp) as [e | fs];
        [|destruct (snapshotNewVerifier w settings allow pgp parsed)
            as [e | snap];
          [|destruct (httpNewVerifier w settings allow pgp)
              as [e | http]]];
        cbn [snd]; eexists; cbn [app]; reflexivity.
    + destruct (fsNewVerifier w settings allow pgp) as [e | fs];
        [|destruct (snapshotNewVerifier w settings allow pgp parsed)
            as [e | snap];
          [|destruct (httpNewVerifier w settings allow pgp)
              as [e | http]]];
        cbn [snd In]; split;
        try (intros [f H]; discriminate H);
        eauto; try tauto;
        intro H; repeat (destruct H as [H | H]; try discriminate H);
        contradiction.
    + destruct (fsNewVerifier w settings allow pgp) as [e | fs];
        [|destruct (snapshotNewVerifier w settings allow pgp parsed)
            as [e | snap];
          [|destruct (httpNewVerifier w settings allow pgp)
              as [e | http]]];
        cbn [snd In]; split;
        try (intros [[f H] _]; discriminate H);
        try (intros [_ [s H]]; discriminate H);
        eauto; try tauto;
        intro H; repeat (destruct H as [H | H]; try discriminate H);
        contradiction.
    + destruct (fsNewVerifier w settings allow pgp) as [e | fs];
        [|destruct (snapshotNewVerifier w settings allow pgp parsed)
            as [e | snap];
          [|destruct (httpNewVerifier w settings allow pgp)
              as [e | http]]];
        cbn [fst snd In]; split;
        try (intros [v H]; discriminate H);
        eauto; try tauto;
        intro H; repeat (destruct H as [H | H]; try discriminate H);
        contradiction.
Qed.

End UpgradeDownload.

(** ** The added properties, run

    The theorems of the last sections at concrete inputs: the endpoint
    supervisor, a checkout with two modules, and an upgrade from a mirror
    whose first download fails. *)

Lemma endpoint_started_reachable :
  reachable (ops := noUnits) endpoint (withActionCh None endpointStarting)
            startedLocals.
Proof.
  refine (reach_iteration endpoint (calm 1) recvAction
            (withActionCh (Some actionStart) endpointStopped) _
            idleLocals _ _ _ _); [|reflexivity].
  refine (reach_action endpoint endpointStopped _ idleLocals actionStart
            atSend atReturn _ _); [|reflexivity].
  refine (reach_action endpoint endpointStopped _ idleLocals actionStart
            atSelect atSend _ _); [|reflexivity].
  exact (reach_Run endpoint endpointStopped eq_refl).
Qed.

Lemma update_processing_witness :
  validComponent (comp endpointHealthy) = true /\
  exists log,
    Run_iteration (ops := noUnits) (calm 1) recvComp
      (withCompCh (Some endpoint) endpointHealthy) startedLocals
    = Some (endpointHealthy, startedLocals, log, None) /\
    observations log = [] /\ filter isMutatorCall log = [].
Proof.
  split; [reflexivity|].
  destruct (update_processing (ops := noUnits) (calm 1) endpoint
              endpointHealthy startedLocals eq_refl)
    as (log & H & _ & Ho & Hm & _).
  exists log. split; [exact H|]. split; [exact Ho | exact Hm].
Defined.

Lemma context_done_releases_witness :
  exists l' log,
    Run_iteration (ops := noUnits) (calm 1) ctxDone endpointHealthy
      startedLocals
    = Some (endpointHealthy, l', log, Some (errorsNew "context canceled")) /\
    cis l' = None /\ checkinTimer l' = None /\ In (EvCisStop 6788) log.
Proof.
  destruct (context_done_releases (ops := noUnits) (calm 1) endpointHealthy
              startedLocals)
    as (l' & log & H & Hc & Ht & _ & _ & Hin & _).
  exists l', log. split; [exact H|]. split; [exact Hc|].
  split; [exact Ht|]. exact (Hin {| port := 6788 |} eq_refl).
Defined.

Lemma stop_only_forces_Stopped_witness :
  validComponent (comp endpointHealthy) = true /\
  exists s' l' log,
    Run_iteration (ops := noUnits) (calm 9) recvAction
      (withActionCh (Some actionStop) endpointHealthy) (checkedInLocals 5 0)
    = Some (s', l', log, None) /\
    State (state s') = UnitStateStopped /\
    lastCheckin l' = 5 /\ filter isExecute log = [].
Proof.
  split; [reflexivity|].
  destruct (stop_only_forces_Stopped (ops := noUnits) (calm 9)
              endpointHealthy (checkedInLocals 5 0) eq_refl)
    as (s' & l' & log & H & HS & _ & _ & _ & _ & Hl & _ & He & _).
  exists s', l', log. split; [exact H|]. split; [exact HS|].
  split; [exact Hl | exact He].
Defined.

Lemma teardown_handshake_witness :
  validComponent (comp endpointHealthy) = true /\
  exists s' l' log,
    Run_iteration (ops := noUnits) (failing 9) recvAction
      (withActionCh (Some actionTeardown) endpointHealthy)
      (checkedInLocals 5 0)
    = Some (s', l', log, None) /\
    ExpectedState (state s') = UnitStateStopping.
Proof.
  split; [reflexivity|].
  pose proof (teardown_handshake (ops := noUnits) (failing 9)
                endpointHealthy (checkedInLocals 5 0) eq_refl) as H.
  cbv zeta in H. destruct H as (s' & l' & log & H & _ & HE).
  exists s', l', log. split; [exact H | exact HE].
Defined.

Lemma server_up_only_while_watched_witness :
  reachable (ops := noUnits) endpoint endpointStopped idleLocals /\
  isRunning endpointStopped = false /\
  Run_tick (ops := noUnits) (calm 1) endpointStopped idleLocals
  = (endpointStopped,
     {| cis := None; lastCheckin := zeroTime; missedCheckins := 0;
        checkinTimer := Some defaultCheckServiceStatusInterval |},
     [EvTimerReset defaultCheckServiceStatusInterval]) /\
  reachable (ops := noUnits) endpoint endpointStopped
    {| cis := None; lastCheckin := zeroTime; missedCheckins := 0;
       checkinTimer := Some defaultCheckServiceStatusInterval |}.
Proof.
  assert (Hreach : reachable (ops := noUnits) endpoint endpointStopped
                     idleLocals)
    by exact (reach_Run endpoint endpointStopped eq_refl).
  split; [exact Hreach|]. split; [reflexivity|].
  destruct (server_up_only_while_watched (ops := noUnits) endpoint
              endpointStopped idleLocals Hreach) as (_ & _ & H).
  destruct (H eq_refl) as [_ Htick].
  exact (Htick (calm 1)).
Defined.

Lemma stopped_until_Start_witness :
  isRunning endpointStopped = false /\
  exists s' l' log r,
    Run_iteration (ops := noUnits) (calm 1) (recvCheckin tt) endpointStopped
      idleLocals
    = Some (s', l', log, r) /\
    isRunning s' = false.
Proof.
  split; [reflexivity|].
  eexists. eexists. eexists. eexists. split; [reflexivity|].
  refine (stopped_until_Start (ops := noUnits) (calm 1) (recvCheckin tt)
            endpointStopped _ idleLocals _ _ _ eq_refl eq_refl _).
  discriminate.
Defined.

Lemma Starting_only_through_Start_witness :
  exists log,
    Run_iteration (ops := noUnits) (calm 1) recvAction
      (withActionCh (Some actionStart) endpointStopped) idleLocals
    = Some (withActionCh None endpointStarting, startedLocals, log, None) /\
    State (state (withActionCh None endpointStarting)) = UnitStateStarting /\
    ((@recvAction unit = recvAction /\
      actionCh (withActionCh (Some actionStart) endpointStopped)
      = Some actionStart) \/
     (State (state (withActionCh (Some actionStart) endpointStopped))
      = UnitStateStarting /\
      forall checkin : unit, recvAction <> recvCheckin checkin)).
Proof.
  eexists. split; [reflexivity|]. split; [reflexivity|].
  exact (Starting_only_through_Start (ops := noUnits) (calm 1) recvAction
           (withActionCh (Some actionStart) endpointStopped)
           (withActionCh None endpointStarting) idleLocals startedLocals
           _ None eq_refl eq_refl).
Defined.

Lemma frame_written_by_checkin_tick_Start_witness :
  exists log,
    Run_iteration (ops := noUnits) (calm 7) (recvCheckin tt) endpointStarting
      startedLocals
    = Some (endpointHealthy, checkedInLocals 7 0, log, None) /\
    (lastCheckin (checkedInLocals 7 0) <> lastCheckin startedLocals ->
     ((exists checkin : unit, recvCheckin tt = recvCheckin checkin) /\
      isRunning endpointStarting = true /\
      lastCheckin (checkedInLocals 7 0) = now (calm 7)) \/
     (recvCheckin tt = recvAction /\
      actionCh endpointStarting = Some actionStart /\
      lastCheckin (checkedInLocals 7 0) = zeroTime)).
Proof.
  eexists. split; [reflexivity|].
  exact (proj1 (frame_written_by_checkin_tick_Start (ops := noUnits)
                  (calm 7) (recvCheckin tt) endpointStarting endpointHealthy
                  startedLocals (checkedInLocals 7 0) _ None eq_refl)).
Defined.

Lemma tick_observes_only_changes_witness :
  validComponent (comp endpointHealthy) = true /\
  isRunning endpointHealthy = true /\
  checkinTimer (checkedInLocals 5 0) <> None /\
  exists s' l' log,
    Run_iteration (ops := noUnits) (calm 6) timerFired endpointHealthy
      (checkedInLocals 5 0)
    = Some (s', l', log, None) /\
    (observations log = [] -> state s' = state endpointHealthy) /\
    last log EvTimerStop = EvTimerReset defaultCheckServiceStatusInterval.
Proof.
  split; [reflexivity|]. split; [reflexivity|]. split; [discriminate|].
  assert (Hrange : 0 <= 0 < maxCheckinMisses)
    by (unfold maxCheckinMisses; lia).
  assert (Harmed : checkinTimer (checkedInLocals 5 0) <> None)
    by discriminate.
  destruct (tick_observes_only_changes (ops := noUnits) (calm 6)
              endpointHealthy (checkedInLocals 5 0) eq_refl eq_refl Harmed
              Hrange)
    as (s' & l' & log & H & _ & _ & Hsame & _ & Hlast).
  exists s', l', log. split; [exact H|]. split; [exact Hsame | exact Hlast].
Defined.

Lemma component_fixed_at_construction_witness :
  reachable (ops := noUnits) endpoint (withActionCh None endpointStarting)
            startedLocals /\
  comp (withActionCh None endpointStarting) = endpoint /\
  validComponent endpoint = true /\
  forall e s',
    Start (withActionCh None endpointStarting) = Some (e, s') \/
    Stop (withActionCh None endpointStarting) = Some (e, s') \/
    Teardown (withActionCh None endpointStarting) = Some (e, s') ->
    comp s' = endpoint /\ compCh s' = None.
Proof.
  split; [exact endpoint_started_reachable|].
  destruct (component_fixed_at_construction (ops := noUnits) endpoint _ _
              endpoint_started_reachable)
    as (Hc & Hv & _ & _ & _ & _ & _ & Hcall & _).
  split; [exact Hc|]. split; [exact Hv | exact Hcall].
Defined.

Section Checkout.

Import Ascii.

Lemma testTagsFromEnv_shape_witness :
  Mage.Join (Mage.testTagsFromEnv (Mage.checkout " oracle,mysql, " "")) ","
  = "oracle,mysql"%string /\
  existsb (Ascii.eqb ","%char) (list_ascii_of_string "mysql") = false.
Proof.
  destruct (testTagsFromEnv_shape (Mage.checkout " oracle,mysql, " ""))
    as (_ & HJ & Hin & _).
  split; [exact HJ|]. apply Hin. vm_compute. right. left. reflexivity.
Defined.

Lemma tags_flag_witness :
  Mage.blank ", " (Mage.Getenv (Mage.checkout "" "") "TEST_TAGS") = true /\
  Mage.tagsFlag (Mage.DefaultGoTestUnitArgs (Mage.checkout "" "")) = [] /\
  Mage.tagsFlag (Mage.DefaultGoTestIntegrationArgs (Mage.checkout "" ""))
  = ["-tags"; " integration"]%string.
Proof.
  split; [reflexivity|].
  destruct (tags_flag (Mage.checkout "" "")
              (Mage.DefaultGoTestUnitArgs (Mage.checkout "" "")))
    as (_ & _ & H & _).
  exact (H eq_refl).
Defined.

Lemma goTestCommandLine_structure_witness :
  let w := Mage.checkout "" "" in
  let params := Mage.DefaultGoTestUnitArgs w in
  Mage.JUnitReportFile params <> "--"%string /\
  exists pre,
    Mage.goTestCommandLine w params
    = pre ++ "--"%string :: Mage.testFlags w params
          ++ Mage.ExtraFlags params ++ Mage.Packages params /\
    ~ In "--"%string pre.
Proof.
  intros w params.
  assert (Hne : Mage.JUnitReportFile params <> "--"%string)
    by (vm_compute; discriminate).
  split; [exact Hne|].
  destruct (goTestCommandLine_structure w params) as (_ & H & _).
  exact (H Hne).
Defined.

Lemma GoTest_outcome_witness :
  let w := Mage.checkout "" "" in
  let params := Mage.DefaultGoTestUnitArgs w in
  fst (Mage.GoTest w params) = None /\
  In (Mage.Run "gotestsum" (Mage.goTestCommandLine w params))
     (snd (Mage.GoTest w params)).
Proof.
  intros w params.
  pose proof (GoTest_outcome w params) as H. cbv zeta in H.
  destruct H as (H1 & H2 & _).
  split.
  - apply H1. split; [reflexivity|]. split; [reflexivity|].
    right. reflexivity.
  - apply H2. reflexivity.
Defined.

Lemma GoTestIntegrationForModule_outcome_witness :
  let w := Mage.checkout "" "" in
  Mage.ReadDir w "./module"
  = inr [{| Mage.fileName := "README.md"; Mage.IsDir := false |};
         {| Mage.fileName := "apache"; Mage.IsDir := true |};
         {| Mage.fileName := "mysql"; Mage.IsDir := true |}] /\
  Mage.GoTestIntegrationForModule w
  = (Some (errorsNew "failed modules: mysql"),
     [Mage.Runners "apache"; Mage.RunnersTest "apache";
      Mage.Runners "mysql"; Mage.RunnersTest "mysql"]).
Proof.
  intro w. split; [reflexivity|].
  pose proof (GoTestIntegrationForModule_outcome w _ eq_refl) as H.
  cbv zeta in H. destruct H as (H & _).
  assert (Hsetup :
            Forall (fun fi => Mage.NewIntegrationRunners w (Mage.fileName fi)
                              = None)
                   (Mage.selected (Mage.Getenv w "MODULE")
                      [{| Mage.fileName := "README.md";
                          Mage.IsDir := false |};
                       {| Mage.fileName := "apache"; Mage.IsDir := true |};
                       {| Mage.fileName := "mysql"; Mage.IsDir := true |}]))
    by (vm_compute; repeat constructor).
  destruct (H Hsetup) as [Hlog Herr].
  rewrite (surjective_pairing (Mage.GoTestIntegrationForModule w)).
  rewrite Hlog, Herr. reflexivity.
Defined.

End Checkout.

Lemma settingsFor_override_witness :
  let uri := "https://mirror.example/downloads/"%string in
  uri <> EmptyString /\ Upgrade.HasPrefix uri "file://" = false /\
  Upgrade.SourceURI (Upgrade.settingsFor Upgrade.installed uri) = uri /\
  Upgrade.DropPath (Upgrade.settingsFor Upgrade.installed uri)
  = EmptyString /\
  Upgrade.HasPrefix "file:///tmp/drop" "file://" = true /\
  Upgrade.DropPath (Upgrade.settingsFor Upgrade.installed "file:///tmp/drop")
  = "/tmp/drop"%string.
Proof.
  intro uri. split; [discriminate|]. split; [reflexivity|].
  destruct (settingsFor_override Upgrade.installed uri)
    as (_ & _ & H & _).
  destruct (H ltac:(discriminate) eq_refl) as [Hs Hd].
  split; [exact Hs|]. split; [exact Hd|]. split; [reflexivity|].
  destruct (settingsFor_override Upgrade.installed "file:///tmp/drop")
    as (_ & Hfile & _).
  exact (proj1 (Hfile "/tmp/drop"%string)).
Defined.

Lemma downloadArtifact_outcome_witness :
  fst (Upgrade.downloadArtifact Upgrade.mirror Upgrade.installed "8.9.0" ""
         false ["key"%string])
  = inr "data/downloads/elastic-agent-8.9.0.tar.gz"%string /\
  Upgrade.ParseVersion Upgrade.mirror "latest"
  = inl (errorsNew "invalid version") /\
  Upgrade.downloadArtifact Upgrade.mirror Upgrade.installed "latest" ""
    false []
  = (inl (Errorf_w
            ("error parsing version "
             +++ String Upgrade.dquote
                   ("latest" +++ String Upgrade.dquote ": "))
            (errorsNew "invalid version")),
     [Upgrade.Parsed "latest"]).
Proof.
  split.
  - pose proof (downloadArtifact_outcome Upgrade.mirror Upgrade.installed
                  "8.9.0" "" false ["key"%string]) as H.
    cbv zeta in H. destruct H as (H & _).
    apply (proj2 (H "data/downloads/elastic-agent-8.9.0.tar.gz"%string)).
    exists {| Upgrade.IsSnapshot := false;
              Upgrade.VersionWithPrerelease := "8.9.0" |}.
    split; [reflexivity|]. split; [reflexivity|]. split; [reflexivity|].
    right.
    exists "localremote:https://artifacts.elastic.co/downloads/"%string.
    split; reflexivity.
  - split; [reflexivity|].
    destruct (downloadArtifact_outcome Upgrade.mirror Upgrade.installed
                "latest" "" false [])
      as (_ & H & _).
    exact (H _ eq_refl).
Defined.

Lemma retryUpTo_attempts {S : Type} (op : nat -> S -> option error * S)
    (st0 : S) (fuel : nat) :
  forall n,
  exists m,
    snd (Upgrade.retryUpTo fuel n op (Upgrade.attempts op n st0))
    = Upgrade.attempts op (Datatypes.S m) st0 /\
    (fst (Upgrade.retryUpTo fuel n op (Upgrade.attempts op n st0)) = None ->
     fst (op m (Upgrade.attempts op m st0)) = None).
Proof.
  induction fuel as [|fuel IH]; intro n; cbn [Upgrade.retryUpTo].
  - exists n. split; [reflexivity | auto].
  - destruct (op n (Upgrade.attempts op n st0)) as [[err|] st'] eqn:E.
    + specialize (IH (Datatypes.S n)). cbn [Upgrade.attempts] in IH.
      rewrite E in IH. exact IH.
    + exists n. cbn [Upgrade.attempts]. rewrite E. auto.
Qed.

Lemma mirror_retries : Upgrade.retries Upgrade.mirror.
Proof.
  intros S timeout init op st.
  exact (retryUpTo_attempts op st 2 0).
Qed.

Lemma downloadArtifact_provenance_witness :
  Upgrade.retries Upgrade.mirror /\
  exists parsed n d,
    Upgrade.ParseVersion Upgrade.mirror "8.9.0" = inr parsed /\
    fst (Upgrade.newDownloader Upgrade.mirror parsed
           (Upgrade.settingsFor Upgrade.installed ""))
    = inr d /\
    Upgrade.Download Upgrade.mirror n d
      (Upgrade.VersionWithPrerelease parsed)
    = ("data/downloads/elastic-agent-8.9.0.tar.gz"%string, None).
Proof.
  split; [exact mirror_retries|].
  pose proof (downloadArtifact_provenance Upgrade.mirror Upgrade.installed
                "8.9.0" "" false [] mirror_retries) as H.
  cbv zeta in H. destruct H as (H & _).
  exact (H _ eq_refl).
Defined.

Lemma snapshot_sources_in_order_witness :
  let snapshot :=
    {| Upgrade.IsSnapshot := true;
       Upgrade.VersionWithPrerelease := "8.9.0-SNAPSHOT" |} in
  Upgrade.IsSnapshot snapshot = true /\
  Upgrade.httpNewDownloader (Upgrade.mirrorWith false) Upgrade.installed
  = inl (errorsNew "invalid proxy URL") /\
  fst (Upgrade.newDownloader (Upgrade.mirrorWith false) snapshot
         Upgrade.installed)
  = inl (errorsNew "invalid proxy URL") /\
  ~ In (Upgrade.New Upgrade.fs_NewDownloader)
       (snd (Upgrade.newDownloader (Upgrade.mirrorWith false) snapshot
               Upgrade.installed)) /\
  fst (Upgrade.newVerifier (Upgrade.mirrorWith false) snapshot
         Upgrade.installed)
  = inl (errorsNew "invalid proxy URL") /\
  fst (Upgrade.newVerifier Upgrade.mirror snapshot Upgrade.installed)
  = inr "fs:,snapshot:https://artifacts.elastic.co/downloads/,http:https://artifacts.elastic.co/downloads/"%string.
Proof.
  intro snapshot. split; [reflexivity|]. split; [reflexivity|].
  pose proof (snapshot_sources_in_order (Upgrade.mirrorWith false) snapshot
                Upgrade.installed) as H.
  cbv zeta in H. destruct H as (_ & H).
  destruct (H eq_refl) as (_ & Herr & _ & _ & Hfs & _ & Hverr & _).
  split.
  { apply Herr. right. split; [eexists; reflexivity | reflexivity]. }
  split.
  { intro Hin. apply Hfs in Hin. destruct Hin as [d Hd].
    discriminate Hd. }
  split.
  { apply Hverr. right. split; [eexists; reflexivity|]. right.
    split; [eexists; reflexivity | reflexivity]. }
  pose proof (snapshot_sources_in_order Upgrade.mirror snapshot
                Upgrade.installed) as H'.
  cbv zeta in H'. destruct H' as (_ & H').
  destruct (H' eq_refl) as (_ & _ & _ & _ & _ & Hv & _).
  apply Hv. eexists. eexists. eexists.
  split; [reflexivity|]. split; [reflexivity|]. split; reflexivity.
Defined.
